(** * yak-dev-briefing: the agent's tool loop, conversation memory and
      change-detection cache, embedded from the worker sources

    Sources embedded here:
    - [worker/src/tools.js]    (executeTool and the eight handlers)
    - [worker/src/agent.js]    (runAgent, getHistory, saveHistory)
    - [worker/src/briefing.js] (handleDailyBriefing, hashIssues)
    - [scripts/daily-briefing.js] (hashIssues, main and the enrichment loop of
      fetchLinearIssues of the file-based job)
    - [worker/src/telegram.js] (parseUpdate, splitMessage, sendMessage, sendTyping)
    - [worker/src/index.js]    (the fetch handler, processMessage, handleCommand)

    JavaScript strings are modelled as [string] (a sequence of 8-bit code
    units); numbers that the code only ever uses as integers are [Z] or
    [nat]; [undefined]/[null] fields are [option]. *)

From Stdlib Require Import ZArith Ascii String List Bool Lia.
From Stdlib Require Import DecimalString DecimalZ DecimalPos DecimalN.
From stdpp Require Import base list strings gmap sorting.

Local Open Scope Z_scope.

(** ** JavaScript string primitives *)

Module JsString.

Definition dquote : ascii := "034"%char.
Definition backslash : ascii := "092"%char.

(** [String.prototype.toUpperCase] / [toLowerCase] on the ASCII letters;
    other code units are left as they are. *)
Definition upperChar (c : ascii) : ascii :=
  let n := nat_of_ascii c in
  if ((97 <=? n) && (n <=? 122))%nat then ascii_of_nat (n - 32) else c.

Definition lowerChar (c : ascii) : ascii :=
  let n := nat_of_ascii c in
  if ((65 <=? n) && (n <=? 90))%nat then ascii_of_nat (n + 32) else c.

Fixpoint mapChars (f : ascii → ascii) (s : string) : string :=
  match s with
  | EmptyString => EmptyString
  | String c t => String (f c) (mapChars f t)
  end.

Definition toUpperCase : string → string := mapChars upperChar.
Definition toLowerCase : string → string := mapChars lowerChar.

(** [hay.includes(needle)] *)
Fixpoint includes (hay needle : string) : bool :=
  String.prefix needle hay ||
  match hay with
  | EmptyString => false
  | String _ t => includes t needle
  end.

(** [s.trim() !== ""] : some code unit of [s] is not white space. *)
Fixpoint nonBlank (s : string) : bool :=
  match s with
  | EmptyString => false
  | String c t => negb (Ascii.is_space c) || nonBlank t
  end.

(** [s.substring(0, n)] *)
Definition substring0 (n : nat) (s : string) : string := String.substring 0 n s.

(** [parts.join(sep)] *)
Definition join (sep : string) (parts : list string) : string :=
  String.concat sep parts.

(** JavaScript truthiness of a possibly undefined string: defined and
    non-empty. *)
Definition truthy (o : option string) : bool :=
  match o with
  | Some s => negb (String.eqb s "")
  | None => false
  end.

(** A template literal prints [undefined] for a missing value. *)
Definition show (o : option string) : string := default "undefined" o.

(** Two strings equal up to letter case. *)
Definition eqNoCase (a b : string) : Prop := toUpperCase a = toUpperCase b.

(** The order of the default [Array.prototype.sort()] on strings and of
    [<] on strings: lexicographic on code units. *)
Definition codeUnitCompare (a b : string) : Z :=
  match String.compare a b with
  | Lt => -1
  | Eq => 0
  | Gt => 1
  end.

End JsString.

(** ** [Array.prototype.sort(cmp)]

    ECMAScript fixes the result for a consistent comparator: the elements in
    non-decreasing order, elements that compare equal in their original
    order.  An insertion sort that puts an element in front of the first one
    it does not exceed is such a stable sort. *)

Module JsArray.
Section Sort.
Context {A : Type} (cmp : A → A → Z).

Fixpoint insertSorted (x : A) (l : list A) : list A :=
  match l with
  | [] => [x]
  | y :: ys => if cmp x y <=? 0 then x :: y :: ys else y :: insertSorted x ys
  end.

Fixpoint sort (l : list A) : list A :=
  match l with
  | [] => []
  | x :: t => insertSorted x (sort t)
  end.

(** [arr.find(p)] *)
Definition find (p : A → bool) (l : list A) : option A := List.find p l.

(** [arr.slice(-n)]: the last [n] elements, the whole array when it is
    shorter. *)
Definition sliceLast (n : nat) (l : list A) : list A :=
  drop (length l - n)%nat l.

End Sort.

(** What ECMAScript calls a consistent comparator. *)
Record Consistent {A : Type} (cmp : A → A → Z) : Prop := {
  cmp_flip : ∀ a b, 0 < cmp a b → cmp b a < 0;
  cmp_flop : ∀ a b, cmp a b < 0 → 0 < cmp b a;
  cmp_trans : ∀ a b c, cmp a b <= 0 → cmp b c <= 0 → cmp a c <= 0;
}.

End JsArray.

(** ** JSON values and [JSON.stringify] *)

Module Json.
Import JsString.

#[local] Set Warnings "-register-all".
Inductive JVal : Type :=
| JNull
| JBool (b : bool)
| JNum (z : Z)
| JStr (s : string)
| JArr (items : list JVal)
| JObj (fields : list (string * JVal)).

(** An object literal whose property values may be [undefined]:
    [JSON.stringify] leaves such properties out. *)
Definition object (props : list (string * option JVal)) : JVal :=
  JObj (omap (λ kv, match kv.2 with Some v => Some (kv.1, v) | None => None end) props).

(** [obj.key], [undefined] when the property is absent. *)
Definition getProp (key : string) (v : JVal) : option JVal :=
  match v with
  | JObj fields => snd <$> List.find (λ kv, String.eqb kv.1 key) fields
  | _ => None
  end.

Definition hexDigit (n : nat) : ascii :=
  if (n <? 10)%nat then ascii_of_nat (48 + n) else ascii_of_nat (87 + n).

(** QuoteJSONString, one code unit: the two-character escapes, [\u00xx] for
    the other control characters, the code unit itself otherwise. *)
Definition escapeChar (c : ascii) : string :=
  let n := nat_of_ascii c in
  if (n =? 8)%nat then String backslash "b"
  else if (n =? 9)%nat then String backslash "t"
  else if (n =? 10)%nat then String backslash "n"
  else if (n =? 12)%nat then String backslash "f"
  else if (n =? 13)%nat then String backslash "r"
  else if (n =? 34)%nat then String backslash (String dquote "")
  else if (n =? 92)%nat then String backslash (String backslash "")
  else if (n <? 32)%nat then
    String backslash
      (String "u" (String "0" (String "0"
        (String (hexDigit (n / 16)) (String (hexDigit (n mod 16)) "")))))
  else String c "".

(** The printers write their value in front of a continuation [k]. *)
Fixpoint escapeInto (s : string) (k : string) : string :=
  match s with
  | EmptyString => k
  | String c t => escapeChar c +:+ escapeInto t k
  end.

Definition quoteInto (s : string) (k : string) : string :=
  String dquote (escapeInto s (String dquote k)).

(** Number::toString on an integer: its decimal digits, a minus sign in
    front of a negative one. *)
Definition showInt (z : Z) : string := NilEmpty.string_of_int (Z.to_int z).

Fixpoint writeValue (v : JVal) (k : string) {struct v} : string :=
  match v with
  | JNull => "null" +:+ k
  | JBool true => "true" +:+ k
  | JBool false => "false" +:+ k
  | JNum z => showInt z +:+ k
  | JStr s => quoteInto s k
  | JArr items =>
      String "[" 
        match items with
        | [] => String "]" k
        | v0 :: rest =>
            writeValue v0
              (fold_right (λ v r, String "," (writeValue v r)) (String "]" k) rest)
        end
  | JObj fields =>
      String "{"
        match fields with
        | [] => String "}" k
        | (key0, v0) :: rest =>
            quoteInto key0 (String ":" (writeValue v0
              (fold_right
                 (λ kv r, String "," (quoteInto kv.1 (String ":" (writeValue kv.2 r))))
                 (String "}" k) rest)))
        end
  end.

Definition stringify (v : JVal) : string := writeValue v "".

(** What the handlers return: [{ error: msg }] or [{ success: true, ... }]. *)
Definition errorResult (msg : string) : JVal := JObj [("error", JStr msg)].

Definition isFailure (v : JVal) : Prop := ∃ msg, v = errorResult msg.

Definition isSuccess (v : JVal) : Prop :=
  ∃ rest, v = JObj (("success", JBool true) :: rest).

End Json.

(** ** Effects: a state and exception monad

    An [async] function that may throw is a state transformer over the
    outside world [W] returning either the message of the thrown [Error]
    or a value.  State changes made before a throw stay. *)

Module Effect.

Definition Exc (A : Type) : Type := string + A.

Definition M (W A : Type) : Type := W → Exc A * W.

Definition ret {W A : Type} (a : A) : M W A := λ w, (inr a, w).

Definition throw {W A : Type} (msg : string) : M W A := λ w, (inl msg, w).

Definition bind {W A B : Type} (m : M W A) (f : A → M W B) : M W B :=
  λ w, match m w with
       | (inr a, w') => f a w'
       | (inl e, w') => (inl e, w')
       end.

(** A pure computation that may throw, run inside [M]. *)
Definition lift {W A : Type} (r : Exc A) : M W A := λ w, (r, w).

(** [try { body } catch (err) { handler(err.message) }] *)
Definition tryCatch {W A : Type} (body : M W A) (handler : string → M W A) : M W A :=
  λ w, match body w with
       | (inr a, w') => (inr a, w')
       | (inl e, w') => handler e w'
       end.

(** [for (const x of xs) { out.push(await f(x)) }] *)
Fixpoint forEach {W A B : Type} (f : A → M W B) (xs : list A) : M W (list B) :=
  match xs with
  | [] => ret []
  | x :: rest =>
      bind (f x) (λ y, bind (forEach f rest) (λ ys, ret (y :: ys)))
  end.

(** [arr.find(p)] with a callback that may throw. *)
Fixpoint findExc {A : Type} (p : A → Exc bool) (l : list A) : Exc (option A) :=
  match l with
  | [] => inr None
  | x :: rest =>
      match p x with
      | inl e => inl e
      | inr true => inr (Some x)
      | inr false => findExc p rest
      end
  end.

(** Calling a method on [undefined]. *)
Definition typeError (method : string) : string :=
  "Cannot read properties of undefined (reading '" +:+ method +:+ "')".

Definition method {A : Type} (name : string) (receiver : option string)
    (f : string → A) : Exc A :=
  match receiver with
  | Some s => inr (f s)
  | None => inl (typeError name)
  end.

End Effect.

Declare Scope js_scope.
Delimit Scope js_scope with js.
Notation "'let*' x ':=' c 'in' k" := (Effect.bind c (λ x, k))
  (at level 10, x pattern, c at level 100, k at level 200) : js_scope.
Notation "c ';;;' k" := (Effect.bind c (λ _, k))
  (at level 100, k at level 200, right associativity) : js_scope.

(** ** The tracker's entities, as the queries of [linear.js] return them *)

Module Linear.

Record State := { state_id : string; state_name : string; state_type : string }.

Record Project := { project_id : string; project_name : string }.

Record Assignee := { assignee_id : string; assignee_name : string }.

Record Member := {
  member_id : string;
  member_name : option string;
  member_displayName : option string }.

Record Label := { label_id : string; label_name : string }.

Record Issue := {
  issue_id : string;
  identifier : string;
  title : string;
  description : option string;
  priority : Z;
  priorityLabel : string;
  dueDate : option string;          (* [null] when unset *)
  state : option State;
  project : option Project;
  assignee : option Assignee;
  labels : list Label;              (* [labels.nodes] *)
  url : string;
  createdAt : string;
  updatedAt : string }.

End Linear.

(** ** The fingerprint of a snapshot: [hashIssues] *)

Module Fingerprint.
Import JsString Json Linear.

(** One element of [normalized]. *)
Record Normalized := {
  n_id : string;
  n_status : option string;
  n_priority : Z;
  n_assignee : option string;
  n_project : option string;
  n_labels : list string;
  n_dueDate : option string }.

Definition nullable (o : option string) : JVal :=
  match o with
  | Some s => JStr s
  | None => JNull
  end.

(** The object literal, as [JSON.stringify] sees it. *)
Definition toJson (n : Normalized) : JVal :=
  object [ ("id", Some (JStr (n_id n)));
           ("status", JStr <$> n_status n);
           ("priority", Some (JNum (n_priority n)));
           ("assignee", JStr <$> n_assignee n);
           ("project", JStr <$> n_project n);
           ("labels", Some (JArr (JStr <$> n_labels n)));
           ("dueDate", Some (nullable (n_dueDate n))) ].

(** [worker/src/briefing.js]: the [.map] callback of [hashIssues]. *)
Definition normalize (i : Issue) : Normalized :=
  {| n_id := identifier i;
     n_status := state_name <$> state i;
     n_priority := priority i;
     n_assignee := assignee_name <$> assignee i;
     n_project := project_name <$> project i;
     n_labels := JsArray.sort codeUnitCompare (label_name <$> labels i);
     n_dueDate := dueDate i |}.

Section Hash.
(** [String.prototype.localeCompare] (the platform's collation) and the
    digest (UTF-8 encoding, SHA-256, lower-case hex) are supplied by the
    runtime. *)
Context (localeCompare : string → string → Z) (sha256Hex : string → string).

Definition byId (a b : Normalized) : Z := localeCompare (n_id a) (n_id b).

Definition normalized (issues : list Issue) : list Normalized :=
  JsArray.sort byId (normalize <$> issues).

(** [JSON.stringify(normalized)], the text that is hashed. *)
Definition serialized (issues : list Issue) : string :=
  stringify (JArr (toJson <$> normalized issues)).

Definition hashIssues (issues : list Issue) : string :=
  sha256Hex (serialized issues).

End Hash.

(** *** Vocabulary for statements about snapshots *)

Definition withLabels (i : Issue) (ls : list Label) : Issue :=
  {| issue_id := issue_id i; identifier := identifier i; title := title i;
     description := description i; priority := priority i;
     priorityLabel := priorityLabel i; dueDate := dueDate i; state := state i;
     project := project i; assignee := assignee i; labels := ls; url := url i;
     createdAt := createdAt i; updatedAt := updatedAt i |}.

(** [j] is [i] with its labels listed in another order. *)
Definition relabelled (i j : Issue) : Prop :=
  labels i ≡ₚ labels j ∧ j = withLabels i (labels j).

(** The same issues, listed in another order, each with its labels in any
    order. *)
Definition sameIssues (l l' : list Issue) : Prop :=
  ∃ mid, l ≡ₚ mid ∧ Forall2 relabelled mid l'.

(** The identifier keys the issue within the snapshot, also under the
    collation. *)
Definition keyedByIdentifier (localeCompare : string → string → Z)
    (l : list Issue) : Prop :=
  ∀ i j, i ∈ l → j ∈ l → localeCompare (identifier i) (identifier j) = 0 → i = j.

Definition statusName (i : Issue) : option string := state_name <$> state i.
Definition assigneeName (i : Issue) : option string := assignee_name <$> assignee i.
Definition projectName (i : Issue) : option string := project_name <$> project i.
Definition labelNames (i : Issue) : list string := label_name <$> labels i.

(** Some tracked field of the issue has changed. *)
Definition trackedDiffers (i i' : Issue) : Prop :=
  statusName i ≠ statusName i' ∨ priority i ≠ priority i'
  ∨ assigneeName i ≠ assigneeName i' ∨ projectName i ≠ projectName i'
  ∨ ¬ (labelNames i ≡ₚ labelNames i') ∨ dueDate i ≠ dueDate i'.

(** At most untracked fields (title, description, url, ...) have changed. *)
Definition trackedSame (i i' : Issue) : Prop :=
  identifier i = identifier i' ∧ statusName i = statusName i'
  ∧ priority i = priority i' ∧ assigneeName i = assigneeName i'
  ∧ projectName i = projectName i' ∧ labelNames i ≡ₚ labelNames i'
  ∧ dueDate i = dueDate i'.

End Fingerprint.

(** ** [worker/src/tools.js]: the operation executor *)

Module Tools.
Import JsString Json Effect Linear.
#[local] Open Scope js_scope.

(** The parsed [input] of a [tool_use] block.  Every property may be
    missing: the model fills the object in. *)
Record Subtask := {
  sub_title : option string;
  sub_description : option string;
  sub_priority : option Z;
  sub_due_date : option string }.

Record Input := {
  in_issue_identifier : option string;
  in_status : option string;
  in_priority : option Z;
  in_comment : option string;
  in_label_name : option string;
  in_title : option string;
  in_description : option string;
  in_due_date : option string;
  in_project_name : option string;
  in_subtasks : option (list Subtask);
  in_name : option string;
  in_assignee_name : option string }.

(** The shared context [ctx] built once per turn. *)
Record Ctx := {
  apiKey : string;
  teamId : option string;            (* [fetchTeamId] may find no team *)
  teamKey : string;
  issues : list Issue;
  states : list State;
  ctx_labels : list Label;
  projects : list Project;
  members : list Member }.

(** *** The mutations of [linear.js] and what they send and return *)

Record IssueUpdateInput := {
  upd_stateId : option string;
  upd_priority : option Z;
  upd_labelIds : option (list string);
  upd_assigneeId : option string;
  upd_dueDate : option (option string) }.   (* [Some None]: [dueDate: null] *)

Definition noUpdate : IssueUpdateInput :=
  {| upd_stateId := None; upd_priority := None; upd_labelIds := None;
     upd_assigneeId := None; upd_dueDate := None |}.

Record IssueCreateInput := {
  new_teamId : option string;
  new_title : option string;
  new_description : option string;
  new_priority : option Z;
  new_dueDate : option string;
  new_projectId : option string;
  new_stateId : option string;
  new_parentId : option string }.

(** The selection of [issueUpdate]. *)
Record UpdatedIssue := {
  u_id : string;
  u_identifier : string;
  u_title : string;
  u_dueDate : option string;
  u_stateName : string;
  u_priority : Z;
  u_priorityLabel : string;
  u_assigneeName : option string;
  u_labelNames : list string;
  u_projectName : option string }.

(** The selection of [issueCreate]. *)
Record CreatedIssue := {
  c_id : string;
  c_identifier : string;
  c_title : string;
  c_url : string;
  c_dueDate : option string;
  c_stateName : string }.

Record Comment := { comment_id : string; comment_body : string }.

(** The five mutations, over a world [W] that holds the tracker.  Each may
    throw (HTTP failure, GraphQL errors). *)
Record Api (W : Type) := {
  updateIssue : string → string → IssueUpdateInput → M W UpdatedIssue;
  createLinearIssue : string → IssueCreateInput → M W CreatedIssue;
  createComment : string → string → option string → M W Comment;
  createLinearProject :
    string → option string → list (option string) → option string → M W Project;
  createLabel : string → option string → option string → M W Label }.

Arguments updateIssue {W}.
Arguments createLinearIssue {W}.
Arguments createComment {W}.
Arguments createLinearProject {W}.
Arguments createLabel {W}.

(** *** Handlers *)

Definition findIssue (identifier : option string) (issues : list Issue)
    : Exc (option Issue) :=
  method "toUpperCase" identifier (λ s,
    let upper := toUpperCase s in
    JsArray.find (λ i, String.eqb (Linear.identifier i) upper) issues).

Definition issueNotFound (input : Input) : JVal :=
  errorResult ("Issue " +:+ show (in_issue_identifier input)
               +:+ " not found in active issues.").

Definition quoted (s : string) : string :=
  String dquote s +:+ String dquote "".

(** [ctx.states.find((s) => s.name.toLowerCase() === name.toLowerCase())] *)
Definition findState (name : option string) (states : list State)
    : Exc (option State) :=
  findExc (λ s, method "toLowerCase" name (λ n,
    String.eqb (toLowerCase (state_name s)) (toLowerCase n))) states.

Section Handlers.
Context {W : Type} (api : Api W).

Definition handleUpdateStatus (input : Input) (ctx : Ctx) : M W JVal :=
  let* issue := lift (findIssue (in_issue_identifier input) (issues ctx)) in
  match issue with
  | None => ret (issueNotFound input)
  | Some issue =>
      let* state := lift (findState (in_status input) (states ctx)) in
      match state with
      | None =>
          ret (errorResult ("State " +:+ quoted (show (in_status input))
                 +:+ " not found. Available: "
                 +:+ join ", " (state_name <$> states ctx)))
      | Some state =>
          let* updated :=
            updateIssue api (apiKey ctx) (issue_id issue)
              {| upd_stateId := Some (state_id state); upd_priority := None;
                 upd_labelIds := None; upd_assigneeId := None;
                 upd_dueDate := None |} in
          ret (object [ ("success", Some (JBool true));
                        ("issue", Some (JStr (u_identifier updated)));
                        ("title", Some (JStr (u_title updated)));
                        ("new_status", Some (JStr (u_stateName updated))) ])
      end
  end.

Definition handleUpdatePriority (input : Input) (ctx : Ctx) : M W JVal :=
  let* issue := lift (findIssue (in_issue_identifier input) (issues ctx)) in
  match issue with
  | None => ret (issueNotFound input)
  | Some issue =>
      let* updated :=
        updateIssue api (apiKey ctx) (issue_id issue)
          {| upd_stateId := None; upd_priority := in_priority input;
             upd_labelIds := None; upd_assigneeId := None; upd_dueDate := None |} in
      ret (object [ ("success", Some (JBool true));
                    ("issue", Some (JStr (u_identifier updated)));
                    ("title", Some (JStr (u_title updated)));
                    ("new_priority", Some (JStr (u_priorityLabel updated))) ])
  end.

Definition handleAddComment (input : Input) (ctx : Ctx) : M W JVal :=
  let* issue := lift (findIssue (in_issue_identifier input) (issues ctx)) in
  match issue with
  | None => ret (issueNotFound input)
  | Some issue =>
      let* comment :=
        createComment api (apiKey ctx) (issue_id issue) (in_comment input) in
      ret (object [ ("success", Some (JBool true));
                    ("issue", Some (JStr (identifier issue)));
                    ("comment_preview",
                       Some (JStr (substring0 100 (comment_body comment)))) ])
  end.

Definition handleAddLabel (input : Input) (ctx : Ctx) : M W JVal :=
  let* issue := lift (findIssue (in_issue_identifier input) (issues ctx)) in
  match issue with
  | None => ret (issueNotFound input)
  | Some issue =>
      (* Find existing label (case-insensitive) or create a new one *)
      let* found :=
        lift (findExc (λ l, method "toLowerCase" (in_label_name input) (λ n,
                String.eqb (toLowerCase (label_name l)) (toLowerCase n)))
              (ctx_labels ctx)) in
      let* label :=
        match found with
        | Some l => ret l
        | None => createLabel api (apiKey ctx) (teamId ctx) (in_label_name input)
        end in
      (* Check if already applied *)
      let currentLabelIds := label_id <$> labels issue in
      if existsb (String.eqb (label_id label)) currentLabelIds then
        ret (object [ ("success", Some (JBool true));
                      ("message",
                         Some (JStr (identifier issue +:+ " already has label "
                                     +:+ quoted (label_name label)))) ])
      else
        (* Append the new label (don't replace existing ones) *)
        let* updated :=
          updateIssue api (apiKey ctx) (issue_id issue)
            {| upd_stateId := None; upd_priority := None;
               upd_labelIds := Some (currentLabelIds ++ [label_id label]);
               upd_assigneeId := None; upd_dueDate := None |} in
        ret (object [ ("success", Some (JBool true));
                      ("issue", Some (JStr (u_identifier updated)));
                      ("labels", Some (JArr (JStr <$> u_labelNames updated))) ])
  end.

(** [value || null] for a due date. *)
Definition orNull (o : option string) : JVal :=
  if truthy o then JStr (default "" o) else JNull.

(** [if (v) obj.key = v] *)
Definition whenTruthy (o : option string) : option string :=
  if truthy o then o else None.

(** Match project by name (fuzzy, contains match): the [projectId] local. *)
Definition resolveProjectId (input : Input) (ctx : Ctx) : option string :=
  if truthy (in_project_name input) then
    project_id <$>
      JsArray.find (λ p,
        includes (toLowerCase (project_name p))
                 (toLowerCase (default "" (in_project_name input))))
        (projects ctx)
  else None.

(** Match initial workflow state. *)
Definition resolveStateId (input : Input) (ctx : Ctx) : option string :=
  if truthy (in_status input) then
    state_id <$>
      JsArray.find (λ s,
        String.eqb (toLowerCase (state_name s))
                   (toLowerCase (default "" (in_status input))))
        (states ctx)
  else None.

(** [createInput] as it stands when [createLinearIssue] is called. *)
Definition parentCreateInput (input : Input) (ctx : Ctx) : IssueCreateInput :=
  {| new_teamId := teamId ctx;
     new_title := in_title input;
     new_description := whenTruthy (in_description input);
     new_priority := in_priority input;
     new_dueDate := whenTruthy (in_due_date input);
     new_projectId := resolveProjectId input ctx;
     new_stateId := resolveStateId input ctx;
     new_parentId := None |}.

(** [subInput] for one entry of [input.subtasks]. *)
Definition subtaskCreateInput (ctx : Ctx) (parentId : string)
    (projectId : option string) (sub : Subtask) : IssueCreateInput :=
  {| new_teamId := teamId ctx;
     new_title := sub_title sub;
     new_description := whenTruthy (sub_description sub);
     new_priority := sub_priority sub;
     new_dueDate := whenTruthy (sub_due_date sub);
     new_projectId := whenTruthy projectId;
     new_stateId := None;
     new_parentId := Some parentId |}.

Definition handleCreateIssue (input : Input) (ctx : Ctx) : M W JVal :=
  let projectId := resolveProjectId input ctx in
  let* parentIssue :=
    createLinearIssue api (apiKey ctx) (parentCreateInput input ctx) in
  let result :=
    [ ("success", Some (JBool true));
      ("issue", Some (JStr (c_identifier parentIssue)));
      ("title", Some (JStr (c_title parentIssue)));
      ("url", Some (JStr (c_url parentIssue)));
      ("due_date", Some (orNull (c_dueDate parentIssue))) ] in
  (* Create subtasks as child issues *)
  match in_subtasks input with
  | Some (sub0 :: subs) =>
      let* subtaskResults :=
        forEach (λ sub,
          let* subIssue :=
            createLinearIssue api (apiKey ctx)
              (subtaskCreateInput ctx (c_id parentIssue) projectId sub) in
          ret (object [ ("issue", Some (JStr (c_identifier subIssue)));
                        ("title", Some (JStr (c_title subIssue)));
                        ("due_date", Some (orNull (c_dueDate subIssue))) ]))
          (sub0 :: subs) in
      ret (object (result ++ [ ("subtasks", Some (JArr subtaskResults)) ]))
  | _ => ret (object result)
  end.

Definition handleCreateProject (input : Input) (ctx : Ctx) : M W JVal :=
  let* project :=
    createLinearProject api (apiKey ctx) (in_name input) [teamId ctx]
      (in_description input) in
  ret (object [ ("success", Some (JBool true));
                ("project", Some (JStr (project_name project)));
                ("id", Some (JStr (project_id project))) ]).

(** [m.name?.toLowerCase().includes(nameLower)] *)
Definition nameIncludes (name : option string) (nameLower : string) : bool :=
  match name with
  | Some n => includes (toLowerCase n) nameLower
  | None => false
  end.

Definition handleAssignIssue (input : Input) (ctx : Ctx) : M W JVal :=
  let* issue := lift (findIssue (in_issue_identifier input) (issues ctx)) in
  match issue with
  | None => ret (issueNotFound input)
  | Some issue =>
      (* Fuzzy match member name *)
      let* nameLower := lift (method "toLowerCase" (in_assignee_name input) toLowerCase) in
      let member :=
        JsArray.find (λ m,
          nameIncludes (member_name m) nameLower
          || nameIncludes (member_displayName m) nameLower) (members ctx) in
      match member with
      | None =>
          ret (errorResult ("Team member " +:+ quoted (show (in_assignee_name input))
                 +:+ " not found. Available: "
                 +:+ join ", " ((λ m, default "" (member_name m)) <$> members ctx)))
      | Some member =>
          let* updated :=
            updateIssue api (apiKey ctx) (issue_id issue)
              {| upd_stateId := None; upd_priority := None; upd_labelIds := None;
                 upd_assigneeId := Some (member_id member); upd_dueDate := None |} in
          ret (object [ ("success", Some (JBool true));
                        ("issue", Some (JStr (u_identifier updated)));
                        ("title", Some (JStr (u_title updated)));
                        ("assignee", JStr <$> u_assigneeName updated) ])
      end
  end.

Definition handleUpdateDueDate (input : Input) (ctx : Ctx) : M W JVal :=
  let* issue := lift (findIssue (in_issue_identifier input) (issues ctx)) in
  match issue with
  | None => ret (issueNotFound input)
  | Some issue =>
      (* Allow clearing the due date by passing null/empty *)
      let dueDate :=
        if nonBlank (default "" (in_due_date input)) then in_due_date input else None in
      let* updated :=
        updateIssue api (apiKey ctx) (issue_id issue)
          {| upd_stateId := None; upd_priority := None; upd_labelIds := None;
             upd_assigneeId := None; upd_dueDate := Some dueDate |} in
      ret (object [ ("success", Some (JBool true));
                    ("issue", Some (JStr (u_identifier updated)));
                    ("title", Some (JStr (u_title updated)));
                    ("due_date",
                       Some (JStr (if truthy (u_dueDate updated)
                                   then default "" (u_dueDate updated)
                                   else "cleared"))) ])
  end.

(** The [switch] inside the [try]. *)
Definition dispatch (toolName : string) (input : Input) (ctx : Ctx) : M W JVal :=
  if String.eqb toolName "update_issue_status" then handleUpdateStatus input ctx
  else if String.eqb toolName "update_issue_priority" then handleUpdatePriority input ctx
  else if String.eqb toolName "add_comment" then handleAddComment input ctx
  else if String.eqb toolName "add_label" then handleAddLabel input ctx
  else if String.eqb toolName "create_issue" then handleCreateIssue input ctx
  else if String.eqb toolName "create_project" then handleCreateProject input ctx
  else if String.eqb toolName "assign_issue" then handleAssignIssue input ctx
  else if String.eqb toolName "update_due_date" then handleUpdateDueDate input ctx
  else ret (errorResult ("Unknown tool: " +:+ toolName)).

Definition executeTool (toolName : string) (input : Input) (ctx : Ctx) : M W JVal :=
  tryCatch (dispatch toolName input ctx)
    (λ message,
       ret (errorResult ("Tool " +:+ quoted toolName +:+ " failed: " +:+ message))).

End Handlers.

(** The same request without its [project_name], without its [status]. *)
Definition withoutProject (input : Input) : Input :=
  {| in_issue_identifier := in_issue_identifier input; in_status := in_status input;
     in_priority := in_priority input; in_comment := in_comment input;
     in_label_name := in_label_name input; in_title := in_title input;
     in_description := in_description input; in_due_date := in_due_date input;
     in_project_name := None; in_subtasks := in_subtasks input;
     in_name := in_name input; in_assignee_name := in_assignee_name input |}.

Definition withoutStatus (input : Input) : Input :=
  {| in_issue_identifier := in_issue_identifier input; in_status := None;
     in_priority := in_priority input; in_comment := in_comment input;
     in_label_name := in_label_name input; in_title := in_title input;
     in_description := in_description input; in_due_date := in_due_date input;
     in_project_name := in_project_name input; in_subtasks := in_subtasks input;
     in_name := in_name input; in_assignee_name := in_assignee_name input |}.

(** No project's name contains the reference; no state is named by it. *)
Definition projectUnresolved (input : Input) (ctx : Ctx) : Prop :=
  ∀ p, p ∈ projects ctx →
    includes (toLowerCase (project_name p))
             (toLowerCase (default "" (in_project_name input))) = false.

Definition statusUnresolved (input : Input) (ctx : Ctx) : Prop :=
  ∀ s, s ∈ states ctx →
    String.eqb (toLowerCase (state_name s))
               (toLowerCase (default "" (in_status input))) = false.

(** The label a name denotes: the first with that name up to letter case. *)
Definition labelNamed (name : string) (ls : list Label) : option Label :=
  List.find (λ l, String.eqb (toLowerCase (label_name l)) (toLowerCase name)) ls.

(** The names the [switch] of [executeTool] knows. *)
Definition registry : list string :=
  [ "update_issue_status"; "update_issue_priority"; "add_comment"; "add_label";
    "create_issue"; "create_project"; "assign_issue"; "update_due_date" ].

(** A result is structured: a success payload or an error string. *)
Definition Structured (r : JVal) : Prop := isSuccess r ∨ isFailure r.

End Tools.

(** ** The key-value store of the worker ([env.KV]) *)

Module Store.

Inductive Role := User | Assistant.

(** One persisted entry of the conversation: [{ role, content }]. *)
Record Turn := { turn_role : Role; turn_content : string }.

(** The briefing cache record. *)
Record CacheRecord := {
  hash : option string;             (* [null] in records of the file-based job *)
  briefing : string;
  unchangedDays : option nat;       (* the code reads it as [x || 0] *)
  lastRun : string }.

(** What a key holds, as [get(key, "json")] would parse it; a text that
    does not parse makes [get] throw. *)
Inductive KVal :=
| KHistory (turns : list Turn)
| KCache (record : CacheRecord)
| KUnreadable.

Abbreviation KV := (gmap string KVal).

End Store.

(** ** [worker/src/agent.js]: the tool-use loop and the conversation memory *)

Module Agent.
Import JsString Json Effect Linear Store.
#[local] Open Scope js_scope.

Definition HISTORY_KEY : string := "conversation_history".
Definition MAX_HISTORY_PAIRS : nat := 20.
Definition MAX_ITERATIONS : nat := 10.

(** A content block of a model response. *)
Inductive Block :=
| TextBlock (text : string)
| ToolUseBlock (id name : string) (input : Tools.Input).

Record Response := { stop_reason : string; content : list Block }.

Record ToolResult := { tool_use_id : string; result_content : string }.

Inductive Content :=
| Plain (text : string)
| Blocks (blocks : list Block)
| Results (results : list ToolResult).

Record Message := { role : Role; body : Content }.

Definition ofTurn (t : Turn) : Message :=
  {| role := turn_role t; body := Plain (turn_content t) |}.

(** The worker's world: the tracker behind the mutations, and the store. *)
Record World (W : Type) := { tracker : W; kv : KV }.
Arguments tracker {W}.
Arguments kv {W}.

(** Run a tracker computation in the worker's world. *)
Definition onTracker {W A : Type} (m : M W A) : M (World W) A :=
  λ w, match m (tracker w) with
       | (r, t') => (r, {| tracker := t'; kv := kv w |})
       end.

(** [getHistory]: the stored array, [[]] when the key is absent or the
    read throws. *)
Definition getHistory {W : Type} : M (World W) (list Turn) :=
  λ w, match kv w !! HISTORY_KEY with
       | Some (KHistory stored) => (inr stored, w)
       | _ => (inr [], w)
       end.

(** The array [saveHistory] writes. *)
Definition trimmed (existing : list Turn) (userMsg assistantMsg : string) : list Turn :=
  let updated :=
    existing ++ [ {| turn_role := User; turn_content := userMsg |};
                  {| turn_role := Assistant; turn_content := assistantMsg |} ] in
  (* Trim to last N pairs *)
  JsArray.sliceLast (MAX_HISTORY_PAIRS * 2) updated.

Definition saveHistory {W : Type} (existing : list Turn) (userMsg assistantMsg : string)
    : M (World W) unit :=
  λ w, (inr tt,
        {| tracker := tracker w;
           kv := <[HISTORY_KEY := KHistory (trimmed existing userMsg assistantMsg)]> (kv w) |}).

(** The conversation the store holds. *)
Definition storedHistory {W : Type} (w : World W) : list Turn :=
  match kv w !! HISTORY_KEY with
  | Some (KHistory stored) => stored
  | _ => []
  end.

(** What one turn does to the memory: [getHistory] at its start,
    [saveHistory] at its end. *)
Definition remember {W : Type} (userMsg assistantMsg : string) : M (World W) unit :=
  let* history := getHistory in
  saveHistory history userMsg assistantMsg.

Definition rememberAll {W : Type} (pairs : list (string * string)) (w : World W)
    : World W :=
  fold_left (λ w p, (remember p.1 p.2 w).2) pairs w.

(** The entries of a sequence of exchanges, oldest first. *)
Definition turnsOf (pairs : list (string * string)) : list Turn :=
  pairs ≫= (λ p, [ {| turn_role := User; turn_content := p.1 |};
                   {| turn_role := Assistant; turn_content := p.2 |} ]).

Definition newline : string := String "010"%char "".

Definition fallbackText : string :=
  "Done — but I couldn't generate a response. Something might be off.".

Definition textOf (b : Block) : option string :=
  match b with
  | TextBlock text => Some text
  | ToolUseBlock _ _ _ => None
  end.

(** The text segments of a response joined by newlines. *)
Definition joinedText (r : Response) : string :=
  join newline (omap textOf (content r)).

(** Extract final text: [joined || fallback]. *)
Definition finalText (r : Response) : string :=
  if String.eqb (joinedText r) "" then fallbackText else joinedText r.

Record LoopState := {
  response : Response;
  messages : list Message;
  iterations : nat }.

Section Agent.
Context {W : Type} (api : Tools.Api W).
(** The model call (a request to the Anthropic API, which may throw) and
    the prompt builder (which formats the current date) come from outside. *)
Context (callClaude : string → list Message → Exc Response).
Context (buildSystemPrompt : Tools.Ctx → string).

(** Collect all tool calls from this response. *)
Definition runToolCalls (ctx : Tools.Ctx) (blocks : list Block)
    : M (World W) (list ToolResult) :=
  let* results :=
    forEach (λ b,
      match b with
      | ToolUseBlock id name input =>
          let* result := onTracker (Tools.executeTool api name input ctx) in
          ret (Some {| tool_use_id := id; result_content := stringify result |})
      | TextBlock _ => ret None
      end) blocks in
  ret (omap (λ r, r) results).

(** The [while] loop.  [fuel] bounds the unfolding; [None] means the fuel
    ran out before the loop condition became false. *)
Fixpoint toolLoop (fuel : nat) (system : string) (ctx : Tools.Ctx) (st : LoopState)
    : M (World W) (option LoopState) :=
  if String.eqb (stop_reason (response st)) "tool_use"
     && (iterations st <? MAX_ITERATIONS)%nat
  then
    match fuel with
    | O => ret None
    | S fuel' =>
        let* toolResults := runToolCalls ctx (content (response st)) in
        (* Feed results back to Claude *)
        let messages' :=
          messages st ++ [ {| role := Assistant; body := Blocks (content (response st)) |};
                           {| role := User; body := Results toolResults |} ] in
        let* response' := lift (callClaude system messages') in
        toolLoop fuel' system ctx
          {| response := response'; messages := messages';
             iterations := S (iterations st) |}
    end
  else ret (Some st).

Definition runAgent (fuel : nat) (userMessage : string) (ctx : Tools.Ctx)
    : M (World W) (option string) :=
  let* history := getHistory in
  let system := buildSystemPrompt ctx in
  (* Build message array: history + new user message *)
  let messages := (ofTurn <$> history) ++ [ {| role := User; body := Plain userMessage |} ] in
  (* First Claude call *)
  let* first := lift (callClaude system messages) in
  let* final :=
    toolLoop fuel system ctx
      {| response := first; messages := messages; iterations := 0 |} in
  match final with
  | None => ret None
  | Some st =>
      let assistantText := finalText (response st) in
      (* Persist only the human-readable parts of the conversation *)
      (saveHistory history userMessage assistantText ;;;
       ret (Some assistantText))
  end.

End Agent.

End Agent.

(** ** [worker/src/briefing.js]: the scheduled briefing *)

Module Briefing.
Import JsString Json Effect Linear Store.
#[local] Open Scope js_scope.

Definition CACHE_KEY : string := "briefing_cache".
Definition STALE_DAYS_THRESHOLD : nat := 3.

Definition noIssuesMessage : string :=
  "No active issues in Linear. Either you're crushing it or something is wrong.".

Definition escalationMessage : string := "SNAP OUT OF IT, LOCK IN!".

(** The store and the texts handed to [sendMessage], oldest first. *)
Record World := { kv : KV; sent : list string }.

Definition sendMessage (text : string) : M World unit :=
  λ w, (inr tt, {| kv := kv w; sent := sent w ++ [text] |}).

Definition kvPut (key : string) (v : KVal) : M World unit :=
  λ w, (inr tt, {| kv := <[key := v]> (kv w); sent := sent w |}).

(** [try { cache = await env.KV.get(CACHE_KEY, "json") } catch { cache = null }] *)
Definition readCache : M World (option CacheRecord) :=
  λ w, match kv w !! CACHE_KEY with
       | Some (KCache c) => (inr (Some c), w)
       | _ => (inr None, w)
       end.

Section Briefing.
Context (localeCompare : string → string → Z) (sha256Hex : string → string).
(** The outcome of [fetchActiveIssues], the model call behind
    [generateBriefing] and the current date come from outside. *)
Context (generateBriefing : list Issue → Exc string).

Definition hashIssues : list Issue → string :=
  Fingerprint.hashIssues localeCompare sha256Hex.

Definition handleDailyBriefing (fetched : Exc (list Issue)) (today : string)
    : M World unit :=
  match fetched with
  | inl message =>
      sendMessage ("Briefing failed — couldn't reach Linear: " +:+ message)
  | inr issues =>
      if (length issues =? 0)%nat then sendMessage noIssuesMessage
      else
        (* Cache check *)
        let currentHash := hashIssues issues in
        let* cache := readCache in
        match (if cache is Some c then bool_decide (hash c = Some currentHash) else false),
              cache with
        | true, Some cache =>
            let unchangedDays := (default 0 (unchangedDays cache) + 1)%nat in
            let text :=
              if (STALE_DAYS_THRESHOLD <=? unchangedDays)%nat
              then escalationMessage
              else briefing cache in
            (kvPut CACHE_KEY
               (KCache {| hash := Some currentHash;
                          briefing := briefing cache; (* always keep the real briefing text *)
                          unchangedDays := Some unchangedDays;
                          lastRun := today |}) ;;;
             sendMessage text)
        | _, _ =>
            (* Generate fresh briefing *)
            let* text := lift (generateBriefing issues) in
            (kvPut CACHE_KEY
               (KCache {| hash := Some currentHash; briefing := text;
                          unchangedDays := Some 0%nat; lastRun := today |}) ;;;
             sendMessage text)
        end
  end.

(** Consecutive scheduled runs over the same snapshot. *)
Fixpoint runs (n : nat) (issues : list Issue) (today : nat → string) (w : World) : World :=
  match n with
  | O => w
  | S m =>
      let w' := runs m issues today w in
      (handleDailyBriefing (inr issues) (today m) w').2
  end.

End Briefing.

End Briefing.

(** ** [scripts/daily-briefing.js]: the file-based job *)

Module Script.
Import JsString Json Effect Store Fingerprint.
#[local] Open Scope js_scope.

Definition CACHE_PATH : string := "briefing/cache.json".
Definition STALE_DAYS_THRESHOLD : nat := 3.

(** An element of [enrichedIssues].  [e_dueDate] is [None] where the SDK
    gives [undefined]. *)
Record Enriched := {
  e_identifier : string;
  e_title : string;
  e_description : string;
  e_priority : Z;
  e_priorityLabel : string;
  e_dueDate : option string;
  e_status : string;
  e_project : string;
  e_assignee : string;
  e_labels : list string;
  e_url : string }.

Definition normalize (i : Enriched) : Normalized :=
  {| n_id := e_identifier i;
     n_status := Some (e_status i);
     n_priority := e_priority i;
     n_assignee := Some (e_assignee i);
     n_project := Some (e_project i);
     n_labels := JsArray.sort codeUnitCompare (e_labels i);
     n_dueDate := e_dueDate i |}.

(** The object literal of the job's [hashIssues], as [JSON.stringify] sees
    it.  The fields come from the SDK's issue, whose [dueDate] is
    [undefined], not [null], when no date is set: the property is then
    left out, where the worker prints [null]. *)
Definition toJson (n : Normalized) : JVal :=
  object [ ("id", Some (JStr (n_id n)));
           ("status", JStr <$> n_status n);
           ("priority", Some (JNum (n_priority n)));
           ("assignee", JStr <$> n_assignee n);
           ("project", JStr <$> n_project n);
           ("labels", Some (JArr (JStr <$> n_labels n)));
           ("dueDate", JStr <$> n_dueDate n) ].

(** The files the job writes; [cache.json] is kept parsed. *)
Record World := { files : gmap string string; cacheFile : option CacheRecord }.

Definition writeFileSync (path text : string) : M World unit :=
  λ w, (inr tt, {| files := <[path := text]> (files w); cacheFile := cacheFile w |}).

Definition writeCache (data : CacheRecord) : M World unit :=
  λ w, (inr tt, {| files := files w; cacheFile := Some data |}).

Definition readCache : M World (option CacheRecord) :=
  λ w, (inr (cacheFile w), w).

Section Script.
Context (localeCompare : string → string → Z) (sha256Hex : string → string).
Context (generateBriefing : list Enriched → Exc string).

Definition serialized (issues : list Enriched) : string :=
  stringify (JArr (toJson <$> JsArray.sort (byId localeCompare) (normalize <$> issues))).

Definition hashIssues (issues : list Enriched) : string :=
  sha256Hex (serialized issues).

Definition save (today text : string) : M World unit :=
  (writeFileSync "briefing/latest.txt" text ;;;
   writeFileSync ("briefing/archive/" +:+ today +:+ ".txt") text).

Definition main (issues : list Enriched) (today : string) : M World unit :=
  if (length issues =? 0)%nat then
    let text := Briefing.noIssuesMessage in
    (save today text ;;;
     writeCache {| hash := None; briefing := text;
                   unchangedDays := Some 0%nat; lastRun := today |})
  else
    let currentHash := hashIssues issues in
    let* cache := readCache in
    match (if cache is Some c then bool_decide (hash c = Some currentHash) else false),
          cache with
    | true, Some cache =>
        let unchangedDays := (default 0 (unchangedDays cache) + 1)%nat in
        let text :=
          if (STALE_DAYS_THRESHOLD <=? unchangedDays)%nat
          then Briefing.escalationMessage
          else briefing cache in
        (save today text ;;;
         writeCache {| hash := Some currentHash; briefing := briefing cache;
                       unchangedDays := Some unchangedDays; lastRun := today |})
    | _, _ =>
        let* text := lift (generateBriefing issues) in
        (save today text ;;;
         writeCache {| hash := Some currentHash; briefing := text;
                       unchangedDays := Some 0%nat; lastRun := today |})
    end.

End Script.

End Script.

(** ** A reference tracker

    An executable stand-in for the tracker behind the mutations, used to
    state properties that span two turns.  [issueUpdate] overwrites exactly
    the fields present in its input, [labelIds] replacing the issue's label
    set; [issueLabelCreate] adds a label under a new id.  The page limits of
    the queries are not modelled: a snapshot shows every active issue and
    every label. *)

Module Tracker.
Import JsString Json Effect Linear Tools.

Record T := {
  t_issues : list Issue;
  t_states : list State;
  t_labels : list Label;
  t_projects : list Project;
  t_members : list Member;
  t_team : option string;
  t_comments : list (string * string);
  t_next : nat }.

Definition showNat (n : nat) : string := showInt (Z.of_nat n).

Definition byIssueId (issueId : string) (i : Issue) : bool :=
  String.eqb (issue_id i) issueId.

(** The labels an id list denotes; unknown ids denote nothing. *)
Definition labelsOf (t : T) (ids : list string) : list Label :=
  omap (λ lid, List.find (λ l, String.eqb (label_id l) lid) (t_labels t)) ids.

Definition applyUpdate (t : T) (input : IssueUpdateInput) (i : Issue) : Issue :=
  {| issue_id := issue_id i;
     identifier := identifier i;
     title := title i;
     description := description i;
     priority := default (priority i) (upd_priority input);
     priorityLabel := priorityLabel i;
     dueDate := default (dueDate i) (upd_dueDate input);
     state :=
       match upd_stateId input with
       | Some sid =>
           match List.find (λ s, String.eqb (state_id s) sid) (t_states t) with
           | Some s => Some s
           | None => state i
           end
       | None => state i
       end;
     project := project i;
     assignee :=
       match upd_assigneeId input with
       | Some mid =>
           match List.find (λ m, String.eqb (member_id m) mid) (t_members t) with
           | Some m =>
               Some {| assignee_id := member_id m;
                       assignee_name := default "" (member_name m) |}
           | None => assignee i
           end
       | None => assignee i
       end;
     labels :=
       match upd_labelIds input with
       | Some ids => labelsOf t ids
       | None => labels i
       end;
     url := url i;
     createdAt := createdAt i;
     updatedAt := updatedAt i |}.

Definition payload (i : Issue) : UpdatedIssue :=
  {| u_id := issue_id i;
     u_identifier := identifier i;
     u_title := title i;
     u_dueDate := dueDate i;
     u_stateName := default "" (state_name <$> state i);
     u_priority := priority i;
     u_priorityLabel := priorityLabel i;
     u_assigneeName := assignee_name <$> assignee i;
     u_labelNames := label_name <$> labels i;
     u_projectName := project_name <$> project i |}.

Definition withIssues (t : T) (l : list Issue) : T :=
  {| t_issues := l; t_states := t_states t; t_labels := t_labels t;
     t_projects := t_projects t; t_members := t_members t; t_team := t_team t;
     t_comments := t_comments t; t_next := t_next t |}.

Definition refUpdateIssue (key issueId : string) (input : IssueUpdateInput)
    : M T UpdatedIssue :=
  λ t, match List.find (byIssueId issueId) (t_issues t) with
       | None => (inl "Linear: Entity not found: Issue", t)
       | Some i =>
           let i' := applyUpdate t input i in
           (inr (payload i'),
            withIssues t
              ((λ j, if byIssueId issueId j then applyUpdate t input j else j)
                 <$> t_issues t))
       end.

Definition refCreateLabel (key : string) (team name : option string) : M T Label :=
  λ t, match name with
       | None => (inl "Linear: Argument Validation Error", t)
       | Some n =>
           let l := {| label_id := "label-" +:+ showNat (t_next t); label_name := n |} in
           (inr l,
            {| t_issues := t_issues t; t_states := t_states t;
               t_labels := t_labels t ++ [l];
               t_projects := t_projects t; t_members := t_members t;
               t_team := t_team t; t_comments := t_comments t;
               t_next := S (t_next t) |})
       end.

Definition refCreateIssue (key : string) (input : IssueCreateInput) : M T CreatedIssue :=
  λ t, match new_title input, new_teamId input with
       | Some ttl, Some _ =>
           let n := showNat (t_next t) in
           let st :=
             match new_stateId input with
             | Some sid => List.find (λ s, String.eqb (state_id s) sid) (t_states t)
             | None => List.head (t_states t)
             end in
           let i :=
             {| issue_id := "issue-" +:+ n;
                identifier := "YAK-" +:+ n;
                title := ttl;
                description := new_description input;
                priority := default 0 (new_priority input);
                priorityLabel := "";
                dueDate := new_dueDate input;
                state := st;
                project :=
                  match new_projectId input with
                  | Some pid =>
                      List.find (λ p, String.eqb (project_id p) pid) (t_projects t)
                  | None => None
                  end;
                assignee := None;
                labels := [];
                url := "https://linear.app/issue/YAK-" +:+ n;
                createdAt := "";
                updatedAt := "" |} in
           (inr {| c_id := issue_id i; c_identifier := identifier i;
                   c_title := ttl; c_url := url i; c_dueDate := dueDate i;
                   c_stateName := default "" (state_name <$> st) |},
            {| t_issues := t_issues t ++ [i]; t_states := t_states t;
               t_labels := t_labels t; t_projects := t_projects t;
               t_members := t_members t; t_team := t_team t;
               t_comments := t_comments t; t_next := S (t_next t) |})
       | _, _ => (inl "Linear: Argument Validation Error", t)
       end.

Definition refCreateComment (key issueId : string) (text : option string)
    : M T Comment :=
  λ t, match text with
       | None => (inl "Linear: Argument Validation Error", t)
       | Some b =>
           (inr {| comment_id := "comment-" +:+ showNat (t_next t); comment_body := b |},
            {| t_issues := t_issues t; t_states := t_states t;
               t_labels := t_labels t; t_projects := t_projects t;
               t_members := t_members t; t_team := t_team t;
               t_comments := t_comments t ++ [(issueId, b)];
               t_next := S (t_next t) |})
       end.

Definition refCreateProject (key : string) (name : option string)
    (teams : list (option string)) (descr : option string) : M T Project :=
  λ t, match name with
       | None => (inl "Linear: Argument Validation Error", t)
       | Some n =>
           let p := {| project_id := "project-" +:+ showNat (t_next t);
                       project_name := n |} in
           (inr p,
            {| t_issues := t_issues t; t_states := t_states t;
               t_labels := t_labels t; t_projects := t_projects t ++ [p];
               t_members := t_members t; t_team := t_team t;
               t_comments := t_comments t; t_next := S (t_next t) |})
       end.

Definition refApi : Api T :=
  {| updateIssue := refUpdateIssue;
     createLinearIssue := refCreateIssue;
     createComment := refCreateComment;
     createLinearProject := refCreateProject;
     createLabel := refCreateLabel |}.

(** [fetchActiveIssues]: the issues whose state type is one of
    backlog, unstarted, started. *)
Definition isActive (i : Issue) : bool :=
  match state i with
  | Some s =>
      String.eqb (state_type s) "backlog" || String.eqb (state_type s) "unstarted"
      || String.eqb (state_type s) "started"
  | None => false
  end.

(** The context [processMessage] builds for one turn. *)
Definition snapshot (key teamKey : string) (t : T) : Ctx :=
  {| apiKey := key;
     teamId := t_team t;
     teamKey := teamKey;
     issues := List.filter isActive (t_issues t);
     states := t_states t;
     ctx_labels := t_labels t;
     projects := t_projects t;
     members := t_members t |}.

(** How often an issue carries the label with the given id. *)
Definition labelCount (labelId : string) (i : Issue) : nat :=
  length (List.filter (λ l, String.eqb (label_id l) labelId) (labels i)).

(** One chat turn that asks for one tool call: fresh snapshot, then
    [executeTool]. *)
Definition turn (key teamKey toolName : string) (input : Input) (t : T)
    : Exc JVal * T :=
  executeTool refApi toolName input (snapshot key teamKey t) t.

End Tracker.

(** ** Sample data *)

Module Fixtures.
Import JsString Json Effect Linear Store.

Definition todo : State :=
  {| state_id := "s-todo"; state_name := "Todo"; state_type := "unstarted" |}.
Definition inProgress : State :=
  {| state_id := "s-doing"; state_name := "In Progress"; state_type := "started" |}.

Definition bug : Label := {| label_id := "l-bug"; label_name := "bug" |}.
Definition urgent : Label := {| label_id := "l-urgent"; label_name := "urgent" |}.

Definition portal : Project := {| project_id := "p-portal"; project_name := "Client Portal" |}.

Definition zach : Member :=
  {| member_id := "m-zach"; member_name := Some "Zach Ellis";
     member_displayName := Some "zach" |}.

Definition yak1 : Issue :=
  {| issue_id := "i-1"; identifier := "YAK-1"; title := "Fix login";
     description := Some "Login fails on mobile"; priority := 2;
     priorityLabel := "High"; dueDate := None; state := Some todo;
     project := Some portal; assignee := None; labels := [urgent; bug];
     url := "https://linear.app/yak/issue/YAK-1"; createdAt := "2026-01-05";
     updatedAt := "2026-01-06" |}.

Definition yak2 : Issue :=
  {| issue_id := "i-2"; identifier := "YAK-2"; title := "Set up staging";
     description := None; priority := 3; priorityLabel := "Medium";
     dueDate := Some "2026-03-01"; state := Some inProgress; project := None;
     assignee := Some {| assignee_id := "m-zach"; assignee_name := "Zach Ellis" |};
     labels := []; url := "https://linear.app/yak/issue/YAK-2";
     createdAt := "2026-01-07"; updatedAt := "2026-01-07" |}.

(** [yak1] with its labels listed the other way round. *)
Definition yak1Relabelled : Issue := Fingerprint.withLabels yak1 [bug; urgent].

(** [yak1] moved to another state. *)
Definition yak1Started : Issue :=
  {| issue_id := "i-1"; identifier := "YAK-1"; title := "Fix login";
     description := Some "Login fails on mobile"; priority := 2;
     priorityLabel := "High"; dueDate := None; state := Some inProgress;
     project := Some portal; assignee := None; labels := [urgent; bug];
     url := "https://linear.app/yak/issue/YAK-1"; createdAt := "2026-01-05";
     updatedAt := "2026-01-06" |}.

(** [yak1] with another description. *)
Definition yak1Reworded : Issue :=
  {| issue_id := "i-1"; identifier := "YAK-1"; title := "Fix login";
     description := Some "Login fails on mobile and tablet"; priority := 2;
     priorityLabel := "High"; dueDate := None; state := Some todo;
     project := Some portal; assignee := None; labels := [urgent; bug];
     url := "https://linear.app/yak/issue/YAK-1"; createdAt := "2026-01-05";
     updatedAt := "2026-01-09" |}.

(** Stand-ins for the runtime's collation and digest. *)
Definition sampleCollation : string → string → Z := codeUnitCompare.
Definition sampleDigest (text : string) : string := "sha256:" +:+ text.

End Fixtures.

Module Scenarios.
Import JsString Json Effect Linear Store.

(** Twenty-three exchanges, numbered. *)
Definition exchanges : list (string * string) :=
  (λ n, ("question " +:+ Tracker.showNat n, "answer " +:+ Tracker.showNat n))
    <$> seq 0 23.

Definition emptyAgentWorld : Agent.World unit := {| Agent.tracker := tt; Agent.kv := ∅ |}.

(** A cache record written by an earlier run over [yak1; yak2]. *)
Definition cachedRecord : CacheRecord :=
  {| hash := Some (Fingerprint.hashIssues Fixtures.sampleCollation Fixtures.sampleDigest
                     [Fixtures.yak1; Fixtures.yak2]);
     briefing := "TOP PRIORITY - YAK-1 fix login";
     unchangedDays := Some 0%nat;
     lastRun := "2026-01-10" |}.

Definition cachedWorld : Briefing.World :=
  {| Briefing.kv := {[ Briefing.CACHE_KEY := KCache cachedRecord ]};
     Briefing.sent := [] |}.

Definition freshWorld : Briefing.World := {| Briefing.kv := ∅; Briefing.sent := [] |}.

Definition sampleBriefing (issues : list Issue) : Exc string :=
  inr "TOP PRIORITY - YAK-1 fix login".

Definition dates (n : nat) : string := "2026-01-1" +:+ Tracker.showNat (S n).

(** A tracker holding the two sample issues. *)
Definition tracker0 : Tracker.T :=
  {| Tracker.t_issues := [Fixtures.yak1; Fixtures.yak2];
     Tracker.t_states := [Fixtures.todo; Fixtures.inProgress];
     Tracker.t_labels := [Fixtures.bug; Fixtures.urgent];
     Tracker.t_projects := [Fixtures.portal];
     Tracker.t_members := [Fixtures.zach];
     Tracker.t_team := Some "team-yak";
     Tracker.t_comments := [];
     Tracker.t_next := 3 |}.

Definition ctx0 : Tools.Ctx := Tracker.snapshot "lin_api_key" "YAK" tracker0.

Definition noInput : Tools.Input :=
  {| Tools.in_issue_identifier := None; Tools.in_status := None;
     Tools.in_priority := None; Tools.in_comment := None;
     Tools.in_label_name := None; Tools.in_title := None;
     Tools.in_description := None; Tools.in_due_date := None;
     Tools.in_project_name := None; Tools.in_subtasks := None;
     Tools.in_name := None; Tools.in_assignee_name := None |}.

(** [{ issue_identifier, status }] *)
Definition setStatus (identifier status : string) : Tools.Input :=
  {| Tools.in_issue_identifier := Some identifier; Tools.in_status := Some status;
     Tools.in_priority := None; Tools.in_comment := None;
     Tools.in_label_name := None; Tools.in_title := None;
     Tools.in_description := None; Tools.in_due_date := None;
     Tools.in_project_name := None; Tools.in_subtasks := None;
     Tools.in_name := None; Tools.in_assignee_name := None |}.

(** [{ issue_identifier, label_name }] *)
Definition addLabel (identifier label : string) : Tools.Input :=
  {| Tools.in_issue_identifier := Some identifier; Tools.in_status := None;
     Tools.in_priority := None; Tools.in_comment := None;
     Tools.in_label_name := Some label; Tools.in_title := None;
     Tools.in_description := None; Tools.in_due_date := None;
     Tools.in_project_name := None; Tools.in_subtasks := None;
     Tools.in_name := None; Tools.in_assignee_name := None |}.

(** [{ title, project_name, status, subtasks: [{ title }] }] *)
Definition createWithReferences (project status : string) : Tools.Input :=
  {| Tools.in_issue_identifier := None; Tools.in_status := Some status;
     Tools.in_priority := None; Tools.in_comment := None;
     Tools.in_label_name := None; Tools.in_title := Some "Write the release notes";
     Tools.in_description := None; Tools.in_due_date := None;
     Tools.in_project_name := Some project;
     Tools.in_subtasks :=
       Some [ {| Tools.sub_title := Some "Collect the changes";
                 Tools.sub_description := None; Tools.sub_priority := None;
                 Tools.sub_due_date := None |} ];
     Tools.in_name := None; Tools.in_assignee_name := None |}.

(** A model that asks for a tool in every response. *)
Definition insistentModel (system : string) (history : list Agent.Message)
    : Exc Agent.Response :=
  inr {| Agent.stop_reason := "tool_use";
         Agent.content :=
           [ Agent.TextBlock "Moving YAK-1.";
             Agent.ToolUseBlock "toolu_01" "update_issue_status"
               (setStatus "YAK-1" "In Progress") ] |}.

Definition samplePrompt (ctx : Tools.Ctx) : string := "You are a task management agent.".

Definition agentWorld0 : Agent.World Tracker.T :=
  {| Agent.tracker := tracker0; Agent.kv := ∅ |}.

(** An issue whose stored identifier is not in upper case. *)
Definition yakMixed : Issue :=
  {| issue_id := "i-9"; identifier := "Yak-1"; title := "Mixed case";
     description := None; priority := 0; priorityLabel := "No priority";
     dueDate := None; state := Some Fixtures.todo; project := None;
     assignee := None; labels := []; url := ""; createdAt := ""; updatedAt := "" |}.

Definition trackerMixed : Tracker.T :=
  {| Tracker.t_issues := [yakMixed];
     Tracker.t_states := [Fixtures.todo; Fixtures.inProgress];
     Tracker.t_labels := []; Tracker.t_projects := []; Tracker.t_members := [];
     Tracker.t_team := Some "team-yak"; Tracker.t_comments := [];
     Tracker.t_next := 10 |}.

End Scenarios.

(** ** Notions the statements and proofs use *)

Module Notions.
Import JsString Json Effect Linear.

(** Two strings that disagree at a position both have: neither can be
    extended into the other. *)
Fixpoint diverge (u v : string) : bool :=
  match u, v with
  | String a u', String b v' => negb (Ascii.eqb a b) || diverge u' v'
  | _, _ => false
  end.

Definition allAscii : list ascii := ascii_of_nat <$> seq 0 256.

Definition headIsNot (a : ascii) (s : string) : bool :=
  match s with
  | String c _ => negb (Ascii.eqb c a)
  | EmptyString => false
  end.

Definition isDigit (c : ascii) : bool :=
  let n := nat_of_ascii c in ((48 <=? n) && (n <=? 57))%nat.

(** A continuation that cannot lengthen a number written in front of it. *)
Definition endsNumber (k : string) : Prop :=
  match k with
  | EmptyString => True
  | String c _ => isDigit c = false
  end.

(** The first character of a printed value tells its kind. *)
Definition startsValue (c : ascii) : bool :=
  isDigit c || Ascii.eqb c "-" || Ascii.eqb c "n" || Ascii.eqb c "t" || Ascii.eqb c "f"
  || Ascii.eqb c dquote || Ascii.eqb c "[" || Ascii.eqb c "{".

(** What [writeValue] puts after the first element of an array, of an
    object. *)
Definition arrayTail (k : string) (rest : list JVal) : string :=
  fold_right (λ v r, String "," (writeValue v r)) (String "]" k) rest.

Definition objectTail (k : string) (rest : list (string * JVal)) : string :=
  fold_right
    (λ kv r, String "," (quoteInto kv.1 (String ":" (writeValue kv.2 r))))
    (String "}" k) rest.

(** The text of [v], followed by anything that does not lengthen a number,
    determines [v] and what follows. *)
Definition InjectiveAt (v : JVal) : Prop :=
  ∀ v' k k', endsNumber k → endsNumber k' →
    writeValue v k = writeValue v' k' → v = v' ∧ k = k'.

(** The order a comparator sorts by. *)
Definition le {A : Type} (cmp : A → A → Z) (a b : A) : Prop := cmp a b <= 0.

(** Every identifier of the snapshot is in upper case. *)
Definition upperCased (l : list Issue) : Prop :=
  Forall (λ i, toUpperCase (identifier i) = identifier i) l.

(** The model asks for an operation in every response. *)
Definition AlwaysRequests
    (callClaude : string → list Agent.Message → Exc Agent.Response) : Prop :=
  ∀ system history,
    ∃ r, callClaude system history = inr r ∧ Agent.stop_reason r = "tool_use".

(** The state the loop is in between two iterations: its response is the
    model's answer to its messages. *)
Definition Answered
    (callClaude : string → list Agent.Message → Exc Agent.Response)
    (system : string) (st : Agent.LoopState) : Prop :=
  callClaude system (Agent.messages st) = inr (Agent.response st).

Definition hasId (labelId : string) (l : Label) : bool :=
  String.eqb (label_id l) labelId.

(** The update add-label sends: the issue's label ids and the new one. *)
Definition appendLabel (i : Issue) (label : Label) : Tools.IssueUpdateInput :=
  {| Tools.upd_stateId := None; Tools.upd_priority := None;
     Tools.upd_labelIds := Some ((label_id <$> labels i) ++ [label_id label]);
     Tools.upd_assigneeId := None; Tools.upd_dueDate := None |}.

(** In a snapshot of the tracker the typed identifier resolves to [i]. *)
Definition resolves (key teamKey typed : string) (t : Tracker.T) (i : Issue) : Prop :=
  Tools.findIssue (Some typed) (Tools.issues (Tracker.snapshot key teamKey t))
  = inr (Some i).

End Notions.

(** ** [worker/src/tools.js]: the tool catalog *)

Module ToolSchema.
Import JsString Json Effect Linear Tools.

(** One entry of [TOOL_DEFINITIONS]: the name, the properties of
    [input_schema] with their types, and [required].  The prose of the
    [description] fields and the item schema of [subtasks] are left out. *)
Record ToolDefinition := {
  tool_name : string;
  tool_properties : list (string * string);
  tool_required : list string }.

Definition TOOL_DEFINITIONS : list ToolDefinition :=
  [ {| tool_name := "update_issue_status";
       tool_properties := [("issue_identifier", "string"); ("status", "string")];
       tool_required := ["issue_identifier"; "status"] |};
    {| tool_name := "update_issue_priority";
       tool_properties := [("issue_identifier", "string"); ("priority", "number")];
       tool_required := ["issue_identifier"; "priority"] |};
    {| tool_name := "add_comment";
       tool_properties := [("issue_identifier", "string"); ("comment", "string")];
       tool_required := ["issue_identifier"; "comment"] |};
    {| tool_name := "add_label";
       tool_properties := [("issue_identifier", "string"); ("label_name", "string")];
       tool_required := ["issue_identifier"; "label_name"] |};
    {| tool_name := "create_issue";
       tool_properties :=
         [("title", "string"); ("description", "string"); ("project_name", "string");
          ("priority", "number"); ("status", "string"); ("due_date", "string");
          ("subtasks", "array")];
       tool_required := ["title"] |};
    {| tool_name := "create_project";
       tool_properties := [("name", "string"); ("description", "string")];
       tool_required := ["name"] |};
    {| tool_name := "assign_issue";
       tool_properties := [("issue_identifier", "string"); ("assignee_name", "string")];
       tool_required := ["issue_identifier"; "assignee_name"] |};
    {| tool_name := "update_due_date";
       tool_properties := [("issue_identifier", "string"); ("due_date", "string")];
       tool_required := ["issue_identifier"; "due_date"] |} ].

(** [key in input]: the parsed input has the property. *)
Definition hasParam (key : string) (input : Input) : bool :=
  if String.eqb key "issue_identifier" then bool_decide (is_Some (in_issue_identifier input))
  else if String.eqb key "status" then bool_decide (is_Some (in_status input))
  else if String.eqb key "priority" then bool_decide (is_Some (in_priority input))
  else if String.eqb key "comment" then bool_decide (is_Some (in_comment input))
  else if String.eqb key "label_name" then bool_decide (is_Some (in_label_name input))
  else if String.eqb key "title" then bool_decide (is_Some (in_title input))
  else if String.eqb key "description" then bool_decide (is_Some (in_description input))
  else if String.eqb key "due_date" then bool_decide (is_Some (in_due_date input))
  else if String.eqb key "project_name" then bool_decide (is_Some (in_project_name input))
  else if String.eqb key "subtasks" then bool_decide (is_Some (in_subtasks input))
  else if String.eqb key "name" then bool_decide (is_Some (in_name input))
  else if String.eqb key "assignee_name" then bool_decide (is_Some (in_assignee_name input))
  else false.

(** The input has every required property of the definition. *)
Definition conforms (d : ToolDefinition) (input : Input) : Prop :=
  ∀ key, key ∈ tool_required d → hasParam key input = true.

(** The tools that begin with [findIssue]. *)
Definition issueTools : list string :=
  [ "update_issue_status"; "update_issue_priority"; "add_comment"; "add_label";
    "assign_issue"; "update_due_date" ].

(** A tracker whose mutations never throw. *)
Definition Accepting {W : Type} (api : Api W) : Prop :=
  (∀ key issueId input w, ∃ r w', updateIssue api key issueId input w = (inr r, w'))
  ∧ (∀ key input w, ∃ r w', createLinearIssue api key input w = (inr r, w'))
  ∧ (∀ key issueId body w, ∃ r w', createComment api key issueId body w = (inr r, w'))
  ∧ (∀ key name teams descr w,
       ∃ r w', createLinearProject api key name teams descr w = (inr r, w'))
  ∧ (∀ key team name w, ∃ r w', createLabel api key team name w = (inr r, w')).

(** No issue of the snapshot has the upper-cased identifier. *)
Definition unknownIssue (typed : string) (ctx : Ctx) : Prop :=
  ∀ i, i ∈ issues ctx → identifier i ≠ toUpperCase typed.

(** The state a status names: the first with that name up to letter case. *)
Definition stateNamed (name : string) (l : list State) : option State :=
  List.find (λ s, String.eqb (toLowerCase (state_name s)) (toLowerCase name)) l.

(** The member a query names: the first whose name or display name
    contains it, up to letter case. *)
Definition memberNamed (query : string) (l : list Member) : option Member :=
  List.find (λ m, nameIncludes (member_name m) (toLowerCase query)
                  || nameIncludes (member_displayName m) (toLowerCase query)) l.

End ToolSchema.

(** ** A recording tracker

    A stand-in for the tracker that accepts every mutation, answers with a
    payload made from the request, and keeps the requests in the order they
    arrive. *)

Module Recorder.
Import JsString Json Effect Linear Tools.

Inductive Call :=
| UpdateIssue (issueId : string) (input : IssueUpdateInput)
| CreateIssue (input : IssueCreateInput)
| CreateComment (issueId : string) (body : option string)
| CreateProject (name : option string) (teams : list (option string))
    (descr : option string)
| CreateLabel (team name : option string).

Definition ordinal (log : list Call) : string := Tracker.showNat (length log).

Definition api : Api (list Call) :=
  {| updateIssue := λ key issueId input log,
       (inr {| u_id := issueId; u_identifier := issueId; u_title := "";
               u_dueDate := default None (upd_dueDate input);
               u_stateName := default "" (upd_stateId input);
               u_priority := default 0 (upd_priority input);
               u_priorityLabel := ""; u_assigneeName := upd_assigneeId input;
               u_labelNames := default [] (upd_labelIds input);
               u_projectName := None |},
        log ++ [UpdateIssue issueId input]);
     createLinearIssue := λ key input log,
       (inr {| c_id := "new-" +:+ ordinal log; c_identifier := "YAK-" +:+ ordinal log;
               c_title := default "" (new_title input); c_url := "";
               c_dueDate := new_dueDate input; c_stateName := "" |},
        log ++ [CreateIssue input]);
     createComment := λ key issueId body log,
       (inr {| comment_id := "comment-" +:+ ordinal log;
               comment_body := default "" body |},
        log ++ [CreateComment issueId body]);
     createLinearProject := λ key name teams descr log,
       (inr {| project_id := "project-" +:+ ordinal log;
               project_name := default "" name |},
        log ++ [CreateProject name teams descr]);
     createLabel := λ key team name log,
       (inr {| label_id := "label-" +:+ ordinal log; label_name := default "" name |},
        log ++ [CreateLabel team name]) |}.

End Recorder.

(** ** More sample data *)

Module Cases.
Import JsString Json Effect Linear Store Tools.

Definition subtask (title : option string) : Subtask :=
  {| sub_title := title; sub_description := None; sub_priority := None;
     sub_due_date := None |}.

(** [{ title, project_name, subtasks: [{title}, {}, {title}] }]: the second
    subtask has no title, which the tracker refuses. *)
Definition createWithBadSubtask : Input :=
  {| in_issue_identifier := None; in_status := None; in_priority := None;
     in_comment := None; in_label_name := None; in_title := Some "Launch";
     in_description := None; in_due_date := None; in_project_name := Some "portal";
     in_subtasks := Some [ subtask (Some "Draft"); subtask None; subtask (Some "Ship") ];
     in_name := None; in_assignee_name := None |}.

Definition createWithSubtasks : Input :=
  {| in_issue_identifier := None; in_status := None; in_priority := None;
     in_comment := None; in_label_name := None; in_title := Some "Launch";
     in_description := None; in_due_date := None; in_project_name := Some "portal";
     in_subtasks := Some [ subtask (Some "Draft"); subtask (Some "Ship") ];
     in_name := None; in_assignee_name := None |}.

End Cases.

(** ** Vocabulary for the agent's transcript and memory *)

Module Transcript.
Import JsString Json Effect Linear Store Agent.

(** The id of a [tool_use] block. *)
Definition toolUseId (b : Block) : option string :=
  match b with
  | ToolUseBlock id _ _ => Some id
  | TextBlock _ => None
  end.

(** What one iteration of the loop pushes onto [messages]. *)
Definition exchange (blocks : list Block) (results : list ToolResult) : list Message :=
  [ {| role := Assistant; body := Blocks blocks |};
    {| role := User; body := Results results |} ].

(** The results answer the tool calls of the blocks, one each, in order. *)
Definition Answers (round : list Block * list ToolResult) : Prop :=
  tool_use_id <$> round.2 = omap toolUseId round.1.

(** The two entries [saveHistory] appends. *)
Definition latest (userMsg assistantMsg : string) : list Turn :=
  [ {| turn_role := User; turn_content := userMsg |};
    {| turn_role := Assistant; turn_content := assistantMsg |} ].

(** A model that answers in plain text. *)
Definition plainModel (system : string) (history : list Message) : Exc Response :=
  inr {| stop_reason := "end_turn"; content := [ TextBlock "Nothing is due today." ] |}.

(** A model that asks for one status change and answers once it has seen a
    tool result. *)
Definition hasResults (m : Message) : bool :=
  match body m with
  | Results _ => true
  | _ => false
  end.

Definition onceModel (system : string) (history : list Message) : Exc Response :=
  if existsb hasResults history
  then inr {| stop_reason := "end_turn"; content := [ TextBlock "YAK-1 is in progress." ] |}
  else inr {| stop_reason := "tool_use";
              content :=
                [ ToolUseBlock "toolu_01" "update_issue_status"
                    (Scenarios.setStatus "YAK-1" "In Progress") ] |}.

(** A model whose second call fails. *)
Definition failingModel (system : string) (history : list Message) : Exc Response :=
  if existsb hasResults history
  then inl "Anthropic API 529: overloaded"
  else inr {| stop_reason := "tool_use";
              content :=
                [ ToolUseBlock "toolu_01" "update_issue_status"
                    (Scenarios.setStatus "YAK-1" "In Progress") ] |}.

End Transcript.

(** ** Vocabulary for the briefing schedule *)

Module Schedule.
Import Store Briefing.

(** What a run sends that finds the fingerprint unchanged and the count of
    unchanged runs at [count]. *)
Definition reminder (c : CacheRecord) (count : nat) : string :=
  if (STALE_DAYS_THRESHOLD <=? count + 1)%nat then escalationMessage else briefing c.

(** A generator that is out of reach. *)
Definition unreachable (issues : list Linear.Issue) : Effect.Exc string :=
  inl "Anthropic API 529: overloaded".

End Schedule.

(** ** [scripts/daily-briefing.js]: what [fetchLinearIssues] makes of an issue

    The SDK's issue is read as the record the worker's query returns: its
    [state], [project] and [assignee] resolve to the same objects or to
    nothing, [labels()] to the same nodes. *)

Module Enrich.
Import JsString Json Effect Linear Store Fingerprint Script.

(** [value || fallback] on a string that may be missing. *)
Definition orElse (value : option string) (fallback : string) : string :=
  match value with
  | Some s => if String.eqb s "" then fallback else s
  | None => fallback
  end.

(** The object pushed onto [enrichedIssues].  An unset due date is [null]
    in the worker's query result and [undefined] on the SDK's issue; both
    are [None] here, and the two printers tell them apart. *)
Definition enrich (i : Issue) : Enriched :=
  {| e_identifier := identifier i;
     e_title := title i;
     e_description := orElse (substring0 200 <$> description i) "";
     e_priority := priority i;
     e_priorityLabel := priorityLabel i;
     e_dueDate := dueDate i;
     e_status := orElse (state_name <$> state i) "Unknown";
     e_project := orElse (project_name <$> project i) "No Project";
     e_assignee := orElse (assignee_name <$> assignee i) "Unassigned";
     e_labels := label_name <$> labels i;
     e_url := url i |}.

Definition fetchLinearIssues (nodes : list Issue) : list Enriched := enrich <$> nodes.

(** The issue has a state, a project and an assignee, each with a name. *)
Definition Populated (i : Issue) : Prop :=
  truthy (state_name <$> state i) = true
  ∧ truthy (project_name <$> project i) = true
  ∧ truthy (assignee_name <$> assignee i) = true.

(** The issue has all of these and a due date. *)
Definition Complete (i : Issue) : Prop := Populated i ∧ is_Some (dueDate i).

(** What the job last wrote to [latest.txt]. *)
Definition latestText (w : Script.World) : option string :=
  files w !! "briefing/latest.txt".

Definition archived (today : string) (w : Script.World) : option string :=
  files w !! ("briefing/archive/" +:+ today +:+ ".txt").

(** The cache record the worker would read. *)
Definition workerRecord (w : Briefing.World) : option CacheRecord :=
  match Briefing.kv w !! Briefing.CACHE_KEY with
  | Some (KCache c) => Some c
  | _ => None
  end.

(** An issue with every relation filled in. *)
Definition yak3 : Issue :=
  {| issue_id := "i-3"; identifier := "YAK-3"; title := "Ship the portal";
     description := Some "Release checklist"; priority := 1;
     priorityLabel := "Urgent"; dueDate := Some "2026-02-01";
     state := Some Fixtures.inProgress; project := Some Fixtures.portal;
     assignee := Some {| assignee_id := "m-zach"; assignee_name := "Zach Ellis" |};
     labels := [Fixtures.urgent]; url := "https://linear.app/yak/issue/YAK-3";
     createdAt := "2026-01-08"; updatedAt := "2026-01-09" |}.

Definition scriptWorld (cache : option CacheRecord) : Script.World :=
  {| files := ∅; cacheFile := cache |}.

Definition sampleScriptBriefing (issues : list Enriched) : Exc string :=
  inr "TOP PRIORITY - YAK-3 ship the portal".

Definition sampleWorkerBriefing (issues : list Issue) : Exc string :=
  inr "TOP PRIORITY - YAK-3 ship the portal".

End Enrich.

(** ** [worker/src/telegram.js]: the Bot API helpers

    The requests to the Bot API are taken to be delivered: [fetch] appends
    the request to the log and does not throw. *)

Module Telegram.
Import JsString Json Effect.
#[local] Open Scope js_scope.

Definition API_BASE : string := "https://api.telegram.org/bot".

Definition LIMIT : nat := 4096.

(** [s.slice(0, n)] *)
Fixpoint sliceTo (n : nat) (s : string) : string :=
  match n, s with
  | S m, String c t => String c (sliceTo m t)
  | _, _ => ""
  end.

(** [s.slice(n)] *)
Fixpoint sliceFrom (n : nat) (s : string) : string :=
  match n, s with
  | S m, String _ t => sliceFrom m t
  | _, _ => s
  end.

(** [s.trimStart()], white space being the ASCII white space. *)
Fixpoint trimStart (s : string) : string :=
  match s with
  | String c t => if Ascii.is_space c then trimStart t else s
  | EmptyString => ""
  end.

(** [s.lastIndexOf(c, from)] for a one-character search string: the
    greatest index at most [from] that holds [c]; [None] is [-1]. *)
Fixpoint lastIndexOf (c : ascii) (from : nat) (s : string) {struct s} : option nat :=
  match s with
  | EmptyString => None
  | String a t =>
      let here := if Ascii.eqb a c then Some 0%nat else None in
      match from with
      | O => here
      | S from' =>
          match lastIndexOf c from' t with
          | Some i => Some (S i)
          | None => here
          end
      end
  end.

Definition newlineChar : ascii := "010"%char.

(** Where the loop of [splitMessage] cuts: at the last newline of the first
    [maxLen + 1] code units unless that lies in the first half. *)
Definition cut (maxLen : nat) (remaining : string) : nat :=
  match lastIndexOf newlineChar maxLen remaining with
  | Some splitAt => if (2 * splitAt <? maxLen)%nat then maxLen else splitAt
  | None => maxLen
  end.

(** The [while] loop of [splitMessage]; [fuel] bounds its unfolding and
    [None] means that it ran out. *)
Fixpoint splitLoop (fuel maxLen : nat) (remaining : string) : option (list string) :=
  if (String.length remaining =? 0)%nat then Some []
  else if (String.length remaining <=? maxLen)%nat then Some [remaining]
  else
    match fuel with
    | O => None
    | S fuel' =>
        let splitAt := cut maxLen remaining in
        cons (sliceTo splitAt remaining)
          <$> splitLoop fuel' maxLen (trimStart (sliceFrom splitAt remaining))
    end.

Definition splitMessage (fuel : nat) (text : string) (maxLen : nat)
    : option (list string) :=
  if (String.length text <=? maxLen)%nat then Some [text]
  else splitLoop fuel maxLen text.

(** A request to the Bot API: the URL and the JSON body. *)
Record Request := { url : string; body : string }.

Definition fetch (request : Request) : M (list Request) unit :=
  λ log, (inr tt, log ++ [request]).

Definition messageRequest (token chatId chunk : string) : Request :=
  {| url := API_BASE +:+ token +:+ "/sendMessage";
     body := stringify (JObj [ ("chat_id", JStr chatId); ("text", JStr chunk) ]) |}.

(** [sendMessage]: one request per chunk.  The loop of [splitMessage] is
    given as many rounds as the text has code units. *)
Definition sendMessage (token chatId text : string) : M (list Request) (option unit) :=
  match splitMessage (String.length text) text LIMIT with
  | Some chunks =>
      (forEach (λ chunk, fetch (messageRequest token chatId chunk)) chunks ;;;
       ret (Some tt))
  | None => ret None
  end.

Definition sendTyping (token chatId : string) : M (list Request) unit :=
  fetch {| url := API_BASE +:+ token +:+ "/sendChatAction";
           body := stringify (JObj [ ("chat_id", JStr chatId);
                                     ("action", JStr "typing") ]) |}.

(** An incoming update, as far as [parseUpdate] reads it.  [chat.id] is an
    integer; [String] prints it in decimal. *)
Record Chat := { chat_id : Z }.
Record Sender := { first_name : option string }.
Record Incoming := {
  msg_text : option string;
  msg_chat : option Chat;
  msg_message_id : option Z;
  msg_from : option Sender }.
Record Body := { message : option Incoming; edited_message : option Incoming }.

Record Update := {
  chatId : string;
  text : string;
  messageId : option Z;
  firstName : string }.

Definition parseUpdate (body : Body) : Exc (option Update) :=
  let message :=
    match message body with
    | Some m => Some m
    | None => edited_message body
    end in
  match message with
  | None => inr None
  | Some m =>
      match msg_text m with
      | None => inr None
      | Some t =>
          if String.eqb t "" then inr None
          else
            match msg_chat m with
            | None => inl (typeError "id")
            | Some chat =>
                inr (Some {| chatId := showInt (chat_id chat);
                             text := t;
                             messageId := msg_message_id m;
                             firstName :=
                               match msg_from m ≫= first_name with
                               | Some n => if String.eqb n "" then "Unknown" else n
                               | None => "Unknown"
                               end |})
            end
      end
  end.

(** *** Vocabulary for statements about chunks *)

(** The text without its white space. *)
Fixpoint solid (s : string) : string :=
  match s with
  | EmptyString => ""
  | String c t => if Ascii.is_space c then solid t else String c (solid t)
  end.

(** The chunks one after another. *)
Definition joined (chunks : list string) : string := foldr String.append "" chunks.

Definition fits (maxLen : nat) (chunk : string) : Prop :=
  (1 ≤ String.length chunk ≤ maxLen)%nat.

(** Thirteen code units, a newline after the third. *)
Definition sampleText : string := "one" +:+ String newlineChar "two three".

End Telegram.

(** ** [worker/src/index.js]: the webhook, the message handler, the commands *)

Module Worker.
Import JsString Json Effect Linear Store Telegram.
#[local] Open Scope js_scope.

(** What the handlers read of [env] besides the keys and the store. *)
Record Env := {
  WEBHOOK_SECRET : option string;
  TELEGRAM_CHAT_ID : option string }.

Record HttpRequest := {
  pathname : string;
  http_method : string;
  origin : string;
  secretToken : option string;      (* [headers.get(...)]: [null] when absent *)
  json : Exc Body }.                (* [await request.json()] *)

Record HttpResponse := { status : nat; content : string }.

Definition okResponse : HttpResponse := {| status := 200; content := "OK" |}.

Definition nl : string := String "010"%char "".

(** The [fetch] handler: the response, and the update handed to
    [execCtx.waitUntil(processMessage(update, env))] if any. *)
Definition fetch (request : HttpRequest) (env : Env)
    : Exc (HttpResponse * option Update) :=
  if String.eqb (pathname request) "/webhook" && String.eqb (http_method request) "POST"
  then
    (* Verify secret token *)
    if truthy (WEBHOOK_SECRET env)
       && negb (bool_decide (secretToken request = WEBHOOK_SECRET env))
    then inr ({| status := 401; content := "Unauthorized" |}, None)
    else
      match json request with
      | inl e => inl e
      | inr body =>
          match parseUpdate body with
          | inl e => inl e
          | inr None => inr (okResponse, None)
          | inr (Some update) =>
              (* Security: only respond to the configured chat *)
              if negb (bool_decide (Some (chatId update) = TELEGRAM_CHAT_ID env))
              then inr (okResponse, None)
              else inr (okResponse, Some update)
          end
      end
  else if String.eqb (pathname request) "/" && String.eqb (http_method request) "GET"
  then
    inr ({| status := 200;
            content := "YakDev Agent is running." +:+ nl +:+ nl
                       +:+ "Set your Telegram webhook to: POST "
                       +:+ origin request +:+ "/webhook" |}, None)
  else inr ({| status := 404; content := "Not found" |}, None).

(** The worker's world: the tracker, the store, the texts handed to
    [sendMessage] and the number of typing indicators shown. *)
Record World (W : Type) := {
  tracker : W;
  kv : KV;
  sent : list string;
  typing : nat }.
Arguments tracker {W}.
Arguments kv {W}.
Arguments sent {W}.
Arguments typing {W}.

Definition sendMessage {W : Type} (text : string) : M (World W) unit :=
  λ w, (inr tt, {| tracker := tracker w; kv := kv w; sent := sent w ++ [text];
                   typing := typing w |}).

Definition sendTyping {W : Type} : M (World W) unit :=
  λ w, (inr tt, {| tracker := tracker w; kv := kv w; sent := sent w;
                   typing := S (typing w) |}).

(** [env.KV.delete(key)] *)
Definition kvDelete {W : Type} (key : string) : M (World W) unit :=
  λ w, (inr tt, {| tracker := tracker w; kv := delete key (kv w); sent := sent w;
                   typing := typing w |}).

(** Run the agent, which sees the tracker and the store. *)
Definition onAgent {W A : Type} (m : M (Agent.World W) A) : M (World W) A :=
  λ w, match m {| Agent.tracker := tracker w; Agent.kv := kv w |} with
       | (r, a) => (r, {| tracker := Agent.tracker a; kv := Agent.kv a;
                          sent := sent w; typing := typing w |})
       end.

(** Run the briefing, which sees the store and sends messages. *)
Definition onBriefing {W A : Type} (m : M Briefing.World A) : M (World W) A :=
  λ w, match m {| Briefing.kv := kv w; Briefing.sent := sent w |} with
       | (r, b) => (r, {| tracker := tracker w; kv := Briefing.kv b;
                          sent := Briefing.sent b; typing := typing w |})
       end.

(** [text.split(" ")[0]] *)
Fixpoint firstWord (s : string) : string :=
  match s with
  | EmptyString => ""
  | String c t => if Ascii.eqb c " " then "" else String c (firstWord t)
  end.

Definition commandOf (text : string) : string := toLowerCase (firstWord text).

Definition startText (chatId : string) : string :=
  join nl
    [ "YakDev Agent is live."; "";
      "Your chat ID: " +:+ chatId; "";
      "Just text me like normal:";
      "- " +:+ Tools.quoted "Finished the auth flow, YAK-42 is done";
      "- " +:+ Tools.quoted "Block YAK-15, waiting on client assets";
      "- " +:+ Tools.quoted "Create a new task: set up staging environment";
      "- " +:+ Tools.quoted "What's on my plate?"; "";
      "I'll handle the Linear updates for you." ].

Definition helpText : string :=
  join nl
    [ "COMMANDS:";
      "/briefing — Get your daily briefing now";
      "/clear — Reset conversation history";
      "/help — This message";
      "";
      "Or just text me naturally:";
      "- " +:+ Tools.quoted "Mark YAK-42 as done";
      "- " +:+ Tools.quoted "Add a blocked label to YAK-15";
      "- " +:+ Tools.quoted "Create a task: fix login bug, high priority";
      "- " +:+ Tools.quoted "Assign YAK-20 to Zach";
      "- " +:+ Tools.quoted "Create a new project called Client Portal";
      "- " +:+ Tools.quoted "What should I work on today?" ].

Definition briefingNotice : string := "Generating your briefing...".

Definition clearedNotice : string := "Conversation history cleared. Fresh start.".

Definition unknownCommand (cmd : string) : string :=
  "Unknown command: " +:+ cmd +:+ nl +:+ nl
  +:+ "Try /help for available commands, or just text me naturally.".

Definition somethingBroke (message : string) : string :=
  "Something broke: " +:+ message +:+ nl +:+ nl
  +:+ "Try again or check the Worker logs.".

Section Worker.
Context {W : Type} (api : Tools.Api W).
Context (callClaude : string → list Agent.Message → Exc Agent.Response).
Context (buildSystemPrompt : Tools.Ctx → string).
Context (localeCompare : string → string → Z) (sha256Hex : string → string).
Context (generateBriefing : list Issue → Exc string).
(** The six queries of [processMessage], awaited together and packed into
    [ctx], and the query of [handleDailyBriefing]: they read the tracker and
    may throw.  The date is the day of the run. *)
Context (fetchContext : W → Exc Tools.Ctx).
Context (fetchActiveIssues : W → Exc (list Issue)).
Context (today : string).

Definition handleDailyBriefing : M (World W) unit :=
  λ w, onBriefing
         (Briefing.handleDailyBriefing localeCompare sha256Hex generateBriefing
            (fetchActiveIssues (tracker w)) today) w.

(** The cron handler. *)
Definition scheduled : M (World W) unit := handleDailyBriefing.

Definition handleCommand (update : Update) : M (World W) unit :=
  let cmd := commandOf (text update) in
  if String.eqb cmd "/start" then sendMessage (startText (chatId update))
  else if String.eqb cmd "/briefing" then
    (sendMessage briefingNotice ;;; handleDailyBriefing)
  else if String.eqb cmd "/clear" then
    (kvDelete Agent.HISTORY_KEY ;;; sendMessage clearedNotice)
  else if String.eqb cmd "/help" then sendMessage helpText
  else sendMessage (unknownCommand cmd).

(** [processMessage]; [None] means that the fuel of the agent's loop ran
    out. *)
Definition processMessage (fuel : nat) (update : Update) : M (World W) (option unit) :=
  tryCatch
    (if String.prefix "/" (text update) then
       (handleCommand update ;;; ret (Some tt))
     else
       (* Show typing indicator while we work *)
       (sendTyping ;;;
        let* ctx := (λ w, lift (fetchContext (tracker w)) w) in
        (* Run the Claude agent *)
        let* response :=
          onAgent (Agent.runAgent api callClaude buildSystemPrompt fuel
                     (text update) ctx) in
        match response with
        | None => ret None
        | Some response => (sendMessage response ;;; ret (Some tt))
        end))
    (λ message, (sendMessage (somethingBroke message) ;;; ret (Some tt))).

End Worker.

(** *** Vocabulary for statements about the worker *)

Definition agentView {W : Type} (w : World W) : Agent.World W :=
  {| Agent.tracker := tracker w; Agent.kv := kv w |}.

Definition isCommand (update : Update) : Prop := String.prefix "/" (text update) = true.

(** A webhook request carrying [body] under the secret [token]. *)
Definition webhook (token : option string) (body : Body) : HttpRequest :=
  {| pathname := "/webhook"; http_method := "POST";
     origin := "https://yakdev-agent.example.workers.dev";
     secretToken := token; json := inr body |}.

Definition textMessage (chat : Z) (t : string) : Body :=
  {| message := Some {| msg_text := Some t; msg_chat := Some {| chat_id := chat |};
                        msg_message_id := Some 7; msg_from := None |};
     edited_message := None |}.

Definition sampleEnv : Env :=
  {| WEBHOOK_SECRET := Some "s3cret"; TELEGRAM_CHAT_ID := Some "4242" |}.

Definition incoming (t : string) : Update :=
  {| chatId := "4242"; text := t; messageId := Some 7; firstName := "Unknown" |}.

Definition world0 : World Tracker.T :=
  {| tracker := Scenarios.tracker0; kv := ∅; sent := []; typing := 0 |}.

Definition snapshotOf (t : Tracker.T) : Exc Tools.Ctx :=
  inr (Tracker.snapshot "lin_api_key" "YAK" t).

Definition activeIssues (t : Tracker.T) : Exc (list Issue) :=
  inr (List.filter Tracker.isActive (Tracker.t_issues t)).

(** The store after a scheduled run over the two sample issues. *)
Definition cachedWorld0 : World Tracker.T :=
  {| tracker := Scenarios.tracker0;
     kv := {[ Briefing.CACHE_KEY := KCache Scenarios.cachedRecord ]};
     sent := []; typing := 0 |}.

End Worker.

(** ** Conditions under which statements about snapshots hold *)

Module Conditions.
Import JsString Json Effect Linear Fingerprint.

(** Two issues whose identifiers the collation does not tell apart agree on
    every tracked field.  This holds when the identifiers of the snapshot
    are pairwise distinct and the collation tells distinct identifiers
    apart. *)
Definition tiesAgree (localeCompare : string → string → Z) (l : list Issue) : Prop :=
  ∀ i j, i ∈ l → j ∈ l →
    localeCompare (identifier i) (identifier j) = 0 → trackedSame i j.

End Conditions.

(** ** A tracker that keeps label names unique

    The reference tracker accepts a second label of a name it already has.
    This one refuses it, the other mutations being the reference ones. *)

Module StrictTracker.
Import JsString Json Effect Linear Tools Tracker.

Definition strictCreateLabel (key : string) (team name : option string) : M T Label :=
  λ t, match name with
       | Some n =>
           if existsb (λ l, String.eqb (label_name l) n) (t_labels t)
           then (inl "Linear: A label with this name already exists", t)
           else refCreateLabel key team name t
       | None => refCreateLabel key team name t
       end.

Definition strictApi : Api T :=
  {| updateIssue := refUpdateIssue;
     createLinearIssue := refCreateIssue;
     createComment := refCreateComment;
     createLinearProject := refCreateProject;
     createLabel := strictCreateLabel |}.

(** The labels of the tracker that have the given name. *)
Definition named (name : string) (t : T) : list Label :=
  List.filter (λ l, String.eqb (label_name l) name) (t_labels t).

End StrictTracker.

(** * Facts *)

(** ** Strings *)

Module StringFacts.
Import JsString Notions.

#[local] Arguments String.append : simpl nomatch.

Lemma append_cancel_l (p a b : string) : p +:+ a = p +:+ b → a = b.
Proof. induction p as [|c p IH]; simpl; [done|]. intros [= H]. auto. Qed.

Lemma append_assoc' (a b c : string) : (a +:+ b) +:+ c = a +:+ (b +:+ c).
Proof. induction a as [|x a IH]; simpl; [done|]. by rewrite IH. Qed.

Lemma diverge_app (u v r s : string) : diverge u v = true → u +:+ r ≠ v +:+ s.
Proof.
  revert v. induction u as [|a u IH]; intros [|b v]; simpl; try done.
  intros H [= Hab Huv]. subst b. rewrite Ascii.eqb_refl in H. simpl in H.
  by apply (IH v).
Qed.

Lemma allAscii_complete (c : ascii) : c ∈ allAscii.
Proof.
  unfold allAscii. apply list_elem_of_fmap. exists (nat_of_ascii c). split.
  - by rewrite ascii_nat_embedding.
  - apply elem_of_seq. pose proof (nat_ascii_bounded c). lia.
Qed.

Lemma forall_ascii (P : ascii → bool) :
  forallb P allAscii = true → ∀ c, P c = true.
Proof.
  intros H c. rewrite forallb_forall in H. apply H.
  apply list_elem_of_In, allAscii_complete.
Qed.

End StringFacts.

(** ** [JSON.stringify] is injective *)

Module JsonFacts.
Import JsString Json Notions StringFacts.

#[local] Arguments String.append : simpl nomatch.

Lemma JVal_nested_ind (P : JVal → Prop) :
  P JNull → (∀ b, P (JBool b)) → (∀ z, P (JNum z)) → (∀ s, P (JStr s)) →
  (∀ items, Forall P items → P (JArr items)) →
  (∀ fields, Forall (λ kv, P kv.2) fields → P (JObj fields)) →
  ∀ v, P v.
Proof.
  intros Hnull Hbool Hnum Hstr Harr Hobj. fix IH 1.
  intros [ | b | z | s | items | fields ];
    [ exact Hnull | apply Hbool | apply Hnum | apply Hstr | apply Harr | apply Hobj ].
  - induction items as [|x items IHitems]; constructor; [apply IH | exact IHitems].
  - induction fields as [|[key x] fields IHfields]; constructor; [apply IH | exact IHfields].
Qed.

(** *** Strings *)

Lemma escapeChar_prefix_free (c1 c2 : ascii) (r1 r2 : string) :
  escapeChar c1 +:+ r1 = escapeChar c2 +:+ r2 → c1 = c2 ∧ r1 = r2.
Proof.
  intros H.
  assert (Hc : Ascii.eqb c1 c2 || diverge (escapeChar c1) (escapeChar c2) = true).
  { clear H. revert c2.
    apply (forall_ascii (λ c2, Ascii.eqb c1 c2 || diverge (escapeChar c1) (escapeChar c2))).
    revert c1.
    apply (forall_ascii (λ c1,
      forallb (λ c2, Ascii.eqb c1 c2 || diverge (escapeChar c1) (escapeChar c2)) allAscii)).
    vm_compute. reflexivity. }
  apply orb_true_iff in Hc as [Hc|Hc].
  - apply Ascii.eqb_eq in Hc. subst c2. split; [done|]. by apply append_cancel_l in H.
  - by apply (diverge_app _ _ r1 r2) in Hc.
Qed.

Lemma escapeChar_head (c : ascii) : headIsNot dquote (escapeChar c) = true.
Proof. revert c. apply forall_ascii. vm_compute. reflexivity. Qed.

Lemma escapeInto_inj (s1 s2 k1 k2 : string) :
  escapeInto s1 (String dquote k1) = escapeInto s2 (String dquote k2) →
  s1 = s2 ∧ k1 = k2.
Proof.
  revert s2. induction s1 as [|c1 s1 IH]; intros [|c2 s2]; simpl.
  - intros [= ->]. done.
  - intros H. pose proof (escapeChar_head c2) as Hh.
    destruct (escapeChar c2) as [|a e]; [done|]. simpl in H, Hh.
    injection H as <- _. by rewrite Ascii.eqb_refl in Hh.
  - intros H. pose proof (escapeChar_head c1) as Hh.
    destruct (escapeChar c1) as [|a e]; [done|]. simpl in H, Hh.
    injection H as -> _. by rewrite Ascii.eqb_refl in Hh.
  - intros H. apply escapeChar_prefix_free in H as [-> H].
    apply IH in H as [-> ->]. done.
Qed.

Lemma quoteInto_inj (s1 s2 k1 k2 : string) :
  quoteInto s1 k1 = quoteInto s2 k2 → s1 = s2 ∧ k1 = k2.
Proof. unfold quoteInto. intros [= H]. by apply escapeInto_inj. Qed.

(** *** Numbers *)

Lemma string_of_uint_inj (d d' : Decimal.uint) (k k' : string) :
  endsNumber k → endsNumber k' →
  NilEmpty.string_of_uint d +:+ k = NilEmpty.string_of_uint d' +:+ k' →
  d = d' ∧ k = k'.
Proof.
  intros Hk Hk'. revert d'.
  induction d as [|d IH|d IH|d IH|d IH|d IH|d IH|d IH|d IH|d IH|d IH];
    intros [|d'|d'|d'|d'|d'|d'|d'|d'|d'|d']; simpl; intros H;
    try (injection H as H; apply IH in H as [-> ->]; done);
    try discriminate H;
    try (subst k; done); try (subst k'; done).
Qed.

Lemma string_of_uint_head (d : Decimal.uint) (k : string) :
  d ≠ Decimal.Nil →
  ∃ c r, NilEmpty.string_of_uint d +:+ k = String c r ∧ isDigit c = true.
Proof. destruct d; [done|..]; intros _; simpl; eauto. Qed.

Lemma to_int_cases (z : Z) :
  ∃ d, d ≠ Decimal.Nil ∧ (Z.to_int z = Decimal.Pos d ∨ Z.to_int z = Decimal.Neg d).
Proof.
  destruct z as [|p|p]; simpl.
  - exists (Decimal.D0 Decimal.Nil). split; [done|by left].
  - exists (Pos.to_uint p). split; [apply Unsigned.to_uint_nonnil|by left].
  - exists (Pos.to_uint p). split; [apply Unsigned.to_uint_nonnil|by right].
Qed.

Lemma showInt_head (z : Z) (k : string) :
  ∃ c r, showInt z +:+ k = String c r ∧ (isDigit c || Ascii.eqb c "-") = true.
Proof.
  unfold showInt. destruct (to_int_cases z) as (d & Hd & [-> | ->]); simpl.
  - destruct (string_of_uint_head d k Hd) as (c & r & -> & Hc).
    exists c, r. by rewrite Hc.
  - eauto.
Qed.

Lemma showInt_inj (z z' : Z) (k k' : string) :
  endsNumber k → endsNumber k' →
  showInt z +:+ k = showInt z' +:+ k' → z = z' ∧ k = k'.
Proof.
  intros Hk Hk' H. unfold showInt in H.
  assert (Z.to_int z = Z.to_int z' ∧ k = k') as [Hz ->].
  { destruct (to_int_cases z) as (d & Hd & [E | E]),
      (to_int_cases z') as (d' & Hd' & [E' | E']); rewrite E, E' in H |- *; simpl in H.
    - apply string_of_uint_inj in H as [-> ->]; done.
    - destruct (string_of_uint_head d k Hd) as (c & r & Hc & Hdig).
      rewrite Hc in H. injection H as -> _. done.
    - destruct (string_of_uint_head d' k' Hd') as (c & r & Hc & Hdig).
      rewrite Hc in H. injection H as <- _. done.
    - injection H as H. apply string_of_uint_inj in H as [-> ->]; done. }
  split; [|done]. by rewrite <- (DecimalZ.of_to z), <- (DecimalZ.of_to z'), Hz.
Qed.

End JsonFacts.

Module JsonInjective.
Import JsString Json Notions StringFacts JsonFacts.

#[local] Arguments String.append : simpl nomatch.

Lemma writeValue_head (v : JVal) (k : string) :
  ∃ c r, writeValue v k = String c r ∧ startsValue c = true.
Proof.
  destruct v as [ | [|] | z | s | items | fields ]; simpl; eauto.
  destruct (showInt_head z k) as (c & r & -> & Hc). exists c, r. split; [done|].
  unfold startsValue. apply orb_true_iff in Hc as [-> | ->]; simpl; [done|].
  by rewrite orb_true_r.
Qed.

Lemma arrayTail_ends (k : string) rest : endsNumber (arrayTail k rest).
Proof. destruct rest; done. Qed.

Lemma objectTail_ends (k : string) rest : endsNumber (objectTail k rest).
Proof. destruct rest; done. Qed.

Lemma arrayTail_inj (rest rest' : list JVal) (k k' : string) :
  Forall InjectiveAt rest →
  arrayTail k rest = arrayTail k' rest' → rest = rest' ∧ k = k'.
Proof.
  intros Hall. revert rest'.
  induction Hall as [|v rest Hv _ IH]; intros [|v' rest']; simpl;
    intros H; try discriminate H.
  - by injection H as ->.
  - injection H as H.
    apply Hv in H as [-> H]; [|apply arrayTail_ends..].
    apply IH in H as [-> ->]. done.
Qed.

Lemma objectTail_inj (rest rest' : list (string * JVal)) (k k' : string) :
  Forall (λ kv, InjectiveAt kv.2) rest →
  objectTail k rest = objectTail k' rest' → rest = rest' ∧ k = k'.
Proof.
  intros Hall. revert rest'.
  induction Hall as [|[key v] rest Hv _ IH]; intros [|[key' v'] rest']; simpl;
    intros H; try discriminate H.
  - by injection H as ->.
  - injection H as H. apply escapeInto_inj in H as [-> H]. injection H as H.
    simpl in Hv. apply Hv in H as [-> H]; [|apply objectTail_ends..].
    apply IH in H as [-> ->]. done.
Qed.

(** Cross cases: a value of one kind never prints like one of another. *)
Ltac head_clash H :=
  match type of H with
  | _ = writeValue ?v ?k =>
      let c := fresh "c" in let r := fresh "r" in
      let E := fresh "E" in let Hc := fresh "Hc" in
      destruct (writeValue_head v k) as (c & r & E & Hc);
      rewrite E in H; injection H as <- _; discriminate Hc
  | showInt ?z +:+ ?k = _ =>
      let c := fresh "c" in let r := fresh "r" in
      let E := fresh "E" in let Hc := fresh "Hc" in
      destruct (showInt_head z k) as (c & r & E & Hc);
      rewrite E in H; injection H as -> _; discriminate Hc
  | _ = showInt ?z +:+ ?k =>
      let c := fresh "c" in let r := fresh "r" in
      let E := fresh "E" in let Hc := fresh "Hc" in
      destruct (showInt_head z k) as (c & r & E & Hc);
      rewrite E in H; injection H as <- _; discriminate Hc
  end.

Lemma writeValue_inj (v : JVal) : InjectiveAt v.
Proof.
  induction v as [ | b | z | s | items IH | fields IH ] using JVal_nested_ind;
    intros v' k k' Hk Hk' H.
  - destruct v' as [ | [|] | z' | s' | items' | fields' ]; simpl in H;
      try discriminate H; try head_clash H.
    by injection H as ->.
  - destruct b, v' as [ | [|] | z' | s' | items' | fields' ]; simpl in H;
      try discriminate H; try head_clash H;
      by injection H as ->.
  - destruct v' as [ | [|] | z' | s' | items' | fields' ]; simpl in H;
      try head_clash H.
    apply showInt_inj in H as [-> ->]; done.
  - destruct v' as [ | [|] | z' | s' | items' | fields' ]; simpl in H;
      try discriminate H; try head_clash H.
    apply quoteInto_inj in H as [-> ->]. done.
  - destruct v' as [ | [|] | z' | s' | items' | fields' ]; simpl in H;
      try discriminate H; try head_clash H.
    injection H as H.
    destruct IH as [|v0 rest Hv0 Hrest], items' as [|v0' rest'].
    + by injection H as ->.
    + head_clash H.
    + symmetry in H. head_clash H.
    + fold (arrayTail k rest) in H. fold (arrayTail k' rest') in H.
      apply Hv0 in H as [-> H]; [|apply arrayTail_ends..].
      apply arrayTail_inj in H as [-> ->]; done.
  - destruct v' as [ | [|] | z' | s' | items' | fields' ]; simpl in H;
      try discriminate H; try head_clash H.
    injection H as H.
    destruct IH as [|[key0 v0] rest Hv0 Hrest], fields' as [|[key0' v0'] rest'].
    + by injection H as ->.
    + discriminate H.
    + discriminate H.
    + fold (objectTail k rest) in H. fold (objectTail k' rest') in H.
      first [apply quoteInto_inj in H as [-> H] | apply escapeInto_inj in H as [-> H]].
      injection H as H. simpl in Hv0.
      apply Hv0 in H as [-> H]; [|apply objectTail_ends..].
      apply objectTail_inj in H as [-> ->]; done.
Qed.

(** [JSON.stringify] never maps two values to one text. *)
Lemma stringify_inj (v v' : JVal) : stringify v = stringify v' → v = v'.
Proof. intros H. by apply writeValue_inj in H as [-> _]. Qed.

End JsonInjective.

(** ** [Array.prototype.sort] *)

Module SortFacts.
Import JsString JsArray.

Section Sorting.
Context {A : Type} (cmp : A → A → Z).

#[local] Abbreviation le := (Notions.le cmp).

Lemma insertSorted_perm (x : A) (l : list A) : insertSorted cmp x l ≡ₚ x :: l.
Proof.
  induction l as [|y ys IH]; simpl; [done|].
  destruct (cmp x y <=? 0); [done|]. rewrite IH. apply Permutation_swap.
Qed.

Lemma sort_perm (l : list A) : sort cmp l ≡ₚ l.
Proof.
  induction l as [|x t IH]; simpl; [done|].
  rewrite insertSorted_perm. by rewrite IH.
Qed.

Lemma sort_length (l : list A) : length (sort cmp l) = length l.
Proof. by rewrite sort_perm. Qed.

Context (Hcmp : Consistent cmp).

Lemma le_total (a b : A) : le a b ∨ le b a.
Proof.
  unfold le. destruct (Z_le_gt_dec (cmp a b) 0) as [H|H]; [by left|right].
  pose proof (cmp_flip _ Hcmp a b). lia.
Qed.

Lemma insertSorted_sorted (x : A) (l : list A) :
  StronglySorted le l → StronglySorted le (insertSorted cmp x l).
Proof.
  induction 1 as [|y ys Hys IH Hy]; simpl.
  - repeat constructor.
  - destruct (Z.leb_spec (cmp x y) 0) as [Hxy|Hxy].
    + constructor; [by constructor|]. constructor; [done|].
      eapply Forall_impl; [exact Hy|]. intros z Hz.
      eapply (cmp_trans _ Hcmp); eauto.
    + constructor; [done|].
      rewrite insertSorted_perm. constructor; [|done].
      destruct (le_total y x) as [?|Hle]; [done|]. unfold le in Hle. lia.
Qed.

Lemma sort_sorted (l : list A) : StronglySorted le (sort cmp l).
Proof.
  induction l as [|x t IH]; simpl; [constructor|]. by apply insertSorted_sorted.
Qed.

(** The result does not depend on the order of the input when no two
    distinct elements compare equal. *)
Lemma sort_permutation_invariant (l l' : list A) :
  l ≡ₚ l' →
  (∀ x y, x ∈ l → y ∈ l → cmp x y <= 0 → cmp y x <= 0 → x = y) →
  sort cmp l = sort cmp l'.
Proof.
  intros Hperm Hsep.
  apply (StronglySorted_unique_strong (Notions.le cmp)); try apply sort_sorted.
  - intros x y Hx Hy. rewrite sort_perm in Hx. rewrite sort_perm, <- Hperm in Hy.
    by apply Hsep.
  - by rewrite !sort_perm.
Qed.

End Sorting.

(** The code-unit order on strings. *)

Lemma ascii_compare_refl (a : ascii) : Ascii.compare a a = Eq.
Proof. unfold Ascii.compare. apply N.compare_refl. Qed.

Lemma string_compare_refl (s : string) : String.compare s s = Eq.
Proof. induction s as [|a s IH]; simpl; [done|]. by rewrite ascii_compare_refl. Qed.

Lemma string_compare_le_trans (a b c : string) :
  String.compare a b ≠ Gt → String.compare b c ≠ Gt → String.compare a c ≠ Gt.
Proof.
  revert b c. induction a as [|x a IH]; intros [|y b] [|z c]; simpl; try done.
  unfold Ascii.compare.
  destruct (N.compare_spec (N_of_ascii x) (N_of_ascii y)) as [Hxy|Hxy|Hxy];
    destruct (N.compare_spec (N_of_ascii y) (N_of_ascii z)) as [Hyz|Hyz|Hyz];
    try done; intros H1 H2.
  - rewrite Hxy, Hyz, N.compare_refl. eauto.
  - rewrite Hxy. by apply N.compare_lt_iff in Hyz as ->.
  - rewrite <- Hyz. by apply N.compare_lt_iff in Hxy as ->.
  - assert (N_of_ascii x < N_of_ascii z)%N as Hxz by lia.
    by apply N.compare_lt_iff in Hxz as ->.
Qed.

Lemma codeUnitCompare_le (a b : string) :
  codeUnitCompare a b <= 0 ↔ String.compare a b ≠ Gt.
Proof. unfold codeUnitCompare. destruct (String.compare a b); split; try done; lia. Qed.

Lemma codeUnitCompare_consistent : Consistent codeUnitCompare.
Proof.
  split.
  - intros a b. unfold codeUnitCompare. rewrite (String.compare_antisym b a).
    destruct (String.compare a b); simpl; lia.
  - intros a b. unfold codeUnitCompare. rewrite (String.compare_antisym b a).
    destruct (String.compare a b); simpl; lia.
  - intros a b c. rewrite !codeUnitCompare_le. apply string_compare_le_trans.
Qed.

Lemma codeUnitCompare_antisym (a b : string) :
  codeUnitCompare a b <= 0 → codeUnitCompare b a <= 0 → a = b.
Proof.
  rewrite !codeUnitCompare_le, (String.compare_antisym b a).
  destruct (String.compare a b) eqn:E; simpl; try done.
  intros _ _. by apply String.compare_eq_iff.
Qed.

(** The default sort of an array of strings depends only on what strings
    it holds. *)
Lemma sort_strings_perm (l l' : list string) :
  l ≡ₚ l' → sort codeUnitCompare l = sort codeUnitCompare l'.
Proof.
  intros H. apply sort_permutation_invariant; [apply codeUnitCompare_consistent|done|].
  intros x y _ _. apply codeUnitCompare_antisym.
Qed.

End SortFacts.

(** ** The fingerprint *)

Module FingerprintFacts.
Import JsString JsArray Json Linear Fingerprint SortFacts JsonInjective.

Lemma nullable_inj (a b : option string) : nullable a = nullable b → a = b.
Proof. destruct a, b; simpl; congruence. Qed.

#[local] Instance JStr_Inj : Inj (=) (=) JStr.
Proof. by intros ?? [=]. Qed.

Lemma toJson_inj (n n' : Normalized) : toJson n = toJson n' → n = n'.
Proof.
  destruct n as [i s p a pr l d], n' as [i' s' p' a' pr' l' d'].
  unfold toJson, object; simpl.
  destruct s, a, pr, s', a', pr'; simpl; intros H; simplify_eq.
  all: match goal with
       | Hd : nullable _ = nullable _ |- _ => apply nullable_inj in Hd; by subst
       end.
Qed.

#[local] Instance toJson_Inj : Inj (=) (=) toJson.
Proof. intros ??. apply toJson_inj. Qed.

Section Hash.
Context (localeCompare : string → string → Z) (sha256Hex : string → string).

(** Equal serializations come from equal normalized arrays. *)
Lemma serialized_inj (l l' : list Issue) :
  serialized localeCompare l = serialized localeCompare l' →
  normalized localeCompare l = normalized localeCompare l'.
Proof.
  unfold serialized. intros H%stringify_inj. injection H as H.
  by apply (inj (fmap toJson)) in H.
Qed.

Lemma normalize_relabelled (i j : Issue) : relabelled i j → normalize i = normalize j.
Proof.
  intros [Hperm ->]. unfold normalize; simpl. f_equal.
  apply sort_strings_perm. by rewrite Hperm.
Qed.

Lemma normalize_sameIssues (l l' : list Issue) :
  sameIssues l l' → normalize <$> l ≡ₚ normalize <$> l'.
Proof.
  intros (mid & Hperm & Hrel). rewrite Hperm.
  replace (normalize <$> l') with (normalize <$> mid); [done|].
  clear Hperm. induction Hrel as [|i j mid l' Hij _ IH]; csimpl; [done|].
  f_equal; [by apply normalize_relabelled|done].
Qed.

Lemma normalize_trackedSame (i i' : Issue) : trackedSame i i' → normalize i = normalize i'.
Proof.
  unfold trackedSame, statusName, assigneeName, projectName, labelNames, normalize.
  intros (-> & -> & -> & -> & -> & Hl & ->). f_equal. by apply sort_strings_perm.
Qed.

Lemma normalize_trackedDiffers (i i' : Issue) :
  trackedDiffers i i' → normalize i ≠ normalize i'.
Proof.
  unfold trackedDiffers, statusName, assigneeName, projectName, labelNames, normalize.
  intros Hd [= Hid Hst Hpri Has Hpr Hl Hdue].
  destruct Hd as [?|[?|[?|[?|[Hnp|?]]]]]; try done.
  apply Hnp. by rewrite <- (sort_perm codeUnitCompare (label_name <$> labels i)),
    Hl, sort_perm.
Qed.

End Hash.

End FingerprintFacts.

(** * Properties from the specification *)

Module FingerprintClaims.
Import JsString JsArray Json Linear Fingerprint SortFacts JsonInjective FingerprintFacts.

(** C3. Fingerprint determinism, under its condition: for a consistent
    comparator and a list of issues in which any two issues whose
    identifiers compare equal agree on every tracked field, listing the
    issues in another order, and the labels of any issue in another order,
    gives the same hash: labels are sorted, the normalized issues are
    sorted by identifier, and only then serialized and hashed. *)
Theorem hashIssues_order_independent
    (localeCompare : string → string → Z) (sha256Hex : string → string)
    (issues issues' : list Issue) :
  Consistent localeCompare →
  Conditions.tiesAgree localeCompare issues →
  sameIssues issues issues' →
  hashIssues localeCompare sha256Hex issues
  = hashIssues localeCompare sha256Hex issues'.
Proof.
  intros Hcmp Hties Hsame. unfold hashIssues, serialized, normalized.
  enough (sort (byId localeCompare) (normalize <$> issues)
          = sort (byId localeCompare) (normalize <$> issues')) as -> by done.
  apply sort_permutation_invariant; [|by apply normalize_sameIssues|].
  { split; intros *; unfold byId; [apply Hcmp..|]. apply (cmp_trans _ Hcmp). }
  intros x y (i & -> & Hi)%list_elem_of_fmap (j & -> & Hj)%list_elem_of_fmap.
  unfold byId; simpl. intros Hxy Hyx.
  apply normalize_trackedSame, Hties; [done..|].
  destruct (Z.lt_trichotomy (localeCompare (identifier i) (identifier j)) 0)
    as [Hlt|[Heq|Hgt]]; [|done|lia].
  apply (cmp_flop _ Hcmp) in Hlt. lia.
Qed.

Lemma hashIssues_order_independent_witness :
  hashIssues Fixtures.sampleCollation Fixtures.sampleDigest
    [Fixtures.yak1; Fixtures.yak2]
  = hashIssues Fixtures.sampleCollation Fixtures.sampleDigest
    [Fixtures.yak2; Fixtures.yak1Relabelled].
Proof.
  apply hashIssues_order_independent.
  - apply codeUnitCompare_consistent.
  - intros i j Hi Hj.
    apply list_elem_of_In in Hi. apply list_elem_of_In in Hj. simpl in Hi, Hj.
    destruct Hi as [<-|[<-|[]]], Hj as [<-|[<-|[]]];
      try (intros _; by repeat split); vm_compute; congruence.
  - exists [Fixtures.yak2; Fixtures.yak1]. split.
    + apply Permutation_swap.
    + repeat constructor.
Defined.

(** Without the condition the order of the list shows: the sort is stable,
    so two issues under one identifier are serialized in the order given.
    The two lists below are permutations of each other, the comparator is
    consistent, and the serialized texts differ; the hashes are equal only
    if the digest collides on them. *)
Lemma hashIssues_order_counterexample :
  [Fixtures.yak1; Fixtures.yak1Started] ≡ₚ [Fixtures.yak1Started; Fixtures.yak1]
  ∧ Consistent codeUnitCompare
  ∧ identifier Fixtures.yak1 = identifier Fixtures.yak1Started
  ∧ serialized codeUnitCompare [Fixtures.yak1; Fixtures.yak1Started]
    ≠ serialized codeUnitCompare [Fixtures.yak1Started; Fixtures.yak1]
  ∧ hashIssues codeUnitCompare Fixtures.sampleDigest [Fixtures.yak1; Fixtures.yak1Started]
    ≠ hashIssues codeUnitCompare Fixtures.sampleDigest [Fixtures.yak1Started; Fixtures.yak1]
  ∧ (∀ sha256Hex : string → string,
       hashIssues codeUnitCompare sha256Hex [Fixtures.yak1; Fixtures.yak1Started]
       = hashIssues codeUnitCompare sha256Hex [Fixtures.yak1Started; Fixtures.yak1] →
       ∃ x y, x ≠ y ∧ sha256Hex x = sha256Hex y).
Proof.
  assert (Hne : serialized codeUnitCompare [Fixtures.yak1; Fixtures.yak1Started]
                ≠ serialized codeUnitCompare [Fixtures.yak1Started; Fixtures.yak1]).
  { vm_compute. discriminate. }
  split; [apply Permutation_swap|]. split; [apply codeUnitCompare_consistent|].
  split; [reflexivity|]. split; [exact Hne|]. split.
  - vm_compute. discriminate.
  - intros sha256Hex Hh. by eexists _, _.
Qed.

(** C9. Fingerprint sensitivity: when one issue of the snapshot changes in
    a tracked field (status name, priority, assignee name, project name,
    label set, due date) the serialized normalized array that is hashed
    changes, so the fingerprint changes unless the digest collides on the
    two texts; when it changes only in untracked fields, such as the
    description, the fingerprint stays the same. *)
Theorem hashIssues_sensitivity
    (localeCompare : string → string → Z) (sha256Hex : string → string)
    (before after : list Issue) (i i' : Issue) :
  let old := before ++ i :: after in
  let new := before ++ i' :: after in
  (trackedDiffers i i' →
     serialized localeCompare old ≠ serialized localeCompare new
     ∧ (hashIssues localeCompare sha256Hex old = hashIssues localeCompare sha256Hex new →
        ∃ x y, x ≠ y ∧ sha256Hex x = sha256Hex y))
  ∧ (trackedSame i i' →
     hashIssues localeCompare sha256Hex old = hashIssues localeCompare sha256Hex new).
Proof.
  intros old new. split.
  - intros Hd.
    assert (Hne : serialized localeCompare old ≠ serialized localeCompare new).
    { intros H%serialized_inj. unfold normalized in H.
      assert (Hp : normalize <$> old ≡ₚ normalize <$> new).
      { by rewrite <- (sort_perm (byId localeCompare) (normalize <$> old)), H, sort_perm. }
      unfold old, new in Hp. rewrite !fmap_app, !fmap_cons in Hp.
      apply Permutation_app_inv_l in Hp.
      apply (Permutation_app_inv_r _ [normalize i] [normalize i']) in Hp.
      apply Permutation_length_1 in Hp.
      by apply (normalize_trackedDiffers i i'). }
    split; [done|]. intros Hh. by exists (serialized localeCompare old),
      (serialized localeCompare new).
  - intros Hs. unfold hashIssues, serialized, normalized, old, new.
    by rewrite !fmap_app, !fmap_cons, (normalize_trackedSame i i' Hs).
Qed.

Lemma hashIssues_sensitivity_witness :
  (serialized Fixtures.sampleCollation [Fixtures.yak2; Fixtures.yak1]
   ≠ serialized Fixtures.sampleCollation [Fixtures.yak2; Fixtures.yak1Started])
  ∧ hashIssues Fixtures.sampleCollation Fixtures.sampleDigest
      [Fixtures.yak2; Fixtures.yak1]
    = hashIssues Fixtures.sampleCollation Fixtures.sampleDigest
      [Fixtures.yak2; Fixtures.yak1Reworded].
Proof.
  split.
  - apply (hashIssues_sensitivity Fixtures.sampleCollation Fixtures.sampleDigest
             [Fixtures.yak2] [] Fixtures.yak1 Fixtures.yak1Started).
    left. vm_compute. congruence.
  - apply (hashIssues_sensitivity Fixtures.sampleCollation Fixtures.sampleDigest
             [Fixtures.yak2] [] Fixtures.yak1 Fixtures.yak1Reworded).
    repeat split; reflexivity.
Defined.

End FingerprintClaims.

(** ** Conversation memory *)

Module MemoryClaims.
Import JsString JsArray Effect Store Agent.

Lemma sliceLast_length {A : Type} (n : nat) (l : list A) :
  (length (sliceLast n l) ≤ n)%nat.
Proof. unfold sliceLast. rewrite length_drop. lia. Qed.

Lemma sliceLast_short {A : Type} (n : nat) (l : list A) :
  (length l ≤ n)%nat → sliceLast n l = l.
Proof. intros H. unfold sliceLast. by replace (length l - n)%nat with 0%nat by lia. Qed.

(** Trimming before appending loses nothing the next trim would keep. *)
Lemma sliceLast_app_idem {A : Type} (n : nat) (l x : list A) :
  sliceLast n (sliceLast n l ++ x) = sliceLast n (l ++ x).
Proof.
  unfold sliceLast. set (k := (length l - n)%nat).
  rewrite !length_app, length_drop.
  replace (l ++ x) with (take k l ++ (drop k l ++ x))
    by (by rewrite (assoc_L (++)), take_drop).
  rewrite (drop_app_ge (take k l)); rewrite length_take; [|lia].
  f_equal. lia.
Qed.

(** What came before does not matter once enough has been appended. *)
Lemma sliceLast_app_long {A : Type} (n : nat) (l x : list A) :
  (n ≤ length x)%nat → sliceLast n (l ++ x) = sliceLast n x.
Proof.
  intros H. unfold sliceLast. rewrite length_app.
  rewrite drop_app_ge by lia. f_equal. lia.
Qed.

Lemma turnsOf_length (pairs : list (string * string)) :
  length (turnsOf pairs) = (2 * length pairs)%nat.
Proof.
  unfold turnsOf. induction pairs as [|p ps IH]; csimpl; [done|].
  rewrite IH. lia.
Qed.

Lemma turnsOf_drop (k : nat) (pairs : list (string * string)) :
  drop (2 * k) (turnsOf pairs) = turnsOf (drop k pairs).
Proof.
  revert pairs. induction k as [|k IH]; intros pairs; [done|].
  destruct pairs as [|p ps]; [done|].
  replace (2 * S k)%nat with (S (S (2 * k))) by lia. csimpl. apply IH.
Qed.

Lemma turnsOf_sliceLast (n : nat) (pairs : list (string * string)) :
  sliceLast (2 * n) (turnsOf pairs) = turnsOf (sliceLast n pairs).
Proof.
  unfold sliceLast. rewrite turnsOf_length, <- turnsOf_drop. f_equal. lia.
Qed.

Lemma turnsOf_app (ps qs : list (string * string)) :
  turnsOf (ps ++ qs) = turnsOf ps ++ turnsOf qs.
Proof. unfold turnsOf. apply bind_app. Qed.

Section Memory.
Context {W : Type}.

Lemma remember_stored (u a : string) (w : World W) :
  storedHistory (remember u a w).2 = trimmed (storedHistory w) u a.
Proof.
  unfold remember, bind, getHistory, saveHistory, storedHistory.
  destruct (kv w !! HISTORY_KEY) as [[stored| |]|]; simpl;
    by rewrite lookup_insert_eq.
Qed.

Lemma rememberAll_stored (pairs : list (string * string)) (w : World W) :
  pairs ≠ [] →
  storedHistory (rememberAll pairs w)
  = sliceLast (MAX_HISTORY_PAIRS * 2) (storedHistory w ++ turnsOf pairs).
Proof.
  revert w. induction pairs as [|[u a] ps IH]; intros w Hne; [done|].
  unfold rememberAll; simpl. fold (rememberAll ps (remember u a w).2).
  destruct ps as [|q qs].
  - simpl. by rewrite remember_stored.
  - rewrite IH by done. rewrite remember_stored. unfold trimmed.
    rewrite sliceLast_app_idem, <- (assoc_L (++)). done.
Qed.

End Memory.

(** C7. Memory bounding: after every append of a user turn and an
    assistant turn the stored conversation has at most 2 * MAX_HISTORY_PAIRS
    = 40 entries, whatever the store held before; and once MAX_HISTORY_PAIRS
    exchanges or more have been appended, what is stored is exactly the most
    recent MAX_HISTORY_PAIRS of them, oldest first. *)
Theorem memory_bounded {W : Type} (w : World W) :
  (∀ u a,
     (length (storedHistory (remember u a w).2) ≤ 2 * MAX_HISTORY_PAIRS)%nat
     ∧ (length (storedHistory (remember u a w).2) ≤ 40)%nat)
  ∧ (∀ pairs,
       (MAX_HISTORY_PAIRS ≤ length pairs)%nat →
       storedHistory (rememberAll pairs w)
       = turnsOf (sliceLast MAX_HISTORY_PAIRS pairs)
       ∧ length (sliceLast MAX_HISTORY_PAIRS pairs) = MAX_HISTORY_PAIRS).
Proof.
  split.
  - intros u a. rewrite remember_stored. unfold trimmed.
    pose proof (sliceLast_length (MAX_HISTORY_PAIRS * 2)
      (storedHistory w ++ [ {| turn_role := User; turn_content := u |};
                            {| turn_role := Assistant; turn_content := a |} ])).
    unfold MAX_HISTORY_PAIRS in *. lia.
  - intros pairs Hlen. split.
    + rewrite rememberAll_stored.
      * rewrite sliceLast_app_long.
        -- exact (turnsOf_sliceLast MAX_HISTORY_PAIRS pairs).
        -- rewrite turnsOf_length. lia.
      * intros ->. unfold MAX_HISTORY_PAIRS in Hlen. simpl in Hlen. lia.
    + unfold sliceLast. rewrite length_drop. lia.
Qed.

End MemoryClaims.

Lemma memory_bounded_witness :
  Agent.storedHistory (Agent.rememberAll Scenarios.exchanges Scenarios.emptyAgentWorld)
  = Agent.turnsOf (JsArray.sliceLast Agent.MAX_HISTORY_PAIRS Scenarios.exchanges)
  ∧ length (JsArray.sliceLast Agent.MAX_HISTORY_PAIRS Scenarios.exchanges)
    = Agent.MAX_HISTORY_PAIRS.
Proof.
  apply (proj2 (MemoryClaims.memory_bounded Scenarios.emptyAgentWorld)).
  vm_compute. lia.
Defined.

(** ** The scheduled briefing *)

Module BriefingClaims.
Import JsString JsArray Json Effect Linear Store Briefing.

Section Run.
Context (localeCompare : string → string → Z) (sha256Hex : string → string).
Context (generateBriefing : list Issue → Exc string).

#[local] Abbreviation run :=
  (handleDailyBriefing localeCompare sha256Hex generateBriefing).
#[local] Abbreviation fingerprint := (hashIssues localeCompare sha256Hex).

(** One run whose fingerprint equals the stored one. *)
Lemma run_unchanged (issues : list Issue) (today : string) (c : CacheRecord) (w : World) :
  issues ≠ [] →
  kv w !! CACHE_KEY = Some (KCache c) →
  hash c = Some (fingerprint issues) →
  let n := (default 0 (unchangedDays c) + 1)%nat in
  run (inr issues) today w
  = (inr tt,
     {| kv := <[CACHE_KEY := KCache {| hash := hash c; briefing := briefing c;
                                       unchangedDays := Some n; lastRun := today |}]> (kv w);
        sent := sent w ++ [if (STALE_DAYS_THRESHOLD <=? n)%nat
                           then escalationMessage else briefing c] |}).
Proof.
  intros Hne Hkv Hhash n. unfold handleDailyBriefing.
  destruct issues as [|i rest]; [done|].
  remember (fingerprint (i :: rest)) as h eqn:Eh.
  unfold bind, readCache, kvPut, sendMessage. simpl. rewrite Hkv.
  rewrite bool_decide_eq_true_2 by done. by rewrite Hhash.
Qed.

(** One run with no record, or a record of another fingerprint. *)
Lemma run_changed (issues : list Issue) (today text : string) (w : World) :
  issues ≠ [] →
  (∀ c, kv w !! CACHE_KEY = Some (KCache c) → hash c ≠ Some (fingerprint issues)) →
  generateBriefing issues = inr text →
  run (inr issues) today w
  = (inr tt,
     {| kv := <[CACHE_KEY := KCache {| hash := Some (fingerprint issues);
                                       briefing := text;
                                       unchangedDays := Some 0%nat;
                                       lastRun := today |}]> (kv w);
        sent := sent w ++ [text] |}).
Proof.
  intros Hne Hkv Hgen. unfold handleDailyBriefing.
  destruct issues as [|i rest]; [done|].
  remember (fingerprint (i :: rest)) as h eqn:Eh.
  unfold bind, readCache, kvPut, sendMessage, lift. simpl.
  destruct (kv w !! CACHE_KEY) as [[turns|c|]|] eqn:E; rewrite ?Hgen; try done.
  by rewrite bool_decide_eq_false_2 by (by apply Hkv).
Qed.

End Run.

(** C4. Empty-snapshot carve-out: a scheduled run over a snapshot of zero
    issues hands exactly the fixed message to [sendMessage] and leaves the
    store, the cache record included, as it found it. *)
Theorem empty_snapshot_bypasses_cache
    (localeCompare : string → string → Z) (sha256Hex : string → string)
    (generateBriefing : list Issue → Exc string) (today : string) (w : World) :
  handleDailyBriefing localeCompare sha256Hex generateBriefing (inr []) today w
  = (inr tt,
     {| kv := kv w;
        sent := sent w ++
          ["No active issues in Linear. Either you're crushing it or something is wrong."] |}).
Proof. reflexivity. Qed.

(** C1. Cache escalation: with the threshold at 3 and a stored record whose
    fingerprint equals the snapshot's, the third of three consecutive runs
    over that snapshot sends the fixed escalation string, and the record in
    the store still holds the briefing text it held before the runs. *)
Theorem third_unchanged_run_escalates
    (localeCompare : string → string → Z) (sha256Hex : string → string)
    (generateBriefing : list Issue → Exc string)
    (issues : list Issue) (today : nat → string) (c : CacheRecord) (w : World) :
  issues ≠ [] →
  kv w !! CACHE_KEY = Some (KCache c) →
  hash c = Some (hashIssues localeCompare sha256Hex issues) →
  let w3 := runs localeCompare sha256Hex generateBriefing 3 issues today w in
  STALE_DAYS_THRESHOLD = 3%nat
  ∧ (∃ first second,
       sent w3 = sent w ++ [first; second; "SNAP OUT OF IT, LOCK IN!"])
  ∧ kv w3 !! CACHE_KEY
    = Some (KCache {| hash := hash c; briefing := briefing c;
                      unchangedDays := Some (default 0 (unchangedDays c) + 3)%nat;
                      lastRun := today 2%nat |}).
Proof.
  intros Hne Hkv Hhash w3. split; [done|].
  unfold w3, runs.
  rewrite (run_unchanged _ _ _ issues (today 0%nat) c w Hne Hkv Hhash). cbn [snd].
  erewrite (run_unchanged _ _ _ issues (today 1%nat)); [|done|apply lookup_insert_eq|done].
  cbn [snd kv sent hash briefing unchangedDays].
  erewrite (run_unchanged _ _ _ issues (today 2%nat)); [|done|apply lookup_insert_eq|exact Hhash].
  cbn [snd kv sent hash briefing unchangedDays from_option id].
  split.
  - assert (H3 : (STALE_DAYS_THRESHOLD <=? default 0 (unchangedDays c) + 1 + 1 + 1)%nat
                 = true) by (apply Nat.leb_le; unfold STALE_DAYS_THRESHOLD; lia).
    rewrite H3. eexists _, _. by rewrite <- !(assoc_L (++)).
  - rewrite lookup_insert_eq. do 4 f_equal. simpl. lia.
Qed.

Lemma third_unchanged_run_escalates_witness :
  let w3 := runs Fixtures.sampleCollation Fixtures.sampleDigest Scenarios.sampleBriefing
              3 [Fixtures.yak1; Fixtures.yak2] Scenarios.dates Scenarios.cachedWorld in
  STALE_DAYS_THRESHOLD = 3%nat
  ∧ (∃ first second,
       sent w3 = sent Scenarios.cachedWorld ++ [first; second; "SNAP OUT OF IT, LOCK IN!"])
  ∧ kv w3 !! CACHE_KEY
    = Some (KCache {| hash := hash Scenarios.cachedRecord;
                      briefing := briefing Scenarios.cachedRecord;
                      unchangedDays := Some 3%nat;
                      lastRun := Scenarios.dates 2%nat |}).
Proof.
  apply (third_unchanged_run_escalates Fixtures.sampleCollation Fixtures.sampleDigest
           Scenarios.sampleBriefing [Fixtures.yak1; Fixtures.yak2] Scenarios.dates
           Scenarios.cachedRecord Scenarios.cachedWorld).
  - discriminate.
  - reflexivity.
  - reflexivity.
Defined.

(** From an empty store the first run generates the briefing, the second
    and third reuse it, and the escalation comes with the fourth run: the
    third one without a change. *)
Lemma escalation_counts_unchanged_runs
    (localeCompare : string → string → Z) (sha256Hex : string → string)
    (generateBriefing : list Issue → Exc string)
    (issues : list Issue) (today : nat → string) (text : string) (w : World) :
  issues ≠ [] →
  kv w !! CACHE_KEY = None →
  generateBriefing issues = inr text →
  sent (runs localeCompare sha256Hex generateBriefing 4 issues today w)
  = sent w ++ [text; text; text; escalationMessage]
  ∧ ∃ c, kv (runs localeCompare sha256Hex generateBriefing 4 issues today w) !! CACHE_KEY
         = Some (KCache c) ∧ briefing c = text.
Proof.
  intros Hne Hkv Hgen. unfold runs.
  rewrite (run_changed _ _ _ issues (today 0%nat) text w Hne); [|congruence|done].
  cbn [snd].
  erewrite (run_unchanged _ _ _ issues (today 1%nat)); [|done|apply lookup_insert_eq|done].
  cbn [snd kv sent hash briefing unchangedDays].
  erewrite (run_unchanged _ _ _ issues (today 2%nat)); [|done|apply lookup_insert_eq|done].
  cbn [snd kv sent hash briefing unchangedDays].
  erewrite (run_unchanged _ _ _ issues (today 3%nat)); [|done|apply lookup_insert_eq|done].
  cbn [snd kv sent hash briefing unchangedDays].
  split.
  - by rewrite <- !(assoc_L (++)).
  - eexists. by rewrite lookup_insert_eq.
Qed.

End BriefingClaims.

(** ** Effects *)

Module EffectFacts.
Import Effect.

Lemma forEach_succeeds {W A B : Type} (f : A → M W B) (xs : list A) (w : W) :
  (∀ x w0, ∃ y w1, f x w0 = (inr y, w1)) →
  ∃ ys w', forEach f xs w = (inr ys, w').
Proof.
  intros Hf. revert w. induction xs as [|x rest IH]; intros w; simpl.
  - by eexists _, _.
  - unfold bind. destruct (Hf x w) as (y & w1 & ->).
    destruct (IH w1) as (ys & w2 & ->). by eexists _, _.
Qed.

Lemma findExc_pure {A : Type} (p : A → bool) (l : list A) :
  findExc (λ x, inr (p x)) l = inr (List.find p l).
Proof. induction l as [|x rest IH]; simpl; [done|]. by destruct (p x). Qed.

End EffectFacts.

(** ** The operation executor *)

Module ToolsFacts.
Import JsString JsArray Json Effect Linear Tools.

Ltac settle :=
  first
    [ left; unfold isSuccess, object; simpl; eexists; reflexivity
    | right; unfold isFailure, issueNotFound; eexists; reflexivity ].

Ltac crack H :=
  unfold bind, lift, ret, method in H; simpl in H;
  repeat (case_match; simplify_eq; simpl in * ); try settle.

Section Results.
Context {W : Type} (api : Api W) (input : Input) (ctx : Ctx).

Lemma handleUpdateStatus_result w r w' :
  handleUpdateStatus api input ctx w = (inr r, w') → Structured r.
Proof. unfold handleUpdateStatus, Structured. intros H. crack H. Qed.

Lemma handleUpdatePriority_result w r w' :
  handleUpdatePriority api input ctx w = (inr r, w') → Structured r.
Proof. unfold handleUpdatePriority, Structured. intros H. crack H. Qed.

Lemma handleAddComment_result w r w' :
  handleAddComment api input ctx w = (inr r, w') → Structured r.
Proof. unfold handleAddComment, Structured. intros H. crack H. Qed.

Lemma handleAddLabel_result w r w' :
  handleAddLabel api input ctx w = (inr r, w') → Structured r.
Proof. unfold handleAddLabel, Structured. intros H. crack H. Qed.

Lemma handleCreateIssue_result w r w' :
  handleCreateIssue api input ctx w = (inr r, w') → Structured r.
Proof. unfold handleCreateIssue, Structured. intros H. crack H. Qed.

Lemma handleCreateProject_result w r w' :
  handleCreateProject api input ctx w = (inr r, w') → Structured r.
Proof. unfold handleCreateProject, Structured. intros H. crack H. Qed.

Lemma handleAssignIssue_result w r w' :
  handleAssignIssue api input ctx w = (inr r, w') → Structured r.
Proof. unfold handleAssignIssue, Structured. intros H. crack H. Qed.

Lemma handleUpdateDueDate_result w r w' :
  handleUpdateDueDate api input ctx w = (inr r, w') → Structured r.
Proof. unfold handleUpdateDueDate, Structured. intros H. crack H. Qed.

End Results.

Lemma dispatch_unknown {W : Type} (api : Api W) toolName input ctx :
  toolName ∉ registry →
  dispatch api toolName input ctx = ret (errorResult ("Unknown tool: " +:+ toolName)).
Proof.
  intros Hn. unfold dispatch.
  repeat match goal with
         | |- context [String.eqb toolName ?s] =>
             destruct (String.eqb_spec toolName s) as [->|_];
             [exfalso; apply Hn; unfold registry; set_solver|]
         end.
  done.
Qed.

Lemma executeTool_returns {W : Type} (api : Api W) toolName input ctx w :
  ∃ r w', executeTool api toolName input ctx w = (inr r, w').
Proof.
  unfold executeTool, tryCatch.
  destruct (dispatch api toolName input ctx w) as [[message|r] w1]; by eexists _, _.
Qed.

Lemma dispatch_result {W : Type} (api : Api W) toolName input ctx w r w' :
  dispatch api toolName input ctx w = (inr r, w') → Structured r.
Proof.
  unfold dispatch. repeat case_match;
    eauto using handleUpdateStatus_result, handleUpdatePriority_result,
      handleAddComment_result, handleAddLabel_result, handleCreateIssue_result,
      handleCreateProject_result, handleAssignIssue_result, handleUpdateDueDate_result.
  intros [= <- _]. right. by eexists.
Qed.

End ToolsFacts.

Module ToolsClaims.
Import JsString JsArray Json Effect Linear Tools Notions ToolsFacts.

(** C6. Executor totality: for every tool name and every input
    [executeTool] returns a result object, a success payload or an object
    with an error string, and never throws; a name outside the registry
    gives the Unknown tool error and touches nothing; whatever a handler or
    a mutation throws is caught and returned as an error result that carries
    the message. *)
Theorem executeTool_total {W : Type} (api : Api W)
    (toolName : string) (input : Input) (ctx : Ctx) (w : W) :
  ∃ r w',
    executeTool api toolName input ctx w = (inr r, w')
    ∧ Structured r
    ∧ (toolName ∉ registry →
       r = errorResult ("Unknown tool: " +:+ toolName) ∧ w' = w)
    ∧ (∀ message w1,
         dispatch api toolName input ctx w = (inl message, w1) →
         r = errorResult ("Tool " +:+ quoted toolName +:+ " failed: " +:+ message)
         ∧ w' = w1).
Proof.
  unfold executeTool, tryCatch.
  destruct (dispatch api toolName input ctx w) as [[message|r] w1] eqn:E.
  - eexists _, _. split; [reflexivity|]. split; [right; by eexists|]. split.
    + intros Hn. rewrite (dispatch_unknown api _ _ _ Hn) in E. discriminate E.
    + intros ?? [= <- <-]. done.
  - exists r, w1. split; [reflexivity|]. split; [by eapply dispatch_result|]. split.
    + intros Hn. rewrite (dispatch_unknown api _ _ _ Hn) in E.
      by injection E as <- <-.
    + intros ?? [=].
Qed.

Lemma executeTool_total_witness :
  (∃ r w',
     executeTool Tracker.refApi "frobnicate" Scenarios.noInput Scenarios.ctx0
       Scenarios.tracker0 = (inr r, w')
     ∧ r = errorResult "Unknown tool: frobnicate" ∧ w' = Scenarios.tracker0)
  ∧ (∃ r w',
       executeTool Tracker.refApi "update_issue_status" Scenarios.noInput Scenarios.ctx0
         Scenarios.tracker0 = (inr r, w')
       ∧ r = errorResult ("Tool " +:+ quoted "update_issue_status" +:+ " failed: "
                          +:+ typeError "toUpperCase")).
Proof.
  split.
  - destruct (executeTool_total Tracker.refApi "frobnicate" Scenarios.noInput
                Scenarios.ctx0 Scenarios.tracker0) as (r & w' & E & _ & Hunknown & _).
    exists r, w'. split; [exact E|]. apply Hunknown. unfold registry. intros H.
    repeat (apply elem_of_cons in H as [H|H]; [discriminate H|]).
    by apply elem_of_nil in H.
  - destruct (executeTool_total Tracker.refApi "update_issue_status" Scenarios.noInput
                Scenarios.ctx0 Scenarios.tracker0) as (r & w' & E & _ & _ & Hcaught).
    exists r, w'. split; [exact E|].
    apply (Hcaught (typeError "toUpperCase") Scenarios.tracker0). reflexivity.
Defined.

(** *** Issue lookup *)

(** What [findIssue] does in general: it upper-cases the input and looks
    for an issue whose identifier is exactly that. *)
Lemma findIssue_spec (typed : string) (l : list Issue) :
  (∃ i, findIssue (Some typed) l = inr (Some i))
  ↔ ∃ i, i ∈ l ∧ identifier i = toUpperCase typed.
Proof.
  unfold findIssue, method, find. split.
  - intros (i & [= H]). apply find_some in H as [Hin Heq].
    exists i. split; [by apply list_elem_of_In|]. by apply String.eqb_eq.
  - intros (i & Hin & Heq).
    destruct (List.find _ l) as [j|] eqn:E; [by exists j|].
    apply list_elem_of_In in Hin. eapply find_none in E; [|exact Hin].
    simpl in E. rewrite Heq, String.eqb_refl in E. discriminate E.
Qed.

(** C2, amended. Issue resolution over a snapshot whose identifiers are in
    upper case: an identifier string resolves if and only if some issue of
    the snapshot has an identifier equal to it up to letter case; when none
    has, set-status returns a Failure that cites the identifier as it was
    typed; when one has, the status names a workflow state and the update
    mutation returns, set-status returns a Success that reports the state
    the tracker answered with. *)
Theorem issue_lookup_on_upper_case_snapshots {W : Type} (api : Api W)
    (input : Input) (ctx : Ctx) (typed : string) (w : W) :
  in_issue_identifier input = Some typed →
  upperCased (issues ctx) →
  ((∃ i, findIssue (Some typed) (issues ctx) = inr (Some i))
   ↔ ∃ i, i ∈ issues ctx ∧ eqNoCase (identifier i) typed)
  ∧ ((¬ ∃ i, i ∈ issues ctx ∧ eqNoCase (identifier i) typed) →
     executeTool api "update_issue_status" input ctx w
     = (inr (errorResult ("Issue " +:+ typed +:+ " not found in active issues.")), w))
  ∧ (∀ i s updated w',
       findIssue (Some typed) (issues ctx) = inr (Some i) →
       findState (in_status input) (states ctx) = inr (Some s) →
       updateIssue api (apiKey ctx) (issue_id i)
         {| upd_stateId := Some (state_id s); upd_priority := None;
            upd_labelIds := None; upd_assigneeId := None; upd_dueDate := None |} w
       = (inr updated, w') →
       executeTool api "update_issue_status" input ctx w
       = (inr (JObj [ ("success", JBool true);
                      ("issue", JStr (u_identifier updated));
                      ("title", JStr (u_title updated));
                      ("new_status", JStr (u_stateName updated)) ]), w')).
Proof.
  intros Hid Hupper.
  assert (Hiff : (∃ i, findIssue (Some typed) (issues ctx) = inr (Some i))
                 ↔ ∃ i, i ∈ issues ctx ∧ eqNoCase (identifier i) typed).
  { rewrite findIssue_spec. unfold upperCased in Hupper.
    rewrite Forall_forall in Hupper. unfold eqNoCase.
    split; intros (i & Hin & Heq); exists i; (split; [done|]).
    - by rewrite (Hupper i Hin).
    - by rewrite <- (Hupper i Hin). }
  split; [exact Hiff|]. split.
  - intros Hnone.
    assert (E : findIssue (Some typed) (issues ctx) = inr None).
    { destruct (findIssue (Some typed) (issues ctx)) as [e|[i|]] eqn:E; [done| |done].
      exfalso. apply Hnone, Hiff. by exists i. }
    unfold executeTool, tryCatch, dispatch; simpl.
    unfold handleUpdateStatus, bind, lift. rewrite Hid, E. unfold ret, issueNotFound.
    by rewrite Hid.
  - intros i s updated w' Hi Hs Hup.
    unfold executeTool, tryCatch, dispatch; simpl.
    unfold handleUpdateStatus, bind, lift. rewrite Hid, Hi, Hs, Hup. reflexivity.
Qed.

Lemma issue_lookup_on_upper_case_snapshots_witness :
  (∃ i, findIssue (Some "yak-1") (issues Scenarios.ctx0) = inr (Some i))
  ∧ executeTool Tracker.refApi "update_issue_status"
      (Scenarios.setStatus "yak-1" "in progress") Scenarios.ctx0 Scenarios.tracker0
    = (inr (JObj [ ("success", JBool true); ("issue", JStr "YAK-1");
                   ("title", JStr "Fix login"); ("new_status", JStr "In Progress") ]),
       (Tracker.refUpdateIssue "lin_api_key" "i-1"
          {| upd_stateId := Some "s-doing"; upd_priority := None;
             upd_labelIds := None; upd_assigneeId := None; upd_dueDate := None |}
          Scenarios.tracker0).2)
  ∧ executeTool Tracker.refApi "update_issue_status"
      (Scenarios.setStatus "yak-2" "in progress")
      (Tracker.snapshot "k" "YAK" (Tracker.withIssues Scenarios.tracker0 [Fixtures.yak1]))
      Scenarios.tracker0
    = (inr (errorResult "Issue yak-2 not found in active issues."), Scenarios.tracker0).
Proof.
  assert (Hup : upperCased (issues Scenarios.ctx0)) by (repeat constructor).
  assert (Hup1 : upperCased (issues (Tracker.snapshot "k" "YAK"
                   (Tracker.withIssues Scenarios.tracker0 [Fixtures.yak1]))))
    by (repeat constructor).
  split; [|split].
  - apply (issue_lookup_on_upper_case_snapshots Tracker.refApi
             (Scenarios.setStatus "yak-1" "in progress") Scenarios.ctx0 "yak-1"
             Scenarios.tracker0 eq_refl Hup).
    exists Fixtures.yak1. split; [apply list_elem_of_here|reflexivity].
  - destruct (issue_lookup_on_upper_case_snapshots Tracker.refApi
             (Scenarios.setStatus "yak-1" "in progress") Scenarios.ctx0 "yak-1"
             Scenarios.tracker0 eq_refl Hup) as (_ & _ & Hok).
    erewrite (Hok Fixtures.yak1 Fixtures.inProgress); [|reflexivity..]. reflexivity.
  - apply (issue_lookup_on_upper_case_snapshots Tracker.refApi
             (Scenarios.setStatus "yak-2" "in progress") _ "yak-2"
             Scenarios.tracker0 eq_refl Hup1).
    intros (i & Hin & Heq). apply list_elem_of_singleton in Hin. subst i.
    discriminate Heq.
Defined.

(** C2 as stated fails: an issue stored as Yak-1 is not resolved by any
    casing of its identifier, not even by Yak-1 itself. *)
Lemma issue_lookup_case_counterexample :
  (∃ i, i ∈ issues (Tracker.snapshot "k" "YAK" Scenarios.trackerMixed)
        ∧ eqNoCase (identifier i) "Yak-1")
  ∧ findIssue (Some "Yak-1") (issues (Tracker.snapshot "k" "YAK" Scenarios.trackerMixed))
    = inr None
  ∧ Tracker.turn "k" "YAK" "update_issue_status" (Scenarios.setStatus "Yak-1" "Todo")
      Scenarios.trackerMixed
    = (inr (errorResult "Issue Yak-1 not found in active issues."),
       Scenarios.trackerMixed).
Proof.
  split; [|split]; [|reflexivity..].
  exists Scenarios.yakMixed. split; [apply list_elem_of_here|reflexivity].
Qed.

End ToolsClaims.

(** ** create_issue and its optional references *)

Module CreateIssueClaims.
Import JsString JsArray Json Effect Linear Tools EffectFacts ToolsFacts.

Lemma find_none_iff {A : Type} (p : A → bool) (l : list A) :
  List.find p l = None ↔ ∀ x, x ∈ l → p x = false.
Proof.
  split.
  - intros H x Hx. apply (find_none _ _ H). by apply list_elem_of_In.
  - intros H. destruct (List.find p l) as [x|] eqn:E; [|done].
    apply find_some in E as [Hin Hp]. apply list_elem_of_In in Hin.
    rewrite (H x Hin) in Hp. discriminate Hp.
Qed.

Lemma resolveProjectId_unresolved (input : Input) (ctx : Ctx) :
  projectUnresolved input ctx → resolveProjectId input ctx = None.
Proof.
  intros H. unfold resolveProjectId, find. destruct (truthy _); [|done].
  apply find_none_iff in H. by rewrite H.
Qed.

Lemma resolveStateId_unresolved (input : Input) (ctx : Ctx) :
  statusUnresolved input ctx → resolveStateId input ctx = None.
Proof.
  intros H. unfold resolveStateId, find. destruct (truthy _); [|done].
  apply find_none_iff in H. by rewrite H.
Qed.

(** [executeTool] on create_issue, call by call: the parent is created
    with [parentCreateInput], then each subtask with [subtaskCreateInput]
    under the parent's id; what a call throws comes back as a Failure. *)
Lemma create_issue_run {W : Type} (api : Api W) (input : Input) (ctx : Ctx) (w : W) :
  executeTool api "create_issue" input ctx w
  = match createLinearIssue api (apiKey ctx) (parentCreateInput input ctx) w with
    | (inl message, w1) =>
        (inr (errorResult ("Tool " +:+ quoted "create_issue" +:+ " failed: "
                           +:+ message)), w1)
    | (inr parent, w1) =>
        match in_subtasks input with
        | Some (sub0 :: subs) =>
            match forEach (λ sub,
                    bind (createLinearIssue api (apiKey ctx)
                            (subtaskCreateInput ctx (c_id parent)
                               (resolveProjectId input ctx) sub))
                         (λ subIssue,
                            ret (object
                                   [ ("issue", Some (JStr (c_identifier subIssue)));
                                     ("title", Some (JStr (c_title subIssue)));
                                     ("due_date", Some (orNull (c_dueDate subIssue))) ])))
                    (sub0 :: subs) w1 with
            | (inl message, w2) =>
                (inr (errorResult ("Tool " +:+ quoted "create_issue" +:+ " failed: "
                                   +:+ message)), w2)
            | (inr reports, w2) =>
                (inr (object
                        [ ("success", Some (JBool true));
                          ("issue", Some (JStr (c_identifier parent)));
                          ("title", Some (JStr (c_title parent)));
                          ("url", Some (JStr (c_url parent)));
                          ("due_date", Some (orNull (c_dueDate parent)));
                          ("subtasks", Some (JArr reports)) ]), w2)
            end
        | _ =>
            (inr (object
                    [ ("success", Some (JBool true));
                      ("issue", Some (JStr (c_identifier parent)));
                      ("title", Some (JStr (c_title parent)));
                      ("url", Some (JStr (c_url parent)));
                      ("due_date", Some (orNull (c_dueDate parent))) ]), w1)
        end
    end.
Proof.
  change (executeTool api "create_issue" input ctx w)
    with (tryCatch (handleCreateIssue api input ctx)
            (λ message, ret (errorResult ("Tool " +:+ quoted "create_issue"
                                          +:+ " failed: " +:+ message))) w).
  unfold tryCatch, handleCreateIssue. unfold bind at 1.
  destruct (createLinearIssue api (apiKey ctx) (parentCreateInput input ctx) w)
    as [[message|parent] w1]; [reflexivity|].
  destruct (in_subtasks input) as [[|sub0 subs]|]; [reflexivity| |reflexivity].
  unfold bind at 1.
  match goal with
  | |- context [forEach ?f ?xs ?w0] => destruct (forEach f xs w0) as [[message|reports] w2]
  end; reflexivity.
Qed.

(** C10. create_issue drops unresolved optional references.  The tool
    creates the parent with one request and then one request per subtask;
    a request carries the project the lookup of [project_name] resolved,
    and the parent's request the state the lookup of [status] resolved.
    When no project's name contains the given project name the parent and
    every subtask are created by requests without a project; when no
    workflow state has the given status name the parent is created by a
    request without a state.  In either case the outcome is the one the
    same input without that reference gives, so nothing in it tells that
    the reference was dropped, and it is a Success whenever the tracker
    accepts the requests. *)
Theorem create_issue_drops_unresolved_references {W : Type} (api : Api W)
    (input : Input) (ctx : Ctx) :
  let failed (message : string) : JVal :=
    errorResult ("Tool " +:+ quoted "create_issue" +:+ " failed: " +:+ message) in
  let run (projectId stateId : option string) (w : W) : Exc JVal * W :=
    match createLinearIssue api (apiKey ctx)
            {| new_teamId := teamId ctx;
               new_title := in_title input;
               new_description := whenTruthy (in_description input);
               new_priority := in_priority input;
               new_dueDate := whenTruthy (in_due_date input);
               new_projectId := projectId;
               new_stateId := stateId;
               new_parentId := None |} w with
    | (inl message, w1) => (inr (failed message), w1)
    | (inr parent, w1) =>
        match in_subtasks input with
        | Some (sub0 :: subs) =>
            match forEach (λ sub,
                    bind (createLinearIssue api (apiKey ctx)
                            {| new_teamId := teamId ctx;
                               new_title := sub_title sub;
                               new_description := whenTruthy (sub_description sub);
                               new_priority := sub_priority sub;
                               new_dueDate := whenTruthy (sub_due_date sub);
                               new_projectId := whenTruthy projectId;
                               new_stateId := None;
                               new_parentId := Some (c_id parent) |})
                         (λ subIssue,
                            ret (object
                                   [ ("issue", Some (JStr (c_identifier subIssue)));
                                     ("title", Some (JStr (c_title subIssue)));
                                     ("due_date", Some (orNull (c_dueDate subIssue))) ])))
                    (sub0 :: subs) w1 with
            | (inl message, w2) => (inr (failed message), w2)
            | (inr reports, w2) =>
                (inr (object
                        [ ("success", Some (JBool true));
                          ("issue", Some (JStr (c_identifier parent)));
                          ("title", Some (JStr (c_title parent)));
                          ("url", Some (JStr (c_url parent)));
                          ("due_date", Some (orNull (c_dueDate parent)));
                          ("subtasks", Some (JArr reports)) ]), w2)
            end
        | _ =>
            (inr (object
                    [ ("success", Some (JBool true));
                      ("issue", Some (JStr (c_identifier parent)));
                      ("title", Some (JStr (c_title parent)));
                      ("url", Some (JStr (c_url parent)));
                      ("due_date", Some (orNull (c_dueDate parent))) ]), w1)
        end
    end in
  (∀ w, executeTool api "create_issue" input ctx w
        = run (resolveProjectId input ctx) (resolveStateId input ctx) w)
  ∧ (projectUnresolved input ctx →
     ∀ w, executeTool api "create_issue" input ctx w
          = run None (resolveStateId input ctx) w
          ∧ executeTool api "create_issue" input ctx w
            = executeTool api "create_issue" (withoutProject input) ctx w)
  ∧ (statusUnresolved input ctx →
     ∀ w, executeTool api "create_issue" input ctx w
          = run (resolveProjectId input ctx) None w
          ∧ executeTool api "create_issue" input ctx w
            = executeTool api "create_issue" (withoutStatus input) ctx w)
  ∧ (∀ w,
       (∀ request w0, ∃ created w1,
          createLinearIssue api (apiKey ctx) request w0 = (inr created, w1)) →
       ∃ r w', executeTool api "create_issue" input ctx w = (inr r, w') ∧ isSuccess r).
Proof.
  intros failed run.
  assert (Hrun : ∀ w, executeTool api "create_issue" input ctx w
                      = run (resolveProjectId input ctx) (resolveStateId input ctx) w)
    by (intros w; exact (create_issue_run api input ctx w)).
  split; [exact Hrun|]. split; [|split].
  - intros Hno w. pose proof (resolveProjectId_unresolved input ctx Hno) as E. split.
    + rewrite Hrun. by rewrite E.
    + rewrite !create_issue_run. unfold parentCreateInput. cbn [in_title in_description
        in_priority in_due_date in_subtasks withoutProject].
      assert (E' : resolveProjectId (withoutProject input) ctx = None) by reflexivity.
      assert (Es : resolveStateId (withoutProject input) ctx = resolveStateId input ctx)
        by reflexivity.
      by rewrite E, E', Es.
  - intros Hno w. pose proof (resolveStateId_unresolved input ctx Hno) as E. split.
    + rewrite Hrun. by rewrite E.
    + rewrite !create_issue_run. unfold parentCreateInput. cbn [in_title in_description
        in_priority in_due_date in_subtasks withoutStatus].
      assert (E' : resolveStateId (withoutStatus input) ctx = None) by reflexivity.
      assert (Ep : resolveProjectId (withoutStatus input) ctx = resolveProjectId input ctx)
        by reflexivity.
      by rewrite E, E', Ep.
  - intros w Hapi. rewrite create_issue_run.
    destruct (Hapi (parentCreateInput input ctx) w) as (parent & w1 & ->).
    destruct (in_subtasks input) as [[|sub0 subs]|];
      try (eexists _, _; split; [reflexivity|]; eexists; reflexivity).
    match goal with
    | |- context [forEach ?f ?xs ?w0] =>
        assert (Hf : ∀ x w0, ∃ y w2, f x w0 = (inr y, w2));
        [|destruct (forEach_succeeds f xs w0 Hf) as (ys & w2 & ->)]
    end.
    { intros sub w0.
      destruct (Hapi (subtaskCreateInput ctx (c_id parent)
                        (resolveProjectId input ctx) sub) w0) as (created & w3 & E).
      unfold bind. rewrite E. by eexists _, _. }
    eexists _, _; split; [reflexivity|]; eexists; reflexivity.
Qed.

(** On the reference tracker: a project name and a status that match
    nothing, one subtask.  The parent and the subtask are created, neither
    has a project, and the parent is in the tracker's first state. *)
Lemma create_issue_drops_unresolved_references_witness :
  ∃ r t' parent child,
    executeTool Tracker.refApi "create_issue"
      (Scenarios.createWithReferences "Website" "Review") Scenarios.ctx0
      Scenarios.tracker0 = (inr r, t')
    ∧ isSuccess r
    ∧ Tracker.t_issues t' = Tracker.t_issues Scenarios.tracker0 ++ [parent; child]
    ∧ title parent = "Write the release notes" ∧ project parent = None
    ∧ state parent = Some Fixtures.todo
    ∧ title child = "Collect the changes" ∧ project child = None.
Proof.
  assert (Hp : projectUnresolved (Scenarios.createWithReferences "Website" "Review")
                 Scenarios.ctx0).
  { intros p Hp. apply list_elem_of_singleton in Hp. subst p. reflexivity. }
  destruct (create_issue_drops_unresolved_references Tracker.refApi
              (Scenarios.createWithReferences "Website" "Review") Scenarios.ctx0)
    as (_ & Hproject & _).
  destruct (Hproject Hp Scenarios.tracker0) as [Hrun _].
  eexists _, _, _, _. split; [rewrite Hrun; vm_compute; reflexivity|].
  split; [eexists; reflexivity|]. by repeat split.
Defined.

End CreateIssueClaims.

(** ** The agent loop *)

Module AgentClaims.
Import JsString JsArray Json Effect Linear Store Agent EffectFacts ToolsFacts.

Lemma finalText_nonempty (r : Response) : finalText r ≠ "".
Proof.
  unfold finalText. destruct (String.eqb_spec (joinedText r) "") as [_|Hne]; [|done].
  discriminate.
Qed.

Lemma finalText_joined (r : Response) :
  joinedText r ≠ "" → finalText r = joinedText r.
Proof.
  intros Hne. unfold finalText. by destruct (String.eqb_spec (joinedText r) "").
Qed.

Lemma finalText_no_segments (r : Response) :
  omap textOf (content r) = [] → finalText r = fallbackText.
Proof. intros H. unfold finalText, joinedText. by rewrite H. Qed.

Section Loop.
Context {W : Type} (api : Tools.Api W).
Context (callClaude : string → list Message → Exc Response).
Context (buildSystemPrompt : Tools.Ctx → string).

#[local] Abbreviation AlwaysRequests := (Notions.AlwaysRequests callClaude).
#[local] Abbreviation Answered := (Notions.Answered callClaude).

Lemma runToolCalls_returns (ctx : Tools.Ctx) (blocks : list Block) (w : World W) :
  ∃ results w', runToolCalls api ctx blocks w = (inr results, w').
Proof.
  unfold runToolCalls, bind.
  match goal with
  | |- context [forEach ?f ?xs ?w0] =>
      assert (Hf : ∀ x w0, ∃ y w2, f x w0 = (inr y, w2));
      [|destruct (forEach_succeeds f xs w0 Hf) as (ys & w2 & ->)]
  end.
  - intros [text|id name input] w0; [by eexists _, _|].
    unfold bind, onTracker.
    destruct (executeTool_returns api name input ctx (tracker w0)) as (r & t' & ->).
    by eexists _, _.
  - by eexists _, _.
Qed.

(** The loop always finishes within MAX_ITERATIONS rounds of fuel, whatever
    the model answers: it returns a state or the model call throws. *)
Lemma toolLoop_fuel_suffices (system : string) (ctx : Tools.Ctx) :
  ∀ (k fuel : nat) (st : LoopState) (w : World W),
    (MAX_ITERATIONS ≤ iterations st + k)%nat → (k ≤ fuel)%nat →
    ∀ w', toolLoop api callClaude fuel system ctx st w ≠ (inr None, w').
Proof.
  induction k as [|k IH]; intros fuel st w Hk Hfuel w'.
  - assert (Hlt : (iterations st <? MAX_ITERATIONS)%nat = false)
      by (apply Nat.ltb_ge; lia).
    destruct fuel; simpl; rewrite Hlt, andb_false_r; discriminate.
  - destruct fuel as [|fuel]; [lia|]. simpl.
    destruct (String.eqb _ _ && _); [|discriminate].
    unfold bind at 1.
    destruct (runToolCalls_returns ctx (content (response st)) w)
      as (results & w1 & ->).
    unfold bind at 1, lift at 1.
    destruct (callClaude system _) as [e|r]; [discriminate|].
    apply IH; simpl; lia.
Qed.

Lemma toolLoop_reaches_ceiling (system : string) (ctx : Tools.Ctx) :
  AlwaysRequests →
  ∀ (k fuel : nat) (st : LoopState) (w : World W),
    (iterations st + k = MAX_ITERATIONS)%nat → (k ≤ fuel)%nat →
    stop_reason (response st) = "tool_use" → Answered system st →
    ∃ st' w',
      toolLoop api callClaude fuel system ctx st w = (inr (Some st'), w')
      ∧ iterations st' = MAX_ITERATIONS
      ∧ Answered system st'
      ∧ length (messages st') = (length (messages st) + 2 * k)%nat.
Proof.
  intros Hall k. induction k as [|k IH]; intros fuel st w Hk Hfuel Hstop Hans.
  - exists st, w.
    assert (Hlt : (iterations st <? MAX_ITERATIONS)%nat = false)
      by (apply Nat.ltb_ge; lia).
    destruct fuel; simpl; rewrite Hlt, andb_false_r;
      (split; [reflexivity|]); (split; [lia|]); (split; [done|lia]).
  - destruct fuel as [|fuel]; [lia|]. simpl.
    assert (Hlt : (iterations st <? MAX_ITERATIONS)%nat = true)
      by (apply Nat.ltb_lt; lia).
    rewrite Hstop, Hlt. simpl. unfold bind at 1.
    destruct (runToolCalls_returns ctx (content (response st)) w)
      as (results & w1 & ->).
    unfold bind at 1, lift at 1.
    match goal with
    | |- context [callClaude system ?m] =>
        destruct (Hall system m) as (r & Er & Hr); rewrite Er
    end.
    match goal with
    | |- context [toolLoop api callClaude fuel system ctx ?s ?w0] =>
        destruct (IH fuel s w0) as (st' & w' & E & Hit & Hans' & Hlen);
        [simpl; lia|lia|exact Hr|exact Er|]
    end.
    exists st', w'. rewrite E. split; [done|]. split; [done|]. split; [done|].
    rewrite Hlen. simpl. rewrite length_app. simpl. lia.
Qed.

End Loop.



End AgentClaims.

(** ** add_label *)

Module LabelFacts.
Import JsString JsArray Json Effect Linear Tools Tracker Notions EffectFacts.

Lemma find_filter_fmap {A : Type} (p q : A → bool) (f : A → A) (l : list A) :
  (∀ x, p (f x) = p x) → (∀ x, q (f x) = q x) →
  List.find p (List.filter q (f <$> l)) = f <$> List.find p (List.filter q l).
Proof.
  intros Hp Hq. induction l as [|x rest IH]; csimpl; [done|].
  rewrite Hq. destruct (q x); [|done]. simpl. rewrite Hp. by destruct (p x).
Qed.

Lemma find_app_none {A : Type} (p : A → bool) (l : list A) (x : A) :
  List.find p l = None → p x = true → List.find p (l ++ [x]) = Some x.
Proof.
  intros Hn Hx. induction l as [|y rest IH]; simpl in *; [by rewrite Hx|].
  destruct (p y); [done|]. by apply IH.
Qed.

Lemma find_filter_elem {A : Type} (p q : A → bool) (l : list A) (x : A) :
  List.find p (List.filter q l) = Some x → x ∈ l ∧ q x = true ∧ p x = true.
Proof.
  intros H. apply find_some in H as [Hin Hp]. apply filter_In in Hin as [Hin Hq].
  by rewrite list_elem_of_In.
Qed.

Lemma countId_app (labelId : string) (a b : list Label) :
  length (List.filter (hasId labelId) (a ++ b))
  = (length (List.filter (hasId labelId) a) + length (List.filter (hasId labelId) b))%nat.
Proof. by rewrite List.filter_app, length_app. Qed.

Lemma existsb_ids (labelId : string) (ls : list Label) :
  existsb (String.eqb labelId) (label_id <$> ls) = existsb (hasId labelId) ls.
Proof.
  induction ls as [|l rest IH]; csimpl; [done|].
  unfold hasId at 1. by rewrite IH, (String.eqb_sym labelId).
Qed.

Lemma count_zero (labelId : string) (ls : list Label) :
  existsb (hasId labelId) ls = false → length (List.filter (hasId labelId) ls) = 0%nat.
Proof.
  induction ls as [|l rest IH]; simpl; [done|].
  destruct (hasId labelId l); [done|]. exact IH.
Qed.

(** Distinct ids: a label that occurs occurs once. *)
Lemma count_one (labelId : string) (ls : list Label) :
  NoDup (label_id <$> ls) → existsb (hasId labelId) ls = true →
  length (List.filter (hasId labelId) ls) = 1%nat.
Proof.
  induction ls as [|l rest IH]; csimpl; [done|].
  intros Hnd He. apply NoDup_cons in Hnd as [Hnotin Hnd].
  destruct (hasId labelId l) eqn:El; simpl.
  - f_equal. apply count_zero. apply not_true_is_false. intros Hex.
    apply existsb_exists in Hex as (l' & Hin & Hl').
    apply Hnotin. apply String.eqb_eq in El, Hl'. rewrite El, <- Hl'.
    apply list_elem_of_fmap. exists l'. split; [done|]. by apply list_elem_of_In.
  - by apply IH.
Qed.

Section Lookup.
Context (t : T).

Lemma labelsOf_app (a b : list string) : labelsOf t (a ++ b) = labelsOf t a ++ labelsOf t b.
Proof. unfold labelsOf. apply omap_app. Qed.

(** The labels an id list denotes carry ids of that list. *)
Lemma labelsOf_none (labelId : string) (ids : list string) :
  existsb (String.eqb labelId) ids = false →
  existsb (hasId labelId) (labelsOf t ids) = false.
Proof.
  unfold labelsOf. induction ids as [|x rest IH]; csimpl; [done|].
  intros H. apply orb_false_iff in H as [Hx Hrest].
  destruct (List.find _ (t_labels t)) as [l|] eqn:E; simpl; [|by apply IH].
  apply find_some in E as [_ El]. apply String.eqb_eq in El.
  unfold hasId at 1. rewrite El, String.eqb_sym, Hx. by apply IH.
Qed.

Lemma labelsOf_known (l : Label) :
  l ∈ t_labels t →
  ∃ l0, labelsOf t [label_id l] = [l0] ∧ hasId (label_id l) l0 = true.
Proof.
  intros Hin. unfold labelsOf; simpl.
  destruct (List.find _ (t_labels t)) as [l0|] eqn:E.
  - exists l0. split; [done|]. by apply find_some in E as [_ El].
  - apply list_elem_of_In in Hin. eapply find_none in E; [|exact Hin].
    simpl in E. by rewrite String.eqb_refl in E.
Qed.

(** After [labelIds := current ++ [id]] the issue carries the label once. *)
Lemma appended_once (l : Label) (current : list string) :
  l ∈ t_labels t →
  existsb (String.eqb (label_id l)) current = false →
  length (List.filter (hasId (label_id l)) (labelsOf t (current ++ [label_id l]))) = 1%nat
  ∧ existsb (hasId (label_id l)) (labelsOf t (current ++ [label_id l])) = true.
Proof.
  intros Hin Hfresh. rewrite labelsOf_app.
  destruct (labelsOf_known l Hin) as (l0 & -> & Hl0). split.
  - rewrite countId_app, (count_zero _ _ (labelsOf_none _ _ Hfresh)). simpl.
    by rewrite Hl0.
  - rewrite existsb_app. simpl. by rewrite Hl0, orb_true_r.
Qed.

End Lookup.

End LabelFacts.

Module LabelClaims.
Import JsString JsArray Json Effect Linear Tools Tracker Notions EffectFacts LabelFacts.

Section AddLabel.
Context {W : Type} (api : Api W).
Context (input : Input) (typed name : string).
Context (Hid : in_issue_identifier input = Some typed).
Context (Hname : in_label_name input = Some name).

(** [handleAddLabel] once the issue is resolved: the label is looked up or
    created, then either reported as present or appended. *)
Lemma handleAddLabel_run (ctx : Ctx) (i : Issue) (w : W) :
  findIssue (Some typed) (issues ctx) = inr (Some i) →
  handleAddLabel api input ctx w =
    match (match labelNamed name (ctx_labels ctx) with
           | Some l => (inr l, w)
           | None => createLabel api (apiKey ctx) (teamId ctx) (Some name) w
           end) with
    | (inl e, w1) => (inl e, w1)
    | (inr label, w1) =>
        if existsb (String.eqb (label_id label)) (label_id <$> labels i) then
          (inr (JObj [ ("success", JBool true);
                       ("message", JStr (identifier i +:+ " already has label "
                                         +:+ quoted (label_name label))) ]), w1)
        else
          match updateIssue api (apiKey ctx) (issue_id i)
                  {| upd_stateId := None; upd_priority := None;
                     upd_labelIds := Some ((label_id <$> labels i) ++ [label_id label]);
                     upd_assigneeId := None; upd_dueDate := None |} w1 with
          | (inr updated, w2) =>
              (inr (JObj [ ("success", JBool true);
                           ("issue", JStr (u_identifier updated));
                           ("labels", JArr (JStr <$> u_labelNames updated)) ]), w2)
          | (inl e, w2) => (inl e, w2)
          end
    end.
Proof.
  intros Hissue. unfold handleAddLabel.
  unfold bind at 1, lift at 1. rewrite Hid, Hissue.
  unfold bind at 1, lift at 1. rewrite Hname.
  change (method "toLowerCase" (Some name) ?f) with (inr (A := string) (f name)).
  rewrite (findExc_pure
    (λ l, String.eqb (toLowerCase (label_name l)) (toLowerCase name))).
  fold (labelNamed name (ctx_labels ctx)).
  unfold bind at 1.
  destruct (labelNamed name (ctx_labels ctx)) as [l|]; simpl.
  - unfold ret at 1. destruct (existsb _ _); [reflexivity|].
    unfold bind. by destruct (updateIssue _ _ _ _ _) as [[e|u] w2].
  - destruct (createLabel _ _ _ _ _) as [[e|l] w1]; [done|].
    destruct (existsb _ _); [reflexivity|].
    unfold bind. by destruct (updateIssue _ _ _ _ _) as [[e|u] w2].
Qed.

End AddLabel.

Section TwoTurns.
Context (key teamKey : string) (input : Input) (typed name : string).
Context (Hid : in_issue_identifier input = Some typed).
Context (Hname : in_label_name input = Some name).

#[local] Abbreviation resolves := (Notions.resolves key teamKey typed).

Lemma resolves_elem (t : T) (i : Issue) :
  resolves t i → i ∈ t_issues t ∧ isActive i = true.
Proof.
  unfold resolves, findIssue, method, find. intros [= H].
  apply find_filter_elem in H as (Hin & Hact & _). done.
Qed.

(** The issue seen by the next snapshot after a label update. *)
Lemma resolves_after_update (t : T) (i : Issue) (label : Label) :
  resolves t i →
  resolves
    (withIssues t
       ((λ j, if byIssueId (issue_id i) j then applyUpdate t (appendLabel i label) j else j)
          <$> t_issues t))
    (applyUpdate t (appendLabel i label) i).
Proof.
  unfold resolves, findIssue, method, find. intros [= H]. f_equal.
  unfold snapshot, withIssues; simpl.
  rewrite find_filter_fmap.
  - rewrite H. simpl. unfold byIssueId. by rewrite String.eqb_refl.
  - intros j. by destruct (byIssueId (issue_id i) j).
  - intros j. by destruct (byIssueId (issue_id i) j).
Qed.

Lemma turn_add_label (t : T) :
  turn key teamKey "add_label" input t
  = tryCatch (handleAddLabel refApi input (snapshot key teamKey t))
      (λ message, ret (errorResult ("Tool " +:+ quoted "add_label" +:+ " failed: "
                                    +:+ message))) t.
Proof. reflexivity. Qed.

(** A turn that finds the label on the issue answers Success and changes
    nothing. *)
Lemma turn_already (t : T) (i : Issue) (label : Label) :
  resolves t i →
  labelNamed name (t_labels t) = Some label →
  existsb (String.eqb (label_id label)) (label_id <$> labels i) = true →
  ∃ r, turn key teamKey "add_label" input t = (inr r, t) ∧ isSuccess r.
Proof.
  intros Hres Hl Hex. rewrite turn_add_label. unfold tryCatch.
  rewrite (handleAddLabel_run refApi input typed name Hid Hname _ i t Hres).
  simpl ctx_labels. rewrite Hl, Hex. eexists. split; [reflexivity|]. by eexists.
Qed.

(** From the membership test on: the outcome of the first turn, and the
    second turn after it. *)
Lemma settle_label (t : T) (i : Issue) (label : Label) :
  resolves t i →
  NoDup (label_id <$> labels i) →
  labelNamed name (t_labels t) = Some label →
  ∃ r1 t1 r2 i2,
    (if existsb (String.eqb (label_id label)) (label_id <$> labels i) then
       (inr (JObj [ ("success", JBool true);
                    ("message", JStr (identifier i +:+ " already has label "
                                      +:+ quoted (label_name label))) ]), t)
     else
       match refUpdateIssue key (issue_id i) (appendLabel i label) t with
       | (inr updated, t2) =>
           (inr (JObj [ ("success", JBool true);
                        ("issue", JStr (u_identifier updated));
                        ("labels", JArr (JStr <$> u_labelNames updated)) ]), t2)
       | (inl e, t2) => (inl e, t2)
       end) = (inr r1, t1)
    ∧ isSuccess r1
    ∧ turn key teamKey "add_label" input t1 = (inr r2, t1)
    ∧ isSuccess r2
    ∧ resolves t1 i2
    ∧ labelNamed name (t_labels t1) = Some label
    ∧ labelCount (label_id label) i2 = 1%nat.
Proof.
  intros Hres Hnd Hl.
  destruct (existsb (String.eqb (label_id label)) (label_id <$> labels i)) eqn:Hex.
  - destruct (turn_already t i label Hres Hl Hex) as (r2 & E2 & Hr2).
    eexists _, t, r2, i. split; [reflexivity|]. split; [by eexists|].
    split; [done|]. split; [done|]. split; [done|]. split; [done|].
    unfold labelCount. apply count_one; [done|]. by rewrite <- existsb_ids.
  - destruct (resolves_elem t i Hres) as [Hin _].
    assert (Hlin : label ∈ t_labels t).
    { unfold labelNamed in Hl. apply find_some in Hl as [Hlin _].
      by apply list_elem_of_In. }
    destruct (appended_once t label (label_id <$> labels i) Hlin Hex) as [Hone Hhas].
    unfold refUpdateIssue.
    destruct (List.find (byIssueId (issue_id i)) (t_issues t)) as [j|] eqn:Ej.
    + pose proof (resolves_after_update t i label Hres) as Hres'.
      set (t1 := withIssues t _) in *.
      assert (Hl1 : labelNamed name (t_labels t1) = Some label) by exact Hl.
      destruct (turn_already t1 _ label Hres' Hl1) as (r2 & E2 & Hr2).
      { simpl. by rewrite existsb_ids. }
      eexists _, t1, r2, _. split; [reflexivity|]. split; [by eexists|].
      split; [done|]. split; [done|]. split; [exact Hres'|]. split; [done|].
      exact Hone.
    + apply list_elem_of_In in Hin. eapply find_none in Ej; [|exact Hin].
      unfold byIssueId in Ej. by rewrite String.eqb_refl in Ej.
Qed.

End TwoTurns.

(** C8. Label idempotence, from one turn to the next.  The label is looked
    up and the membership tested in the snapshot of the turn.  When the
    label's id is already among the issue's label ids there, add-label
    answers Success and issues no mutation; when the snapshot has the label
    but not on the issue, it sends the issue's label ids with the new id
    appended; when the snapshot has no label of that name, it asks the
    tracker to create one first, and a refusal comes back as a Failure.  On
    the reference tracker, adding the same label name to the same issue in
    two successive turns, each on a fresh snapshot, answers Success both
    times, the second turn changes nothing, and the issue carries that
    label exactly once. *)
Theorem add_label_idempotent {W : Type} (api : Api W) (key teamKey : string)
    (input : Input) (typed name : string) :
  in_issue_identifier input = Some typed →
  in_label_name input = Some name →
  (∀ ctx i label w,
     findIssue (Some typed) (issues ctx) = inr (Some i) →
     labelNamed name (ctx_labels ctx) = Some label →
     existsb (String.eqb (label_id label)) (label_id <$> labels i) = true →
     executeTool api "add_label" input ctx w
     = (inr (JObj [ ("success", JBool true);
                    ("message", JStr (identifier i +:+ " already has label "
                                      +:+ quoted (label_name label))) ]), w))
  ∧ (∀ ctx i label updated w w',
       findIssue (Some typed) (issues ctx) = inr (Some i) →
       labelNamed name (ctx_labels ctx) = Some label →
       existsb (String.eqb (label_id label)) (label_id <$> labels i) = false →
       updateIssue api (apiKey ctx) (issue_id i)
         {| upd_stateId := None; upd_priority := None;
            upd_labelIds := Some ((label_id <$> labels i) ++ [label_id label]);
            upd_assigneeId := None; upd_dueDate := None |} w = (inr updated, w') →
       executeTool api "add_label" input ctx w
       = (inr (JObj [ ("success", JBool true);
                      ("issue", JStr (u_identifier updated));
                      ("labels", JArr (JStr <$> u_labelNames updated)) ]), w'))
  ∧ (∀ t i,
       findIssue (Some typed) (issues (snapshot key teamKey t)) = inr (Some i) →
       NoDup (label_id <$> labels i) →
       ∃ r1 t1 r2 i2 label,
         turn key teamKey "add_label" input t = (inr r1, t1) ∧ isSuccess r1
         ∧ turn key teamKey "add_label" input t1 = (inr r2, t1) ∧ isSuccess r2
         ∧ findIssue (Some typed) (issues (snapshot key teamKey t1)) = inr (Some i2)
         ∧ labelNamed name (t_labels t1) = Some label
         ∧ labelCount (label_id label) i2 = 1%nat)
  ∧ (∀ ctx i w,
       findIssue (Some typed) (issues ctx) = inr (Some i) →
       labelNamed name (ctx_labels ctx) = None →
       executeTool api "add_label" input ctx w
       = match createLabel api (apiKey ctx) (teamId ctx) (Some name) w with
         | (inl message, w1) =>
             (inr (errorResult ("Tool " +:+ quoted "add_label" +:+ " failed: "
                                +:+ message)), w1)
         | (inr label, w1) =>
             if existsb (String.eqb (label_id label)) (label_id <$> labels i) then
               (inr (JObj [ ("success", JBool true);
                            ("message", JStr (identifier i +:+ " already has label "
                                              +:+ quoted (label_name label))) ]), w1)
             else
               match updateIssue api (apiKey ctx) (issue_id i)
                       {| upd_stateId := None; upd_priority := None;
                          upd_labelIds :=
                            Some ((label_id <$> labels i) ++ [label_id label]);
                          upd_assigneeId := None; upd_dueDate := None |} w1 with
               | (inr updated, w2) =>
                   (inr (JObj [ ("success", JBool true);
                                ("issue", JStr (u_identifier updated));
                                ("labels", JArr (JStr <$> u_labelNames updated)) ]), w2)
               | (inl message, w2) =>
                   (inr (errorResult ("Tool " +:+ quoted "add_label" +:+ " failed: "
                                      +:+ message)), w2)
               end
         end).
Proof.
  intros Hid Hname. split; [|split; [|split]].
  - intros ctx i label w Hres Hl Hex.
    change (executeTool api "add_label" input ctx w)
      with (tryCatch (handleAddLabel api input ctx)
              (λ message, ret (errorResult ("Tool " +:+ quoted "add_label"
                                            +:+ " failed: " +:+ message))) w).
    unfold tryCatch.
    rewrite (handleAddLabel_run api input typed name Hid Hname ctx i w Hres).
    by rewrite Hl, Hex.
  - intros ctx i label updated w w' Hres Hl Hex Hup.
    change (executeTool api "add_label" input ctx w)
      with (tryCatch (handleAddLabel api input ctx)
              (λ message, ret (errorResult ("Tool " +:+ quoted "add_label"
                                            +:+ " failed: " +:+ message))) w).
    unfold tryCatch.
    rewrite (handleAddLabel_run api input typed name Hid Hname ctx i w Hres).
    by rewrite Hl, Hex, Hup.
  - intros t i Hres Hnd.
    rewrite (turn_add_label key teamKey input t). unfold tryCatch.
    rewrite (handleAddLabel_run refApi input typed name Hid Hname _ i t Hres).
    simpl ctx_labels.
    destruct (labelNamed name (t_labels t)) as [label|] eqn:Hl.
    + destruct (settle_label key teamKey input typed name Hid Hname t i label
                  Hres Hnd Hl) as (r1 & t1 & r2 & i2 & E & H1 & E2 & H2 & Hres2 & Hl2 & Hc).
      exists r1, t1, r2, i2, label.
      change (updateIssue refApi (apiKey (snapshot key teamKey t)))
        with (refUpdateIssue key).
      cbv beta iota. split; [|done].
      match goal with
      | |- (let (_, _) := ?X in _) = _ =>
          replace X with (inr (A := string) r1, t1) by (symmetry; exact E)
      end.
      reflexivity.
    + set (created := {| label_id := "label-" +:+ showNat (t_next t); label_name := name |}).
      set (t' := {| t_issues := t_issues t; t_states := t_states t;
                    t_labels := t_labels t ++ [created];
                    t_projects := t_projects t; t_members := t_members t;
                    t_team := t_team t; t_comments := t_comments t;
                    t_next := S (t_next t) |}).
      change (createLabel refApi (apiKey (snapshot key teamKey t))
                (teamId (snapshot key teamKey t)) (Some name) t)
        with (inr (A := string) created, t').
      assert (Hl' : labelNamed name (t_labels t') = Some created).
      { apply find_app_none; [exact Hl|]. apply String.eqb_refl. }
      destruct (settle_label key teamKey input typed name Hid Hname t' i created
                  Hres Hnd Hl') as (r1 & t1 & r2 & i2 & E & H1 & E2 & H2 & Hres2 & Hl2 & Hc).
      exists r1, t1, r2, i2, created.
      change (updateIssue refApi (apiKey (snapshot key teamKey t)))
        with (refUpdateIssue key).
      cbv beta iota. split; [|done].
      match goal with
      | |- (let (_, _) := ?X in _) = _ =>
          replace X with (inr (A := string) r1, t1) by (symmetry; exact E)
      end.
      reflexivity.
  - intros ctx i w Hres Hl.
    change (executeTool api "add_label" input ctx w)
      with (tryCatch (handleAddLabel api input ctx)
              (λ message, ret (errorResult ("Tool " +:+ quoted "add_label"
                                            +:+ " failed: " +:+ message))) w).
    unfold tryCatch.
    rewrite (handleAddLabel_run api input typed name Hid Hname ctx i w Hres).
    rewrite Hl.
    destruct (createLabel api (apiKey ctx) (teamId ctx) (Some name) w)
      as [[message|label] w1]; [reflexivity|].
    destruct (existsb _ _); [reflexivity|].
    by destruct (updateIssue _ _ _ _ _) as [[message|updated] w2].
Qed.

Lemma add_label_idempotent_witness :
  ∃ r1 t1 r2 i2 label,
    turn "lin_api_key" "YAK" "add_label" (Scenarios.addLabel "yak-2" "Blocked")
      Scenarios.tracker0 = (inr r1, t1)
    ∧ isSuccess r1
    ∧ turn "lin_api_key" "YAK" "add_label" (Scenarios.addLabel "yak-2" "Blocked") t1
      = (inr r2, t1)
    ∧ isSuccess r2
    ∧ findIssue (Some "yak-2") (issues (snapshot "lin_api_key" "YAK" t1)) = inr (Some i2)
    ∧ labelNamed "Blocked" (t_labels t1) = Some label
    ∧ labelCount (label_id label) i2 = 1%nat.
Proof.
  destruct (add_label_idempotent refApi "lin_api_key" "YAK"
              (Scenarios.addLabel "yak-2" "Blocked") "yak-2" "Blocked" eq_refl eq_refl)
    as (_ & _ & Hturns & _).
  apply (Hturns Scenarios.tracker0 Fixtures.yak2).
  - reflexivity.
  - apply NoDup_nil_2.
Defined.

(** Two invocations on one snapshot that does not have the label: each asks
    the tracker to create it.  A tracker that keeps label names unique
    refuses the second, which comes back as a Failure; the reference
    tracker makes a second label of the same name and the second
    invocation changes the tracker again. *)
Lemma add_label_twice_counterexample :
  let input := Scenarios.addLabel "yak-2" "Blocked" in
  (∃ r1 t1 r2 t2,
     executeTool StrictTracker.strictApi "add_label" input Scenarios.ctx0
       Scenarios.tracker0 = (inr r1, t1)
     ∧ isSuccess r1
     ∧ executeTool StrictTracker.strictApi "add_label" input Scenarios.ctx0 t1
       = (inr r2, t2)
     ∧ isFailure r2)
  ∧ (∃ r1 t1 r2 t2,
       executeTool refApi "add_label" input Scenarios.ctx0 Scenarios.tracker0
       = (inr r1, t1)
       ∧ isSuccess r1
       ∧ executeTool refApi "add_label" input Scenarios.ctx0 t1 = (inr r2, t2)
       ∧ isSuccess r2
       ∧ length (StrictTracker.named "Blocked" t1) = 1%nat
       ∧ length (StrictTracker.named "Blocked" t2) = 2%nat).
Proof.
  intros input. split.
  - eexists _, _, _, _. split; [vm_compute; reflexivity|].
    split; [eexists; reflexivity|].
    split; [vm_compute; reflexivity|]. eexists; reflexivity.
  - eexists _, _, _, _. split; [vm_compute; reflexivity|].
    split; [eexists; reflexivity|].
    split; [vm_compute; reflexivity|].
    split; [eexists; reflexivity|]. split; reflexivity.
Qed.

End LabelClaims.

(** ** The file-based job *)

Module ScriptFacts.
Import JsString JsArray Json Effect Store Fingerprint Script SortFacts.

(** The script's [hashIssues] is as independent of the order of the issues
    as the worker's. *)
Lemma script_hashIssues_order_independent
    (localeCompare : string → string → Z) (sha256Hex : string → string)
    (issues issues' : list Enriched) :
  Consistent localeCompare →
  (∀ i j, i ∈ issues → j ∈ issues →
     localeCompare (e_identifier i) (e_identifier j) = 0 → i = j) →
  issues ≡ₚ issues' →
  hashIssues localeCompare sha256Hex issues = hashIssues localeCompare sha256Hex issues'.
Proof.
  intros Hcmp Hkey Hperm. unfold hashIssues, serialized.
  enough (sort (byId localeCompare) (normalize <$> issues)
          = sort (byId localeCompare) (normalize <$> issues')) as -> by done.
  apply sort_permutation_invariant; [|by rewrite Hperm|].
  { split; intros *; unfold byId; [apply Hcmp..|]. apply (cmp_trans _ Hcmp). }
  intros x y (i & -> & Hi)%list_elem_of_fmap (j & -> & Hj)%list_elem_of_fmap.
  unfold byId; simpl. intros Hxy Hyx. f_equal. apply Hkey; [done..|].
  destruct (Z.lt_trichotomy (localeCompare (e_identifier i) (e_identifier j)) 0)
    as [Hlt|[Heq|Hgt]]; [|done|lia].
  apply (cmp_flop _ Hcmp) in Hlt. lia.
Qed.

(** Unlike the worker, the script records the empty snapshot: it writes the
    fixed message to both files and a cache record without a hash. *)
Lemma script_main_empty_snapshot
    (localeCompare : string → string → Z) (sha256Hex : string → string)
    (generateBriefing : list Enriched → Exc string) (today : string) (w : World) :
  main localeCompare sha256Hex generateBriefing [] today w
  = (inr tt,
     {| files :=
          <["briefing/archive/" +:+ today +:+ ".txt" := Briefing.noIssuesMessage]>
            (<["briefing/latest.txt" := Briefing.noIssuesMessage]> (files w));
        cacheFile :=
          Some {| hash := None; briefing := Briefing.noIssuesMessage;
                  unchangedDays := Some 0%nat; lastRun := today |} |}).
Proof. reflexivity. Qed.

End ScriptFacts.

(** * Further properties of the code *)

(** ** The handlers of [tools.js] *)

Module ToolsExtras.
Import JsString JsArray Json Effect Linear Tools Notions ToolSchema EffectFacts ToolsFacts.

Lemma findIssue_unknown (typed : string) (ctx : Ctx) :
  unknownIssue typed ctx → findIssue (Some typed) (issues ctx) = inr None.
Proof.
  intros Hun. unfold findIssue, method, find. f_equal.
  destruct (List.find _ (issues ctx)) as [i|] eqn:E; [|done].
  apply find_some in E as [Hin Heq]. apply list_elem_of_In in Hin.
  apply String.eqb_eq in Heq. by destruct (Hun i Hin).
Qed.

Lemma findState_named (name : string) (l : list State) :
  findState (Some name) l = inr (stateNamed name l).
Proof. unfold findState, stateNamed. simpl. apply findExc_pure. Qed.

(** X1. An identifier that names no issue of the snapshot: each of the six
    tools that target an issue answers with the same Failure, which cites
    the identifier as typed, and calls no mutation. *)
Theorem unknown_issue_is_reported_by_every_tool {W : Type} (api : Api W)
    (toolName : string) (input : Input) (ctx : Ctx) (typed : string) (w : W) :
  toolName ∈ issueTools →
  in_issue_identifier input = Some typed →
  unknownIssue typed ctx →
  executeTool api toolName input ctx w
  = (inr (errorResult ("Issue " +:+ typed +:+ " not found in active issues.")), w).
Proof.
  intros Hin Hid Hun. pose proof (findIssue_unknown typed ctx Hun) as E.
  unfold issueTools in Hin.
  repeat (apply elem_of_cons in Hin as [->|Hin];
    [unfold executeTool, tryCatch, dispatch; simpl;
     unfold handleUpdateStatus, handleUpdatePriority, handleAddComment, handleAddLabel,
       handleAssignIssue, handleUpdateDueDate, bind, lift, ret, issueNotFound;
     rewrite Hid, E; reflexivity|]).
  by apply elem_of_nil in Hin.
Qed.

Lemma unknown_issue_is_reported_by_every_tool_witness :
  executeTool Tracker.refApi "add_comment"
    (Scenarios.addLabel "yak-7" "Blocked") Scenarios.ctx0 Scenarios.tracker0
  = (inr (errorResult "Issue yak-7 not found in active issues."), Scenarios.tracker0).
Proof.
  apply (unknown_issue_is_reported_by_every_tool Tracker.refApi "add_comment"
           (Scenarios.addLabel "yak-7" "Blocked") Scenarios.ctx0 "yak-7").
  - unfold issueTools. do 2 apply list_elem_of_further. apply list_elem_of_here.
  - reflexivity.
  - intros i Hi. apply elem_of_cons in Hi as [->|Hi]; [discriminate|].
    apply list_elem_of_singleton in Hi. subst i. discriminate.
Defined.

(** X2. A tool call without [issue_identifier]: each of the six tools that
    target an issue throws a TypeError inside the handler, which
    [executeTool] returns as a Failure; no mutation is called. *)
Theorem missing_identifier_is_caught {W : Type} (api : Api W)
    (toolName : string) (input : Input) (ctx : Ctx) (w : W) :
  toolName ∈ issueTools →
  in_issue_identifier input = None →
  executeTool api toolName input ctx w
  = (inr (errorResult ("Tool " +:+ quoted toolName +:+ " failed: "
                       +:+ "Cannot read properties of undefined (reading 'toUpperCase')")),
     w).
Proof.
  intros Hin Hid. unfold issueTools in Hin.
  repeat (apply elem_of_cons in Hin as [->|Hin];
    [unfold executeTool, tryCatch, dispatch; simpl;
     unfold handleUpdateStatus, handleUpdatePriority, handleAddComment, handleAddLabel,
       handleAssignIssue, handleUpdateDueDate, bind, lift, ret;
     rewrite Hid; reflexivity|]).
  by apply elem_of_nil in Hin.
Qed.

Lemma missing_identifier_is_caught_witness :
  executeTool Tracker.refApi "assign_issue" Scenarios.noInput Scenarios.ctx0
    Scenarios.tracker0
  = (inr (errorResult ("Tool " +:+ quoted "assign_issue" +:+ " failed: "
                       +:+ "Cannot read properties of undefined (reading 'toUpperCase')")),
     Scenarios.tracker0).
Proof.
  apply (missing_identifier_is_caught Tracker.refApi "assign_issue").
  - unfold issueTools. do 4 apply list_elem_of_further. apply list_elem_of_here.
  - reflexivity.
Defined.

(** *** Status *)

(** X3. Set status on a resolved issue: the status is matched against the
    workflow state names up to letter case, first match first.  When no
    state matches, the Failure lists the names of all states and no
    mutation is called; when one does, exactly its id is sent, and what the
    mutation throws comes back as a Failure. *)
Theorem set_status_resolves_state_by_name {W : Type} (api : Api W)
    (input : Input) (ctx : Ctx) (typed status : string) (i : Issue) (w : W) :
  in_issue_identifier input = Some typed →
  in_status input = Some status →
  findIssue (Some typed) (issues ctx) = inr (Some i) →
  executeTool api "update_issue_status" input ctx w
  = match stateNamed status (states ctx) with
    | None =>
        (inr (errorResult ("State " +:+ quoted status +:+ " not found. Available: "
                           +:+ join ", " (state_name <$> states ctx))), w)
    | Some s =>
        match updateIssue api (apiKey ctx) (issue_id i)
                {| upd_stateId := Some (state_id s); upd_priority := None;
                   upd_labelIds := None; upd_assigneeId := None;
                   upd_dueDate := None |} w with
        | (inr updated, w') =>
            (inr (JObj [ ("success", JBool true);
                         ("issue", JStr (u_identifier updated));
                         ("title", JStr (u_title updated));
                         ("new_status", JStr (u_stateName updated)) ]), w')
        | (inl message, w') =>
            (inr (errorResult ("Tool " +:+ quoted "update_issue_status"
                               +:+ " failed: " +:+ message)), w')
        end
    end.
Proof.
  intros Hid Hst Hi.
  unfold executeTool, tryCatch, dispatch; simpl.
  unfold handleUpdateStatus, bind, lift. rewrite Hid, Hi, Hst, findState_named.
  destruct (stateNamed status (states ctx)) as [s|]; [|reflexivity].
  by destruct (updateIssue _ _ _ _ _) as [[e|u] w'].
Qed.

Lemma set_status_resolves_state_by_name_witness :
  executeTool Tracker.refApi "update_issue_status"
    (Scenarios.setStatus "yak-1" "Done") Scenarios.ctx0 Scenarios.tracker0
  = (inr (errorResult ("State " +:+ quoted "Done"
                       +:+ " not found. Available: Todo, In Progress")),
     Scenarios.tracker0).
Proof.
  rewrite (set_status_resolves_state_by_name Tracker.refApi
             (Scenarios.setStatus "yak-1" "Done") Scenarios.ctx0 "yak-1" "Done"
             Fixtures.yak1 Scenarios.tracker0 eq_refl eq_refl eq_refl).
  reflexivity.
Defined.

(** *** Assignee *)

Lemma includes_empty (s : string) : includes s "" = true.
Proof. destruct s; reflexivity. Qed.

Lemma assign_issue_run {W : Type} (api : Api W)
    (input : Input) (ctx : Ctx) (typed query : string) (i : Issue) (w : W) :
  in_issue_identifier input = Some typed →
  in_assignee_name input = Some query →
  findIssue (Some typed) (issues ctx) = inr (Some i) →
  executeTool api "assign_issue" input ctx w
  = match memberNamed query (members ctx) with
    | None =>
        (inr (errorResult ("Team member " +:+ quoted query +:+ " not found. Available: "
                           +:+ join ", " ((λ m, default "" (member_name m))
                                            <$> members ctx))), w)
    | Some m =>
        match updateIssue api (apiKey ctx) (issue_id i)
                {| upd_stateId := None; upd_priority := None; upd_labelIds := None;
                   upd_assigneeId := Some (member_id m); upd_dueDate := None |} w with
        | (inr updated, w') =>
            (inr (object [ ("success", Some (JBool true));
                           ("issue", Some (JStr (u_identifier updated)));
                           ("title", Some (JStr (u_title updated)));
                           ("assignee", JStr <$> u_assigneeName updated) ]), w')
        | (inl message, w') =>
            (inr (errorResult ("Tool " +:+ quoted "assign_issue"
                               +:+ " failed: " +:+ message)), w')
        end
    end.
Proof.
  intros Hid Hq Hi.
  unfold executeTool, tryCatch, dispatch; simpl.
  unfold handleAssignIssue, bind, lift. rewrite Hid, Hi, Hq. simpl.
  unfold memberNamed, find.
  destruct (List.find _ (members ctx)) as [m|]; [|reflexivity].
  by destruct (updateIssue _ _ _ _ _) as [[e|u] w'].
Qed.

(** X4. Assign on a resolved issue: the member is the first whose name or
    display name contains the query up to letter case; exactly that
    member's id is sent.  When no member matches, the Failure lists the
    members' names and no mutation is called. *)
Theorem assign_resolves_member_by_substring {W : Type} (api : Api W)
    (input : Input) (ctx : Ctx) (typed query : string) (i : Issue) (w : W) :
  in_issue_identifier input = Some typed →
  in_assignee_name input = Some query →
  findIssue (Some typed) (issues ctx) = inr (Some i) →
  executeTool api "assign_issue" input ctx w
  = match memberNamed query (members ctx) with
    | None =>
        (inr (errorResult ("Team member " +:+ quoted query +:+ " not found. Available: "
                           +:+ join ", " ((λ m, default "" (member_name m))
                                            <$> members ctx))), w)
    | Some m =>
        match updateIssue api (apiKey ctx) (issue_id i)
                {| upd_stateId := None; upd_priority := None; upd_labelIds := None;
                   upd_assigneeId := Some (member_id m); upd_dueDate := None |} w with
        | (inr updated, w') =>
            (inr (object [ ("success", Some (JBool true));
                           ("issue", Some (JStr (u_identifier updated)));
                           ("title", Some (JStr (u_title updated)));
                           ("assignee", JStr <$> u_assigneeName updated) ]), w')
        | (inl message, w') =>
            (inr (errorResult ("Tool " +:+ quoted "assign_issue"
                               +:+ " failed: " +:+ message)), w')
        end
    end.
Proof. apply assign_issue_run. Qed.

Lemma assign_resolves_member_by_substring_witness :
  executeTool Tracker.refApi "assign_issue"
    {| in_issue_identifier := Some "yak-1"; in_status := None; in_priority := None;
       in_comment := None; in_label_name := None; in_title := None;
       in_description := None; in_due_date := None; in_project_name := None;
       in_subtasks := None; in_name := None; in_assignee_name := Some "ELLIS" |}
    Scenarios.ctx0 Scenarios.tracker0
  = (inr (JObj [ ("success", JBool true); ("issue", JStr "YAK-1");
                 ("title", JStr "Fix login"); ("assignee", JStr "Zach Ellis") ]),
     (Tracker.refUpdateIssue "lin_api_key" "i-1"
        {| upd_stateId := None; upd_priority := None; upd_labelIds := None;
           upd_assigneeId := Some "m-zach"; upd_dueDate := None |}
        Scenarios.tracker0).2).
Proof.
  erewrite (assign_resolves_member_by_substring Tracker.refApi _ Scenarios.ctx0
              "yak-1" "ELLIS" Fixtures.yak1); [|reflexivity..].
  reflexivity.
Defined.

(** X5. An empty [assignee_name] is contained in every name: the issue is
    assigned to the first member of the team when that member has a name or
    a display name. *)
Theorem empty_assignee_query_picks_first_member {W : Type} (api : Api W)
    (input : Input) (ctx : Ctx) (typed : string) (i : Issue)
    (m : Member) (rest : list Member) (w : W) :
  in_issue_identifier input = Some typed →
  in_assignee_name input = Some "" →
  findIssue (Some typed) (issues ctx) = inr (Some i) →
  members ctx = m :: rest →
  is_Some (member_name m) ∨ is_Some (member_displayName m) →
  executeTool api "assign_issue" input ctx w
  = match updateIssue api (apiKey ctx) (issue_id i)
            {| upd_stateId := None; upd_priority := None; upd_labelIds := None;
               upd_assigneeId := Some (member_id m); upd_dueDate := None |} w with
    | (inr updated, w') =>
        (inr (object [ ("success", Some (JBool true));
                       ("issue", Some (JStr (u_identifier updated)));
                       ("title", Some (JStr (u_title updated)));
                       ("assignee", JStr <$> u_assigneeName updated) ]), w')
    | (inl message, w') =>
        (inr (errorResult ("Tool " +:+ quoted "assign_issue"
                           +:+ " failed: " +:+ message)), w')
    end.
Proof.
  intros Hid Hq Hi Hm Hname.
  rewrite (assign_issue_run api input ctx typed "" i w Hid Hq Hi).
  assert (memberNamed "" (members ctx) = Some m) as ->; [|done].
  rewrite Hm. unfold memberNamed; simpl.
  destruct Hname as [[n ->]|[n ->]]; simpl.
  - by rewrite includes_empty.
  - by rewrite includes_empty, orb_true_r.
Qed.

Lemma empty_assignee_query_picks_first_member_witness :
  executeTool Tracker.refApi "assign_issue"
    {| in_issue_identifier := Some "yak-2"; in_status := None; in_priority := None;
       in_comment := None; in_label_name := None; in_title := None;
       in_description := None; in_due_date := None; in_project_name := None;
       in_subtasks := None; in_name := None; in_assignee_name := Some "" |}
    Scenarios.ctx0 Scenarios.tracker0
  = (inr (JObj [ ("success", JBool true); ("issue", JStr "YAK-2");
                 ("title", JStr "Set up staging"); ("assignee", JStr "Zach Ellis") ]),
     (Tracker.refUpdateIssue "lin_api_key" "i-2"
        {| upd_stateId := None; upd_priority := None; upd_labelIds := None;
           upd_assigneeId := Some "m-zach"; upd_dueDate := None |}
        Scenarios.tracker0).2).
Proof.
  erewrite (empty_assignee_query_picks_first_member Tracker.refApi _ Scenarios.ctx0
              "yak-2" Fixtures.yak2 Fixtures.zach []); try reflexivity.
  left. by eexists.
Defined.

(** *** Due date *)

(** X6. Set due date on a resolved issue always sends a [dueDate]: [null] when
    the parameter is missing, empty or all white space, which clears the
    date; the parameter itself, untrimmed, otherwise.  The outcome reports
    the date the tracker answers with, or the word cleared when it answers
    with none. *)
Theorem due_date_blank_clears {W : Type} (api : Api W)
    (input : Input) (ctx : Ctx) (typed : string) (i : Issue) (w : W) :
  in_issue_identifier input = Some typed →
  findIssue (Some typed) (issues ctx) = inr (Some i) →
  let sent :=
    if nonBlank (default "" (in_due_date input)) then in_due_date input else None in
  (nonBlank (default "" (in_due_date input)) = false → sent = None)
  ∧ executeTool api "update_due_date" input ctx w
    = match updateIssue api (apiKey ctx) (issue_id i)
              {| upd_stateId := None; upd_priority := None; upd_labelIds := None;
                 upd_assigneeId := None; upd_dueDate := Some sent |} w with
      | (inr updated, w') =>
          (inr (JObj [ ("success", JBool true);
                       ("issue", JStr (u_identifier updated));
                       ("title", JStr (u_title updated));
                       ("due_date",
                          JStr (if truthy (u_dueDate updated)
                                then default "" (u_dueDate updated)
                                else "cleared")) ]), w')
      | (inl message, w') =>
          (inr (errorResult ("Tool " +:+ quoted "update_due_date"
                             +:+ " failed: " +:+ message)), w')
      end.
Proof.
  intros Hid Hi sent. split.
  - intros Hb. unfold sent. by rewrite Hb.
  - unfold executeTool, tryCatch, dispatch; simpl.
    unfold handleUpdateDueDate, bind, lift. rewrite Hid, Hi. fold sent.
    by destruct (updateIssue _ _ _ _ _) as [[e|u] w'].
Qed.

Lemma due_date_blank_clears_witness :
  executeTool Recorder.api "update_due_date"
    {| in_issue_identifier := Some "yak-2"; in_status := None; in_priority := None;
       in_comment := None; in_label_name := None; in_title := None;
       in_description := None; in_due_date := Some "   "; in_project_name := None;
       in_subtasks := None; in_name := None; in_assignee_name := None |}
    Scenarios.ctx0 []
  = (inr (JObj [ ("success", JBool true); ("issue", JStr "i-2"); ("title", JStr "");
                 ("due_date", JStr "cleared") ]),
     [ Recorder.UpdateIssue "i-2"
         {| upd_stateId := None; upd_priority := None; upd_labelIds := None;
            upd_assigneeId := None; upd_dueDate := Some None |} ]).
Proof.
  destruct (due_date_blank_clears Recorder.api
              {| in_issue_identifier := Some "yak-2"; in_status := None;
                 in_priority := None; in_comment := None; in_label_name := None;
                 in_title := None; in_description := None; in_due_date := Some "   ";
                 in_project_name := None; in_subtasks := None; in_name := None;
                 in_assignee_name := None |}
              Scenarios.ctx0 "yak-2" Fixtures.yak2 [] eq_refl eq_refl) as [_ ->].
  reflexivity.
Defined.

(** *** create_issue with subtasks *)

Lemma forEach_stops {W A B : Type} (f : A → M W B) (done rest : list A) (x : A)
    (ys : list B) (e : string) (w w1 w2 : W) :
  forEach f done w = (inr ys, w1) →
  f x w1 = (inl e, w2) →
  forEach f (done ++ x :: rest) w = (inl e, w2).
Proof.
  revert ys w. induction done as [|d done IH]; intros ys w Hdone Hx; simpl in *.
  - injection Hdone as <- <-. unfold bind. by rewrite Hx.
  - unfold bind in *. destruct (f d w) as [[e0|y] w0]; [done|].
    destruct (forEach f done w0) as [[e1|ys0] w3] eqn:E; [done|].
    injection Hdone as <- <-. by rewrite (IH ys0 w0 E Hx).
Qed.

(** X7. No rollback: when the parent issue has been created and the creation of
    a subtask throws, create_issue answers with a Failure and the world is
    the one that creation left: the parent and the earlier subtasks stay,
    the later subtasks are not attempted. *)
Theorem create_issue_keeps_what_was_created {W : Type} (api : Api W)
    (input : Input) (ctx : Ctx) (done rest : list Subtask) (failing : Subtask)
    (parent : CreatedIssue) (created : list JVal) (message : string)
    (w w1 w2 w3 : W) :
  in_subtasks input = Some (done ++ failing :: rest) →
  createLinearIssue api (apiKey ctx) (parentCreateInput input ctx) w = (inr parent, w1) →
  forEach (λ sub,
    bind (createLinearIssue api (apiKey ctx)
            (subtaskCreateInput ctx (c_id parent) (resolveProjectId input ctx) sub))
         (λ subIssue,
            ret (object [ ("issue", Some (JStr (c_identifier subIssue)));
                          ("title", Some (JStr (c_title subIssue)));
                          ("due_date", Some (orNull (c_dueDate subIssue))) ])))
    done w1 = (inr created, w2) →
  createLinearIssue api (apiKey ctx)
    (subtaskCreateInput ctx (c_id parent) (resolveProjectId input ctx) failing) w2
  = (inl message, w3) →
  executeTool api "create_issue" input ctx w
  = (inr (errorResult ("Tool " +:+ quoted "create_issue" +:+ " failed: " +:+ message)),
     w3).
Proof.
  intros Hsubs Hparent Hdone Hfail.
  unfold executeTool, tryCatch, dispatch; simpl.
  unfold handleCreateIssue. unfold bind at 1. rewrite Hparent, Hsubs.
  destruct (done ++ failing :: rest) as [|s0 subs] eqn:El.
  { by destruct done. }
  rewrite <- El. unfold bind at 1.
  erewrite forEach_stops; [reflexivity|exact Hdone|].
  unfold bind. by rewrite Hfail.
Qed.

(** The canned answers of the recording tracker, as a list of requests. *)
Lemma recorder_forEach (ctx : Ctx) (parentId : string) (projectId : option string)
    (subs : list Subtask) (log : list Recorder.Call) :
  ∃ ys,
    forEach (λ sub,
      bind (createLinearIssue Recorder.api (apiKey ctx)
              (subtaskCreateInput ctx parentId projectId sub))
           (λ subIssue,
              ret (object [ ("issue", Some (JStr (c_identifier subIssue)));
                            ("title", Some (JStr (c_title subIssue)));
                            ("due_date", Some (orNull (c_dueDate subIssue))) ])))
      subs log
    = (inr ys,
       log ++ ((λ sub, Recorder.CreateIssue
                         (subtaskCreateInput ctx parentId projectId sub)) <$> subs))
    ∧ length ys = length subs.
Proof.
  match goal with |- ∃ ys, forEach ?g _ _ = _ ∧ _ => set (f := g) end.
  revert log. induction subs as [|sub subs IH]; intros log.
  - exists []. by rewrite app_nil_r.
  - cbn [forEach]. unfold bind at 1.
    destruct (f sub log) as [[e|y] w0] eqn:Ef; unfold f, bind in Ef; simpl in Ef;
      [discriminate Ef|]. injection Ef as <- <-.
    unfold bind at 1.
    destruct (IH (log ++ [Recorder.CreateIssue
                            (subtaskCreateInput ctx parentId projectId sub)]))
      as (ys & -> & Hlen).
    eexists. rewrite <- (assoc_L (++)). split; [reflexivity|].
    simpl. by rewrite Hlen.
Qed.

(** X8. The requests create_issue sends, in order: one for the parent, then one
    per subtask in the order given, each naming the new parent as its
    [parentId] and carrying the team and the project the parent's lookup
    resolved; the outcome lists one entry per subtask. *)
Theorem create_issue_requests_in_order
    (input : Input) (ctx : Ctx) (log : list Recorder.Call) :
  let parentId := "new-" +:+ Recorder.ordinal log in
  let subs := default [] (in_subtasks input) in
  ∃ r,
    executeTool Recorder.api "create_issue" input ctx log
    = (inr r,
       log ++ Recorder.CreateIssue (parentCreateInput input ctx)
              :: ((λ sub, Recorder.CreateIssue
                            (subtaskCreateInput ctx parentId
                               (resolveProjectId input ctx) sub)) <$> subs))
    ∧ isSuccess r
    ∧ (subs ≠ [] →
       ∃ entries, getProp "subtasks" r = Some (JArr entries)
                  ∧ length entries = length subs)
    ∧ (subs = [] → getProp "subtasks" r = None).
Proof.
  intros parentId subs. unfold executeTool, tryCatch.
  change (dispatch Recorder.api "create_issue" input ctx)
    with (handleCreateIssue Recorder.api input ctx).
  unfold handleCreateIssue. unfold bind at 1.
  destruct (createLinearIssue Recorder.api (apiKey ctx) (parentCreateInput input ctx) log)
    as [[e|parent] w1] eqn:Ep; simpl in Ep; [discriminate Ep|].
  injection Ep as <- <-. cbn [c_id c_identifier c_title c_url c_dueDate].
  fold parentId. unfold subs.
  destruct (in_subtasks input) as [[|sub0 rest]|] eqn:Es.
  - eexists. split; [reflexivity|].
    split; [by eexists|]. split; [done|reflexivity].
  - unfold bind at 1.
    destruct (recorder_forEach ctx parentId (resolveProjectId input ctx) (sub0 :: rest)
                (log ++ [Recorder.CreateIssue (parentCreateInput input ctx)]))
      as (ys & E & Hlen).
    rewrite E. eexists. rewrite <- (assoc_L (++)). split; [reflexivity|].
    split; [by eexists|]. split; [|done].
    intros _. exists ys. split; [|exact Hlen].
    reflexivity.
  - eexists. split; [reflexivity|].
    split; [by eexists|]. split; [done|reflexivity].
Qed.

Lemma create_issue_keeps_what_was_created_witness :
  ∃ t3,
    executeTool Tracker.refApi "create_issue" Cases.createWithBadSubtask Scenarios.ctx0
      Scenarios.tracker0
    = (inr (errorResult ("Tool " +:+ quoted "create_issue"
                         +:+ " failed: Linear: Argument Validation Error")), t3)
    ∧ identifier <$> Tracker.t_issues t3 = ["YAK-1"; "YAK-2"; "YAK-3"; "YAK-4"].
Proof.
  eexists. split.
  - eapply (create_issue_keeps_what_was_created Tracker.refApi
              Cases.createWithBadSubtask Scenarios.ctx0
              [Cases.subtask (Some "Draft")] [Cases.subtask (Some "Ship")]
              (Cases.subtask None)); reflexivity.
  - reflexivity.
Defined.

Lemma create_issue_requests_in_order_witness :
  ∃ r entries,
    executeTool Recorder.api "create_issue" Cases.createWithSubtasks Scenarios.ctx0 []
    = (inr r,
       [ Recorder.CreateIssue (parentCreateInput Cases.createWithSubtasks Scenarios.ctx0);
         Recorder.CreateIssue
           (subtaskCreateInput Scenarios.ctx0 "new-0" (Some "p-portal")
              (Cases.subtask (Some "Draft")));
         Recorder.CreateIssue
           (subtaskCreateInput Scenarios.ctx0 "new-0" (Some "p-portal")
              (Cases.subtask (Some "Ship"))) ])
    ∧ getProp "subtasks" r = Some (JArr entries) ∧ length entries = 2%nat.
Proof.
  destruct (create_issue_requests_in_order Cases.createWithSubtasks Scenarios.ctx0 [])
    as (r & E & _ & Hsome & _).
  destruct Hsome as (entries & Hp & Hlen); [discriminate|].
  exists r, entries. split; [exact E|]. split; [exact Hp|exact Hlen].
Defined.

(** *** The catalog and the switch *)

Lemma create_issue_returns {W : Type} (api : Api W) (input : Input) (ctx : Ctx) (w : W) :
  (∀ key request w0, ∃ r w1, createLinearIssue api key request w0 = (inr r, w1)) →
  ∃ r w', handleCreateIssue api input ctx w = (inr r, w') ∧ isSuccess r.
Proof.
  intros Hnew. unfold handleCreateIssue, bind.
  destruct (Hnew (apiKey ctx) (parentCreateInput input ctx) w) as (parent & w1 & ->).
  destruct (in_subtasks input) as [[|sub0 subs]|];
    try (eexists _, _; split; [reflexivity|]; eexists; reflexivity).
  match goal with
  | |- context [forEach ?f ?xs ?w0] =>
      assert (Hf : ∀ x w0, ∃ y w2, f x w0 = (inr y, w2));
      [|destruct (forEach_succeeds f xs w0 Hf) as (ys & w2 & ->)]
  end.
  { intros sub w0.
    destruct (Hnew (apiKey ctx) (subtaskCreateInput ctx (c_id parent)
                      (resolveProjectId input ctx) sub) w0) as (created & w3 & E).
    unfold bind. rewrite E. by eexists _, _. }
  eexists _, _; split; [reflexivity|]; eexists; reflexivity.
Qed.

#[local] Ltac required H key :=
  match goal with
  | Hconf : ∀ k, k ∈ _ → hasParam k _ = true |- _ =>
      pose proof (Hconf key ltac:(set_solver)) as H;
      unfold hasParam in H; simpl in H; apply bool_decide_eq_true in H
  end.

#[local] Ltac settled :=
  eexists _, _; split; [reflexivity|];
  let H := fresh in intros H; cbv in H; discriminate H.

(** X9. The switch of [executeTool] has a case for every tool of the
    catalog and for no other name.  A name outside the catalog reaches the
    default arm: the outcome is the "Unknown tool" Failure and the tracker
    is untouched.  For a tool of the catalog and an input that has the
    parameters the tool requires, neither the default arm nor the catch
    clause is reached as long as the tracker's mutations return: the
    handler's own outcome is returned, and it is not the "Unknown tool"
    Failure. *)
Theorem conforming_input_is_not_thrown_on {W : Type} (api : Api W)
    (input : Input) (ctx : Ctx) (w : W) :
  (∀ name, name ∉ tool_name <$> TOOL_DEFINITIONS →
     executeTool api name input ctx w
     = (inr (errorResult ("Unknown tool: " +:+ name)), w))
  ∧ (∀ d, d ∈ TOOL_DEFINITIONS → conforms d input → Accepting api →
     ∃ r w',
       dispatch api (tool_name d) input ctx w = (inr r, w')
       ∧ executeTool api (tool_name d) input ctx w = (inr r, w')
       ∧ r ≠ errorResult ("Unknown tool: " +:+ tool_name d)).
Proof.
  split.
  { intros name Hname. unfold executeTool, tryCatch.
    by rewrite (dispatch_unknown api name input ctx Hname). }
  intros d Hd Hconf (Hupd & Hnew & Hcom & Hproj & Hlab).
  enough (∃ r w', dispatch api (tool_name d) input ctx w = (inr r, w')
                  ∧ r ≠ errorResult ("Unknown tool: " +:+ tool_name d))
    as (r & w' & E & Hr).
  { exists r, w'. split; [exact E|]. split; [|exact Hr].
    unfold executeTool, tryCatch. by rewrite E. }
  unfold conforms in Hconf. unfold TOOL_DEFINITIONS in Hd.
  repeat (apply elem_of_cons in Hd as [->|Hd]); [..|by apply elem_of_nil in Hd];
    simpl in Hconf; unfold dispatch; simpl.
  - (* update_issue_status *)
    required Hi "issue_identifier".
    required Hs "status".
    destruct Hi as [typed Hi], Hs as [status Hs].
    unfold handleUpdateStatus, bind, lift. rewrite Hi, Hs, findState_named. simpl.
    destruct (find _ (issues ctx)) as [i|]; [|settled].
    destruct (stateNamed status (states ctx)) as [s|]; [|settled].
    match goal with
    | |- context [updateIssue api ?k ?id ?inp w] =>
        destruct (Hupd k id inp w) as (u & w' & ->)
    end. settled.
  - (* update_issue_priority *)
    required Hi "issue_identifier".
    destruct Hi as [typed Hi].
    unfold handleUpdatePriority, bind, lift. rewrite Hi. simpl.
    destruct (find _ (issues ctx)) as [i|]; [|settled].
    match goal with
    | |- context [updateIssue api ?k ?id ?inp w] =>
        destruct (Hupd k id inp w) as (u & w' & ->)
    end. settled.
  - (* add_comment *)
    required Hi "issue_identifier".
    destruct Hi as [typed Hi].
    unfold handleAddComment, bind, lift. rewrite Hi. simpl.
    destruct (find _ (issues ctx)) as [i|]; [|settled].
    match goal with
    | |- context [createComment api ?k ?id ?b w] =>
        destruct (Hcom k id b w) as (u & w' & ->)
    end. settled.
  - (* add_label *)
    required Hi "issue_identifier".
    required Hn "label_name".
    destruct Hi as [typed Hi], Hn as [name Hn].
    destruct (find (λ i, String.eqb (identifier i) (toUpperCase typed)) (issues ctx))
      as [i|] eqn:Ei.
    + rewrite (LabelClaims.handleAddLabel_run api input typed name Hi Hn ctx i w)
        by (unfold findIssue, method; by rewrite Ei).
      destruct (labelNamed name (ctx_labels ctx)) as [l|].
      * destruct (existsb _ _); [settled|].
        match goal with
        | |- context [updateIssue api ?k ?id ?inp w] =>
            destruct (Hupd k id inp w) as (u & w' & ->)
        end. settled.
      * destruct (Hlab (apiKey ctx) (teamId ctx) (Some name) w) as (l & w1 & ->).
        destruct (existsb _ _); [settled|].
        match goal with
        | |- context [updateIssue api ?k ?id ?inp w1] =>
            destruct (Hupd k id inp w1) as (u & w' & ->)
        end. settled.
    + unfold handleAddLabel, bind, lift. rewrite Hi. simpl. rewrite Ei.
      settled.
  - (* create_issue *)
    destruct (create_issue_returns api input ctx w Hnew) as (r & w' & E & rest & ->).
    exists (JObj (("success", JBool true) :: rest)), w'. split; [exact E|]. discriminate.
  - (* create_project *)
    unfold handleCreateProject, bind.
    match goal with
    | |- context [createLinearProject api ?k ?n ?t ?dsc w] =>
        destruct (Hproj k n t dsc w) as (u & w' & ->)
    end. settled.
  - (* assign_issue *)
    required Hi "issue_identifier".
    required Hn "assignee_name".
    destruct Hi as [typed Hi], Hn as [query Hn].
    unfold handleAssignIssue, bind, lift. rewrite Hi, Hn. simpl.
    destruct (find _ (issues ctx)) as [i|]; [|settled].
    destruct (find _ (members ctx)) as [m|]; [|settled].
    match goal with
    | |- context [updateIssue api ?k ?id ?inp w] =>
        destruct (Hupd k id inp w) as (u & w' & ->)
    end. settled.
  - (* update_due_date *)
    required Hi "issue_identifier".
    destruct Hi as [typed Hi].
    unfold handleUpdateDueDate, bind, lift. rewrite Hi. simpl.
    destruct (find _ (issues ctx)) as [i|]; [|settled].
    match goal with
    | |- context [updateIssue api ?k ?id ?inp w] =>
        destruct (Hupd k id inp w) as (u & w' & ->)
    end. settled.
Qed.

Lemma conforming_input_is_not_thrown_on_witness :
  ∃ r w',
    dispatch Recorder.api "update_issue_status"
      (Scenarios.setStatus "yak-2" "in progress") Scenarios.ctx0 [] = (inr r, w')
    ∧ executeTool Recorder.api "update_issue_status"
        (Scenarios.setStatus "yak-2" "in progress") Scenarios.ctx0 [] = (inr r, w')
    ∧ r ≠ errorResult ("Unknown tool: " +:+ "update_issue_status").
Proof.
  apply (proj2 (conforming_input_is_not_thrown_on Recorder.api
                  (Scenarios.setStatus "yak-2" "in progress") Scenarios.ctx0 [])
           {| tool_name := "update_issue_status";
              tool_properties :=
                [("issue_identifier", "string"); ("status", "string")];
              tool_required := ["issue_identifier"; "status"] |}).
  - apply list_elem_of_here.
  - intros key Hkey. simpl in Hkey.
    apply elem_of_cons in Hkey as [->|Hkey]; [reflexivity|].
    apply elem_of_cons in Hkey as [->|Hkey]; [reflexivity|].
    by apply elem_of_nil in Hkey.
  - repeat split; intros; by eexists _, _.
Defined.

End ToolsExtras.

Module LabelExtras.
Import JsString JsArray Json Effect Linear Tools Tracker Notions EffectFacts LabelFacts
  LabelClaims.

Lemma refUpdateIssue_labels (key issueId : string) (input : IssueUpdateInput) (t : T) :
  t_labels (refUpdateIssue key issueId input t).2 = t_labels t.
Proof. unfold refUpdateIssue. by destruct (List.find _ (t_issues t)). Qed.

(** X10. add_label creates a label only when the tracker has none of that name
    up to letter case: after the turn the tracker's labels are the ones it
    had, followed by one new label of the given name in the second case. *)
Theorem add_label_creates_only_missing_labels
    (key teamKey : string) (input : Input) (typed name : string) (t : T) (i : Issue) :
  in_issue_identifier input = Some typed →
  in_label_name input = Some name →
  findIssue (Some typed) (issues (snapshot key teamKey t)) = inr (Some i) →
  ∃ r t1,
    turn key teamKey "add_label" input t = (inr r, t1)
    ∧ t_labels t1
      = match labelNamed name (t_labels t) with
        | Some _ => t_labels t
        | None =>
            t_labels t ++ [ {| label_id := "label-" +:+ showNat (t_next t);
                               label_name := name |} ]
        end.
Proof.
  intros Hid Hname Hres.
  rewrite (turn_add_label key teamKey input t). unfold tryCatch.
  rewrite (handleAddLabel_run refApi input typed name Hid Hname _ i t Hres).
  simpl ctx_labels.
  destruct (labelNamed name (t_labels t)) as [label|] eqn:Hl.
  - destruct (existsb _ _); [by eexists _, _|].
    match goal with
    | |- context [updateIssue refApi ?k ?id ?inp t] =>
        pose proof (refUpdateIssue_labels k id inp t) as Hlab;
        change (updateIssue refApi k id inp t) with (refUpdateIssue k id inp t)
    end.
    destruct (refUpdateIssue _ _ _ t) as [[e|u] t1]; simpl in Hlab; by eexists _, _.
  - set (created := {| label_id := "label-" +:+ showNat (t_next t); label_name := name |}).
    set (t' := {| t_issues := t_issues t; t_states := t_states t;
                  t_labels := t_labels t ++ [created];
                  t_projects := t_projects t; t_members := t_members t;
                  t_team := t_team t; t_comments := t_comments t;
                  t_next := S (t_next t) |}).
    change (createLabel refApi (apiKey (snapshot key teamKey t))
              (teamId (snapshot key teamKey t)) (Some name) t)
      with (inr (A := string) created, t').
    cbv beta iota.
    destruct (existsb _ _); [by eexists _, _|].
    match goal with
    | |- context [updateIssue refApi ?k ?id ?inp t'] =>
        pose proof (refUpdateIssue_labels k id inp t') as Hlab;
        change (updateIssue refApi k id inp t') with (refUpdateIssue k id inp t')
    end.
    destruct (refUpdateIssue _ _ _ t') as [[e|u] t1]; simpl in Hlab; by eexists _, _.
Qed.

Lemma add_label_creates_only_missing_labels_witness :
  ∃ r t1,
    turn "lin_api_key" "YAK" "add_label" (Scenarios.addLabel "yak-2" "URGENT")
      Scenarios.tracker0 = (inr r, t1)
    ∧ t_labels t1 = [Fixtures.bug; Fixtures.urgent].
Proof.
  apply (add_label_creates_only_missing_labels "lin_api_key" "YAK"
           (Scenarios.addLabel "yak-2" "URGENT") "yak-2" "URGENT" Scenarios.tracker0
           Fixtures.yak2); reflexivity.
Defined.

End LabelExtras.

(** ** The agent's loop and memory *)

Module AgentExtras.
Import JsString JsArray Json Effect Linear Store Agent Transcript.
Import EffectFacts ToolsFacts AgentClaims MemoryClaims.

Section Loop.
Context {W : Type} (api : Tools.Api W).
Context (callClaude : string → list Message → Exc Response).
Context (buildSystemPrompt : Tools.Ctx → string).

(** Every [tool_use] block of a response is answered by exactly one
    [tool_result], in the order of the blocks and under the block's id;
    collecting them never throws and never touches the store. *)
Lemma runToolCalls_spec (ctx : Tools.Ctx) (blocks : list Block) (w : World W) :
  ∃ results w',
    runToolCalls api ctx blocks w = (inr results, w')
    ∧ tool_use_id <$> results = omap toolUseId blocks
    ∧ kv w' = kv w.
Proof.
  unfold runToolCalls.
  set (f := λ b : Block,
         match b with
         | ToolUseBlock id name input =>
             bind (onTracker (Tools.executeTool api name input ctx))
               (λ result, ret (Some {| tool_use_id := id;
                                       result_content := stringify result |}))
         | TextBlock _ => ret None
         end).
  enough (∃ ys w', forEach f blocks w = (inr ys, w')
                   ∧ tool_use_id <$> omap (λ r, r) ys = omap toolUseId blocks
                   ∧ kv w' = kv w) as (ys & w' & E & Hids & Hkv).
  { exists (omap (λ r, r) ys), w'. unfold bind. by rewrite E. }
  revert w. induction blocks as [|b rest IH]; intros w.
  - by exists [], w.
  - cbn [forEach]. unfold bind at 1.
    assert (∃ y w1, f b w = (inr y, w1) ∧ kv w1 = kv w
                    ∧ tool_use_id <$> y = toolUseId b) as (y & w1 & -> & Hkv1 & Hy).
    { destruct b as [text|id name input]; [by eexists _, _|].
      unfold f, bind, onTracker.
      destruct (executeTool_returns api name input ctx (tracker w)) as (r & t' & ->).
      by eexists _, _. }
    unfold bind at 1. destruct (IH w1) as (ys & w2 & -> & Hids & Hkv2).
    eexists _, _. split; [reflexivity|]. split; [|congruence].
    cbn [omap list_omap]. rewrite <- Hy.
    destruct y as [y|]; cbn [fmap option_fmap option_map]; [|exact Hids].
    rewrite fmap_cons. by f_equal.
Qed.

Lemma toolLoop_kv (system : string) (ctx : Tools.Ctx) :
  ∀ (fuel : nat) (st : LoopState) (w : World W) r w',
    toolLoop api callClaude fuel system ctx st w = (r, w') → kv w' = kv w.
Proof.
  induction fuel as [|fuel IH]; intros st w r w'; simpl.
  - destruct (_ && _); by intros [= <- <-].
  - destruct (_ && _); [|by intros [= <- <-]].
    unfold bind at 1.
    destruct (runToolCalls_spec ctx (content (response st)) w)
      as (results & w1 & -> & _ & Hkv).
    unfold bind at 1, lift at 1.
    destruct (callClaude system _) as [e|r1]; [by intros [= <- <-]|].
    intros H. apply IH in H. congruence.
Qed.

Lemma getHistory_stored (w : World W) : getHistory w = (inr (storedHistory w), w).
Proof.
  unfold getHistory, storedHistory. by destruct (kv w !! HISTORY_KEY) as [[| |]|].
Qed.


Lemma runAgent_store (fuel : nat) (userMessage : string)
    (ctx : Tools.Ctx) (w : World W) :
  match runAgent api callClaude buildSystemPrompt fuel userMessage ctx w with
  | (inr (Some text), w') =>
      kv w' = <[HISTORY_KEY := KHistory (trimmed (storedHistory w) userMessage text)]> (kv w)
      ∧ text ≠ ""
  | (_, w') => kv w' = kv w
  end.
Proof.
  unfold runAgent, bind at 1. rewrite getHistory_stored.
  unfold bind at 1, lift at 1.
  destruct (callClaude _ _) as [e|first]; [done|].
  unfold bind at 1.
  destruct (toolLoop _ _ _ _ _ _ _) as [[e|[st|]] w1] eqn:E;
    apply toolLoop_kv in E; [done| |done].
  unfold bind, saveHistory, ret. cbn [kv]. rewrite E.
  split; [done|apply finalText_nonempty].
Qed.

Lemma runAgent_fuel_suffices (fuel : nat) (userMessage : string)
    (ctx : Tools.Ctx) (w w' : World W) :
  (MAX_ITERATIONS ≤ fuel)%nat →
  runAgent api callClaude buildSystemPrompt fuel userMessage ctx w ≠ (inr None, w').
Proof.
  intros Hfuel. unfold runAgent, bind at 1. rewrite getHistory_stored.
  unfold bind at 1, lift at 1.
  destruct (callClaude _ _) as [e|first]; [done|].
  unfold bind at 1.
  destruct (toolLoop _ _ _ _ _ _ _) as [[e|[st|]] w1] eqn:E; [done|done|].
  by apply (toolLoop_fuel_suffices api callClaude _ _ MAX_ITERATIONS) in E.
Qed.

(** X11. [runAgent] writes the store once, at its end: a run that returns a text
    has appended the exchange to the conversation it read, and the text is
    not empty; a run that throws leaves the store as it was, whatever the
    tools did to the tracker before. *)
Theorem history_is_saved_only_on_success (fuel : nat) (userMessage : string)
    (ctx : Tools.Ctx) (w : World W) :
  match runAgent api callClaude buildSystemPrompt fuel userMessage ctx w with
  | (inr (Some text), w') =>
      kv w' = <[HISTORY_KEY := KHistory (trimmed (storedHistory w) userMessage text)]> (kv w)
      ∧ text ≠ ""
  | (_, w') => kv w' = kv w
  end.
Proof. exact (runAgent_store fuel userMessage ctx w). Qed.

(** X12. When the first response does not stop for a tool, no tool runs: the
    tracker is as before, the answer is that response's text, and the
    exchange is appended to the memory; no fuel is needed. *)
Theorem plain_answer_runs_no_tool (fuel : nat) (userMessage : string)
    (ctx : Tools.Ctx) (w : World W) (first : Response) :
  callClaude (buildSystemPrompt ctx)
    ((ofTurn <$> storedHistory w) ++ [ {| role := User; body := Plain userMessage |} ])
  = inr first →
  stop_reason first ≠ "tool_use" →
  runAgent api callClaude buildSystemPrompt fuel userMessage ctx w
  = (inr (Some (finalText first)),
     {| tracker := tracker w;
        kv := <[HISTORY_KEY :=
                  KHistory (trimmed (storedHistory w) userMessage (finalText first))]>
                (kv w) |}).
Proof.
  intros Hfirst Hstop.
  unfold runAgent, bind at 1. rewrite getHistory_stored.
  unfold bind at 1, lift at 1. rewrite Hfirst.
  apply String.eqb_neq in Hstop.
  unfold bind at 1. destruct fuel; simpl; by rewrite Hstop.
Qed.

(** X13. What the loop leaves behind when it ends: it stopped because the last
    response did not ask for a tool or because the ceiling was reached; it
    never passes the ceiling; and [messages] has grown by one assistant
    message and one user message per iteration, the user message answering
    the tool calls of the assistant message. *)
Theorem loop_transcript (system : string) (ctx : Tools.Ctx) (fuel : nat)
    (st : LoopState) (w : World W) (st' : LoopState) (w' : World W) :
  toolLoop api callClaude fuel system ctx st w = (inr (Some st'), w') →
  (stop_reason (response st') ≠ "tool_use" ∨ (MAX_ITERATIONS ≤ iterations st')%nat)
  ∧ (iterations st ≤ iterations st')%nat
  ∧ ((iterations st ≤ MAX_ITERATIONS)%nat → (iterations st' ≤ MAX_ITERATIONS)%nat)
  ∧ ∃ rounds : list (list Block * list ToolResult),
      length rounds = (iterations st' - iterations st)%nat
      ∧ messages st' = messages st ++ (rounds ≫= λ r, exchange r.1 r.2)
      ∧ Forall Answers rounds
      ∧ (∀ r, head rounds = Some r → r.1 = content (response st)).
Proof.
  revert st w. induction fuel as [|fuel IH]; intros st w; simpl.
  - destruct (String.eqb _ _) eqn:Es, (_ <? _)%nat eqn:El; simpl; try done;
      intros [= <- <-]; (split; [|split; [lia|split; [done|]]]);
      try (exists []; rewrite Nat.sub_diag, app_nil_r; by repeat split).
    + right. apply Nat.ltb_ge in El. done.
    + left. by apply String.eqb_neq.
    + left. by apply String.eqb_neq.
  - destruct (String.eqb _ _) eqn:Es, (_ <? _)%nat eqn:El; simpl;
      try (intros [= <- <-]; (split; [|split; [lia|split; [done|]]]);
           try (exists []; rewrite Nat.sub_diag, app_nil_r; by repeat split);
           first [ right; apply Nat.ltb_ge in El; done
                 | left; by apply String.eqb_neq ]).
    unfold bind at 1.
    destruct (runToolCalls_spec ctx (content (response st)) w)
      as (results & w1 & -> & Hids & _).
    unfold bind at 1, lift at 1.
    destruct (callClaude system _) as [e|r1]; [done|].
    intros H. apply IH in H as (Hexit & Hle & Hmax & rounds & Hlen & Hmsgs & Hall & _).
    cbn [iterations messages response] in *. apply Nat.ltb_lt in El.
    split; [done|]. split; [lia|]. split; [intros _; apply Hmax; lia|].
    exists ((content (response st), results) :: rounds).
    split; [simpl; lia|]. split.
    { rewrite Hmsgs, <- (assoc_L (++)). done. }
    split; [by constructor|]. by intros r [= <-].
Qed.

End Loop.

Lemma plain_answer_runs_no_tool_witness :
  runAgent Tracker.refApi plainModel Scenarios.samplePrompt 0
    "What is due today?" Scenarios.ctx0 Scenarios.agentWorld0
  = (inr (Some "Nothing is due today."),
     {| tracker := Scenarios.tracker0;
        kv := {[ HISTORY_KEY :=
                   KHistory (latest "What is due today?" "Nothing is due today.") ]} |}).
Proof.
  rewrite (plain_answer_runs_no_tool Tracker.refApi plainModel Scenarios.samplePrompt 0
             "What is due today?" Scenarios.ctx0 Scenarios.agentWorld0
             {| stop_reason := "end_turn";
                content := [ TextBlock "Nothing is due today." ] |}
             eq_refl ltac:(discriminate)).
  reflexivity.
Defined.

Lemma loop_transcript_witness :
  let st :=
    {| response := {| stop_reason := "tool_use";
                      content := [ ToolUseBlock "toolu_01" "update_issue_status"
                                     (Scenarios.setStatus "YAK-1" "In Progress") ] |};
       messages := [ {| role := User; body := Plain "YAK-1 is in progress" |} ];
       iterations := 0 |} in
  ∃ st' w',
    toolLoop Tracker.refApi onceModel 10 "system" Scenarios.ctx0 st Scenarios.agentWorld0
    = (inr (Some st'), w')
    ∧ (stop_reason (response st') ≠ "tool_use" ∨ (MAX_ITERATIONS ≤ iterations st')%nat)
    ∧ (iterations st ≤ iterations st')%nat
    ∧ ((iterations st ≤ MAX_ITERATIONS)%nat → (iterations st' ≤ MAX_ITERATIONS)%nat)
    ∧ ∃ rounds : list (list Block * list ToolResult),
        length rounds = (iterations st' - iterations st)%nat
        ∧ messages st' = messages st ++ (rounds ≫= λ r, exchange r.1 r.2)
        ∧ Forall Answers rounds
        ∧ (∀ r, head rounds = Some r → r.1 = content (response st)).
Proof.
  intros st. eexists _, _. split; [vm_compute; reflexivity|].
  eapply (loop_transcript Tracker.refApi onceModel "system" Scenarios.ctx0 10 st
            Scenarios.agentWorld0).
  vm_compute. reflexivity.
Defined.

End AgentExtras.

Module MemoryExtras.
Import JsString JsArray Effect Store Agent Transcript MemoryClaims.

(** X14. Whatever the store held, the array [saveHistory] writes ends with the
    exchange just made, and what precedes it is the tail of the earlier
    conversation, at most 38 entries of it. *)
Theorem latest_exchange_is_kept_last (existing : list Turn) (u a : string) :
  ∃ front,
    trimmed existing u a = front ++ latest u a
    ∧ front `suffix_of` existing
    ∧ (length front ≤ 2 * MAX_HISTORY_PAIRS - 2)%nat.
Proof.
  unfold trimmed, sliceLast. fold (latest u a).
  rewrite length_app. change (length (latest u a)) with 2%nat.
  set (k := (length existing + 2 - MAX_HISTORY_PAIRS * 2)%nat).
  assert (Hk : (k ≤ length existing)%nat) by (unfold k, MAX_HISTORY_PAIRS; lia).
  exists (drop k existing). split; [by rewrite drop_app_le|]. split.
  - exists (take k existing). by rewrite take_drop.
  - rewrite length_drop. unfold k, MAX_HISTORY_PAIRS. lia.
Qed.

(** X15. A store that holds whole exchanges still holds whole exchanges after a
    turn: the last MAX_HISTORY_PAIRS of them, the new one included.  The
    trim never cuts an exchange in two. *)
Theorem whole_exchanges_stay_whole {W : Type} (w : World W)
    (pairs : list (string * string)) (u a : string) :
  storedHistory w = turnsOf pairs →
  storedHistory (remember u a w).2
  = turnsOf (sliceLast MAX_HISTORY_PAIRS (pairs ++ [(u, a)])).
Proof.
  intros Hstored. rewrite remember_stored, Hstored. unfold trimmed.
  change (MAX_HISTORY_PAIRS * 2)%nat with (2 * MAX_HISTORY_PAIRS)%nat.
  rewrite <- turnsOf_sliceLast, turnsOf_app. done.
Qed.

Lemma whole_exchanges_stay_whole_witness :
  storedHistory
    (remember "question 23" "answer 23"
       (rememberAll Scenarios.exchanges Scenarios.emptyAgentWorld)).2
  = turnsOf (sliceLast MAX_HISTORY_PAIRS
               (sliceLast MAX_HISTORY_PAIRS Scenarios.exchanges
                ++ [("question 23", "answer 23")])).
Proof.
  apply (whole_exchanges_stay_whole
           (rememberAll Scenarios.exchanges Scenarios.emptyAgentWorld)
           (sliceLast MAX_HISTORY_PAIRS Scenarios.exchanges)
           "question 23" "answer 23").
  vm_compute. reflexivity.
Defined.

End MemoryExtras.

(** ** The scheduled briefing, run after run *)

Module BriefingExtras.
Import JsString JsArray Json Effect Linear Store Briefing Schedule BriefingClaims.

Section Runs.
Context (localeCompare : string → string → Z) (sha256Hex : string → string).
Context (generateBriefing : list Issue → Exc string).

#[local] Abbreviation run :=
  (handleDailyBriefing localeCompare sha256Hex generateBriefing).
#[local] Abbreviation fingerprint := (hashIssues localeCompare sha256Hex).

Lemma run_outcome (fetched : Exc (list Issue))
    (today : string) (w : World) :
  match run fetched today w with
  | (inr _, w') =>
      (∃ text, sent w' = sent w ++ [text])
      ∧ (∀ key, key ≠ CACHE_KEY → kv w' !! key = kv w !! key)
  | (inl e, w') =>
      w' = w ∧ ∃ issues, fetched = inr issues ∧ generateBriefing issues = inl e
  end.
Proof.
  unfold handleDailyBriefing.
  destruct fetched as [message|issues]; [by split; [eexists|]|].
  destruct (length issues =? 0)%nat; [by split; [eexists|]|].
  unfold bind at 1, readCache.
  destruct (kv w !! CACHE_KEY) as [[turns|c|]|] eqn:Ekv;
    try destruct (bool_decide _);
    unfold bind, kvPut, sendMessage, lift; cbn [kv sent];
    try (destruct (generateBriefing issues) as [e|text] eqn:Egen;
         [destruct w; split; [done|by exists issues]|]);
    (split; [by eexists|]); intros key Hkey; cbn [kv];
    by rewrite lookup_insert_ne.
Qed.

(** X16. A run hands exactly one text to [sendMessage] and touches no key of the
    store but the cache record; or it throws, which only the generator can
    cause, and then neither the store nor the outbox has changed. *)
Theorem run_sends_once_or_changes_nothing (fetched : Exc (list Issue))
    (today : string) (w : World) :
  match run fetched today w with
  | (inr _, w') =>
      (∃ text, sent w' = sent w ++ [text])
      ∧ (∀ key, key ≠ CACHE_KEY → kv w' !! key = kv w !! key)
  | (inl e, w') =>
      w' = w ∧ ∃ issues, fetched = inr issues ∧ generateBriefing issues = inl e
  end.
Proof. exact (run_outcome fetched today w). Qed.

(** X17. Run after run over an unchanged snapshot: the generator is never
    consulted, each run counts one more, the stored briefing stays, and the
    run that finds the count at [k] sends the stored briefing while
    [k + 1 < 3] and the escalation from then on, every time. *)
Theorem unchanged_runs_follow_the_count (issues : list Issue) (today : nat → string)
    (c : CacheRecord) (n : nat) (w : World) :
  issues ≠ [] →
  kv w !! CACHE_KEY = Some (KCache c) →
  hash c = Some (fingerprint issues) →
  let w' := runs localeCompare sha256Hex generateBriefing n issues today w in
  sent w' = sent w ++ (reminder c <$> seq (default 0%nat (unchangedDays c)) n)
  ∧ ∃ c', kv w' !! CACHE_KEY = Some (KCache c')
          ∧ hash c' = hash c
          ∧ briefing c' = briefing c
          ∧ default 0%nat (unchangedDays c') = (default 0%nat (unchangedDays c) + n)%nat.
Proof.
  intros Hne Hkv Hhash w'. unfold w'. clear w'.
  induction n as [|n (Hsent & c' & Hkv' & Hh & Hb & Hd)]; cbn [runs].
  - cbn [seq fmap list_fmap]. rewrite app_nil_r. split; [done|]. exists c. by rewrite Nat.add_0_r.
  - rewrite (run_unchanged _ _ _ issues (today n) c' _ Hne Hkv') by congruence.
    cbn [snd kv sent]. split.
    + rewrite Hsent, seq_S, fmap_app, (assoc_L (++)). do 2 f_equal.
      unfold reminder. by rewrite Hd, Hb.
    + eexists. rewrite lookup_insert_eq. split; [done|].
      cbn [hash briefing unchangedDays from_option]. rewrite Hd.
      split; [done|]. split; [done|]. unfold id. lia.
Qed.

(** X18. A run that returns over a snapshot with issues leaves a record under
    the snapshot's fingerprint, so the next run over the same snapshot is
    served from the record, whatever has become of the generator: it sends
    the stored briefing or the escalation. *)
Theorem rerun_is_served_from_the_record (other : list Issue → Exc string)
    (issues : list Issue) (today today' : string) (w w1 : World) :
  issues ≠ [] →
  run (inr issues) today w = (inr tt, w1) →
  ∃ c, kv w1 !! CACHE_KEY = Some (KCache c)
       ∧ hash c = Some (fingerprint issues)
       ∧ lastRun c = today
       ∧ handleDailyBriefing localeCompare sha256Hex other (inr issues) today' w1
         = (inr tt,
            {| kv := <[CACHE_KEY :=
                         KCache {| hash := hash c; briefing := briefing c;
                                   unchangedDays :=
                                     Some (default 0%nat (unchangedDays c) + 1)%nat;
                                   lastRun := today' |}]> (kv w1);
               sent := sent w1 ++ [reminder c (default 0%nat (unchangedDays c))] |}).
Proof.
  intros Hne Hrun.
  assert (∃ c, kv w1 !! CACHE_KEY = Some (KCache c)
               ∧ hash c = Some (fingerprint issues) ∧ lastRun c = today)
    as (c & Hkv & Hhash & Hlast).
  { revert Hrun. unfold handleDailyBriefing.
    destruct issues as [|i rest]; [done|].
    remember (fingerprint (i :: rest)) as h eqn:Eh.
    cbn [length Nat.eqb]. unfold bind at 1, readCache.
    destruct (kv w !! CACHE_KEY) as [[turns|c|]|];
      try destruct (bool_decide _);
      unfold bind, kvPut, sendMessage, lift; cbn [kv sent];
      try destruct (generateBriefing (i :: rest)); try done;
      intros [= <-]; eexists; cbn [kv]; by rewrite lookup_insert_eq. }
  exists c. split; [done|]. split; [done|]. split; [done|].
  by rewrite (run_unchanged _ _ other issues today' c w1 Hne Hkv Hhash).
Qed.

End Runs.

Lemma unchanged_runs_follow_the_count_witness :
  let w' := runs Fixtures.sampleCollation Fixtures.sampleDigest unreachable 5
              [Fixtures.yak1; Fixtures.yak2] Scenarios.dates Scenarios.cachedWorld in
  sent w' = sent Scenarios.cachedWorld
            ++ (reminder Scenarios.cachedRecord <$> seq 0%nat 5)
  ∧ ∃ c', kv w' !! CACHE_KEY = Some (KCache c')
          ∧ hash c' = hash Scenarios.cachedRecord
          ∧ briefing c' = briefing Scenarios.cachedRecord
          ∧ default 0%nat (unchangedDays c') = (0 + 5)%nat.
Proof.
  apply (unchanged_runs_follow_the_count Fixtures.sampleCollation Fixtures.sampleDigest
           unreachable [Fixtures.yak1; Fixtures.yak2] Scenarios.dates
           Scenarios.cachedRecord 5 Scenarios.cachedWorld).
  - discriminate.
  - reflexivity.
  - reflexivity.
Defined.

Lemma rerun_is_served_from_the_record_witness :
  ∃ c, kv (handleDailyBriefing Fixtures.sampleCollation Fixtures.sampleDigest
             Scenarios.sampleBriefing (inr [Fixtures.yak1; Fixtures.yak2])
             "2026-01-11" Scenarios.freshWorld).2 !! CACHE_KEY = Some (KCache c)
       ∧ hash c = Some (hashIssues Fixtures.sampleCollation Fixtures.sampleDigest
                          [Fixtures.yak1; Fixtures.yak2])
       ∧ lastRun c = "2026-01-11".
Proof.
  destruct (rerun_is_served_from_the_record Fixtures.sampleCollation
              Fixtures.sampleDigest Scenarios.sampleBriefing unreachable
              [Fixtures.yak1; Fixtures.yak2] "2026-01-11" "2026-01-12"
              Scenarios.freshWorld
              (handleDailyBriefing Fixtures.sampleCollation Fixtures.sampleDigest
                 Scenarios.sampleBriefing (inr [Fixtures.yak1; Fixtures.yak2])
                 "2026-01-11" Scenarios.freshWorld).2
              ltac:(discriminate) eq_refl)
    as (c & Hkv & Hhash & Hlast & _).
  exists c. split; [exact Hkv|]. split; [exact Hhash|exact Hlast].
Defined.

End BriefingExtras.

(** ** The file-based job *)

Module ScriptExtras.
Import JsString JsArray Json Effect Linear Store Fingerprint Script Enrich.
Import SortFacts ScriptFacts.

Lemma archive_is_not_latest (today : string) :
  "briefing/archive/" +:+ today +:+ ".txt" ≠ "briefing/latest.txt".
Proof. discriminate. Qed.

Section Main.
Context (localeCompare : string → string → Z) (sha256Hex : string → string).
Context (generateBriefing : list Enriched → Exc string).

#[local] Abbreviation job := (main localeCompare sha256Hex generateBriefing).


(** X20. Unlike the worker, the job forgets the fingerprint on a day without
    issues: the next run with issues calls the generator, also when the
    snapshot is the one the cache was written for. *)
Theorem job_regenerates_after_a_day_without_issues (issues : list Enriched)
    (today today' text : string) (w : World) :
  issues ≠ [] →
  generateBriefing issues = inr text →
  ∃ w',
    job issues today' (job [] today w).2 = (inr tt, w')
    ∧ latestText w' = Some text
    ∧ cacheFile w'
      = Some {| hash := Some (hashIssues localeCompare sha256Hex issues);
                briefing := text; unchangedDays := Some 0%nat; lastRun := today' |}.
Proof.
  intros Hne Hgen. destruct issues as [|i rest]; [done|].
  remember (i :: rest) as issues eqn:Ei.
  unfold main at 1. rewrite Ei. cbn [length Nat.eqb]. rewrite <- Ei.
  unfold bind at 1, readCache. cbn [snd main length Nat.eqb bind save writeFileSync
    writeCache cacheFile fst].
  unfold bind at 1, lift at 1. rewrite Hgen.
  eexists. split; [reflexivity|]. split; [|reflexivity].
  unfold latestText. cbn.
  rewrite lookup_insert_ne by apply archive_is_not_latest.
  by rewrite lookup_insert_eq.
Qed.

End Main.

Lemma orElse_truthy (value : option string) (fallback : string) :
  truthy value = true → Some (orElse value fallback) = value.
Proof.
  destruct value as [v|]; [|done]. simpl. by destruct (String.eqb v "").
Qed.

Lemma orElse_falsy (value : option string) (fallback : string) :
  truthy value = false → orElse value fallback = fallback.
Proof.
  destruct value as [v|]; [|done]. simpl. by destruct (String.eqb v "").
Qed.

Lemma normalize_enrich (i : Issue) :
  Populated i → Script.normalize (enrich i) = Fingerprint.normalize i.
Proof.
  intros (Hs & Hp & Ha). unfold Script.normalize, Fingerprint.normalize, enrich.
  cbn [e_identifier e_status e_priority e_assignee e_project e_labels e_dueDate].
  by rewrite (orElse_truthy _ _ Hs), (orElse_truthy _ _ Hp), (orElse_truthy _ _ Ha).
Qed.

(** The two printers agree on a record with a due date. *)
Lemma toJson_dated (n : Normalized) :
  is_Some (n_dueDate n) → Script.toJson n = Fingerprint.toJson n.
Proof. intros [d Hd]. unfold Script.toJson, Fingerprint.toJson. by rewrite Hd. Qed.

Lemma complete_fingerprint
    (localeCompare : string → string → Z) (sha256Hex : string → string)
    (issues : list Issue) :
  Forall Complete issues →
  Script.hashIssues localeCompare sha256Hex (fetchLinearIssues issues)
  = Briefing.hashIssues localeCompare sha256Hex issues.
Proof.
  intros Hall. unfold Script.hashIssues, Briefing.hashIssues, Fingerprint.hashIssues,
    Script.serialized, Fingerprint.serialized, Fingerprint.normalized, fetchLinearIssues.
  assert (E : Script.normalize <$> (enrich <$> issues) = Fingerprint.normalize <$> issues).
  { rewrite <- list_fmap_compose. apply Forall_fmap_ext_1.
    eapply Forall_impl; [exact Hall|]. intros i [Hi _]. by apply normalize_enrich. }
  rewrite E. do 3 f_equal. apply Forall_fmap_ext_1.
  rewrite (sort_perm (byId localeCompare) (Fingerprint.normalize <$> issues)).
  apply Forall_fmap. eapply Forall_impl; [exact Hall|].
  intros i [_ Hd]. by apply toJson_dated.
Qed.

(** X21. The job and the worker serialize an issue to the same object
    exactly when the issue has a state, a project and an assignee with a
    name, and a due date: the job fills a missing name in with a
    placeholder where the worker leaves the property out, and leaves a
    missing due date out where the worker prints null.  On snapshots of
    such issues the two fingerprints are equal. *)
Theorem fingerprints_agree_on_complete_issues
    (localeCompare : string → string → Z) (sha256Hex : string → string) :
  (∀ i, Script.toJson (Script.normalize (enrich i))
        = Fingerprint.toJson (Fingerprint.normalize i) ↔ Complete i)
  ∧ (∀ issues,
       Forall Complete issues →
       Script.hashIssues localeCompare sha256Hex (fetchLinearIssues issues)
       = Fingerprint.hashIssues localeCompare sha256Hex issues).
Proof.
  split; [|intros issues Hall;
           exact (complete_fingerprint localeCompare sha256Hex issues Hall)].
  intros i. split.
  - assert (Hno : ∀ name fallback,
              fallback ≠ "" → orElse (Some name) fallback = name →
              truthy (Some name) = true).
    { intros name fallback Hfb. simpl.
      destruct (String.eqb_spec name "") as [->|]; [|done]. intros ->. done. }
    unfold Complete, Populated, Script.toJson, Fingerprint.toJson,
      Script.normalize, Fingerprint.normalize, enrich.
    cbn [e_identifier e_status e_priority e_assignee e_project e_labels e_dueDate
         n_id n_status n_priority n_assignee n_project n_labels n_dueDate].
    destruct (state i) as [st|], (project i) as [pr|], (assignee i) as [a|],
      (dueDate i) as [d|]; intros H; try discriminate H.
    injection H as Hs Ha Hp.
    split; [|by eexists]. split; [|split]; eapply Hno; try eassumption; discriminate.
  - intros [Hp Hd]. rewrite (normalize_enrich i Hp). by apply toJson_dated.
Qed.

(** X22. The worker's scheduled run follows the job's logic: on a snapshot with
    issues, all of them with state, project, assignee and due date, and
    from the same cache record, the two end the same way, send and write
    the same text, and leave the same record. *)
Theorem job_and_worker_agree
    (localeCompare : string → string → Z) (sha256Hex : string → string)
    (generateW : list Issue → Exc string) (generateS : list Enriched → Exc string)
    (issues : list Issue) (today : string) (w : Briefing.World) (s : World) :
  issues ≠ [] →
  Forall Complete issues →
  workerRecord w = cacheFile s →
  generateW issues = generateS (fetchLinearIssues issues) →
  ∃ r w' s',
    Briefing.handleDailyBriefing localeCompare sha256Hex generateW (inr issues) today w
    = (r, w')
    ∧ main localeCompare sha256Hex generateS (fetchLinearIssues issues) today s = (r, s')
    ∧ workerRecord w' = cacheFile s'
    ∧ (r = inr tt → last (Briefing.sent w') = latestText s').
Proof.
  intros Hne Hall Hrec Hgen.
  unfold Briefing.handleDailyBriefing, main.
  rewrite (complete_fingerprint localeCompare sha256Hex issues Hall).
  destruct issues as [|i rest]; [done|].
  remember (i :: rest) as issues eqn:Ei.
  assert (Hlen : (length issues =? 0)%nat = false) by (by rewrite Ei).
  assert (Hlen' : (length (fetchLinearIssues issues) =? 0)%nat = false)
    by (by rewrite Ei).
  rewrite Hlen, Hlen', <- Hgen.
  remember (Briefing.hashIssues localeCompare sha256Hex issues) as h eqn:Eh.
  destruct s as [files0 cache0]. cbn [cacheFile] in Hrec. subst cache0.
  assert (Hlatest : ∀ text,
            (<["briefing/archive/" +:+ today +:+ ".txt" := text]>
               (<["briefing/latest.txt" := text]> files0) : gmap string string)
            !! "briefing/latest.txt" = Some text).
  { intros text.
    rewrite lookup_insert_ne by apply archive_is_not_latest.
    by rewrite lookup_insert_eq. }
  unfold bind, Briefing.readCache, readCache, lift, Briefing.kvPut,
    Briefing.sendMessage, save, writeFileSync, writeCache, latestText.
  cbn [Briefing.kv Briefing.sent files cacheFile].
  unfold bind. cbn [Briefing.kv Briefing.sent files cacheFile].
  unfold workerRecord at 1 2 3 4.
  destruct (Briefing.kv w !! Briefing.CACHE_KEY) as [[turns|c|]|] eqn:Ekv;
    try destruct (bool_decide _);
    try destruct (generateW issues) as [e|text];
    eexists _, _, _; (split; [reflexivity|]); (split; [reflexivity|]);
    unfold workerRecord; cbn [Briefing.kv Briefing.sent files cacheFile];
    rewrite ?Ekv, ?lookup_insert_eq; (split; [done|]); try done;
    intros _; by rewrite last_snoc, Hlatest.
Qed.

Lemma script_order_witness :
  hashIssues codeUnitCompare Fixtures.sampleDigest
    (fetchLinearIssues [Fixtures.yak1; Fixtures.yak2])
  = hashIssues codeUnitCompare Fixtures.sampleDigest
      (fetchLinearIssues [Fixtures.yak2; Fixtures.yak1]).
Proof.
  apply (script_hashIssues_order_independent codeUnitCompare Fixtures.sampleDigest
           (fetchLinearIssues [Fixtures.yak1; Fixtures.yak2])
           (fetchLinearIssues [Fixtures.yak2; Fixtures.yak1])).
  - exact codeUnitCompare_consistent.
  - intros i j Hi Hj. vm_compute in Hi, Hj.
    apply elem_of_cons in Hi as [->|Hi]; apply elem_of_cons in Hj as [->|Hj];
      try (apply elem_of_cons in Hi as [->|Hi]; [|by apply elem_of_nil in Hi]);
      try (apply elem_of_cons in Hj as [->|Hj]; [|by apply elem_of_nil in Hj]);
      vm_compute; by intros.
  - apply Permutation_swap.
Defined.

Lemma job_regenerates_after_a_day_without_issues_witness :
  ∃ w',
    main codeUnitCompare Fixtures.sampleDigest sampleScriptBriefing
      (fetchLinearIssues [yak3]) "2026-01-12"
      (main codeUnitCompare Fixtures.sampleDigest sampleScriptBriefing [] "2026-01-11"
         (scriptWorld None)).2 = (inr tt, w')
    ∧ latestText w' = Some "TOP PRIORITY - YAK-3 ship the portal"
    ∧ cacheFile w'
      = Some {| hash := Some (hashIssues codeUnitCompare Fixtures.sampleDigest
                                (fetchLinearIssues [yak3]));
                briefing := "TOP PRIORITY - YAK-3 ship the portal";
                unchangedDays := Some 0%nat; lastRun := "2026-01-12" |}.
Proof.
  apply (job_regenerates_after_a_day_without_issues codeUnitCompare Fixtures.sampleDigest
           sampleScriptBriefing (fetchLinearIssues [yak3]) "2026-01-11" "2026-01-12"
           "TOP PRIORITY - YAK-3 ship the portal" (scriptWorld None)).
  - discriminate.
  - reflexivity.
Defined.

Lemma fingerprints_agree_on_complete_issues_witness :
  Script.hashIssues codeUnitCompare Fixtures.sampleDigest (fetchLinearIssues [yak3])
  = Fingerprint.hashIssues codeUnitCompare Fixtures.sampleDigest [yak3].
Proof.
  apply (proj2 (fingerprints_agree_on_complete_issues codeUnitCompare
                  Fixtures.sampleDigest) [yak3]).
  repeat constructor. by eexists.
Defined.

Lemma job_and_worker_agree_witness :
  ∃ r w' s',
    Briefing.handleDailyBriefing codeUnitCompare Fixtures.sampleDigest
      sampleWorkerBriefing (inr [yak3]) "2026-01-12" Scenarios.freshWorld = (r, w')
    ∧ main codeUnitCompare Fixtures.sampleDigest sampleScriptBriefing
        (fetchLinearIssues [yak3]) "2026-01-12" (scriptWorld None) = (r, s')
    ∧ workerRecord w' = cacheFile s'
    ∧ (r = inr tt → last (Briefing.sent w') = latestText s').
Proof.
  apply (job_and_worker_agree codeUnitCompare Fixtures.sampleDigest
           sampleWorkerBriefing sampleScriptBriefing [yak3] "2026-01-12"
           Scenarios.freshWorld (scriptWorld None)).
  - discriminate.
  - repeat constructor. by eexists.
  - reflexivity.
  - reflexivity.
Defined.

End ScriptExtras.

(** ** Splitting and sending messages *)

Module TelegramFacts.
Import JsString Json Effect Telegram.
#[local] Arguments String.append : simpl nomatch.

Lemma length_sliceTo (n : nat) (s : string) :
  (n ≤ String.length s)%nat → String.length (sliceTo n s) = n.
Proof.
  revert s. induction n as [|n IH]; intros [|c t] H; simpl in *; try done; [lia|].
  rewrite IH; [done|lia].
Qed.

Lemma length_sliceFrom (n : nat) (s : string) :
  String.length (sliceFrom n s) = (String.length s - n)%nat.
Proof.
  revert s. induction n as [|n IH]; intros [|c t]; simpl; try done; lia.
Qed.

Lemma slice_app (n : nat) (s : string) : sliceTo n s +:+ sliceFrom n s = s.
Proof.
  revert s. induction n as [|n IH]; intros [|c t]; simpl; try done. by rewrite IH.
Qed.

Lemma length_trimStart (s : string) :
  (String.length (trimStart s) ≤ String.length s)%nat.
Proof.
  induction s as [|c t IH]; simpl; [done|]. destruct (Ascii.is_space c); simpl; lia.
Qed.

Lemma lastIndexOf_le (c : ascii) (from : nat) (s : string) (i : nat) :
  lastIndexOf c from s = Some i → (i ≤ from)%nat.
Proof.
  revert from i. induction s as [|a t IH]; intros from i; simpl; [done|].
  destruct from as [|from].
  - destruct (Ascii.eqb a c); [|done]. intros [= <-]. lia.
  - destruct (lastIndexOf c from t) as [j|] eqn:E.
    + intros [= <-]. apply IH in E. lia.
    + destruct (Ascii.eqb a c); [|done]. intros [= <-]. lia.
Qed.

(** The cut lies in the second half of the first [maxLen] code units. *)
Lemma cut_bounds (maxLen : nat) (s : string) :
  (maxLen ≤ 2 * cut maxLen s)%nat ∧ (cut maxLen s ≤ maxLen)%nat.
Proof.
  unfold cut. destruct (lastIndexOf newlineChar maxLen s) as [i|] eqn:E; [|lia].
  apply lastIndexOf_le in E.
  destruct (2 * i <? maxLen)%nat eqn:El; [lia|]. apply Nat.ltb_ge in El. lia.
Qed.

Lemma solid_app (a b : string) : solid (a +:+ b) = solid a +:+ solid b.
Proof.
  induction a as [|c t IH]; simpl; [done|].
  destruct (Ascii.is_space c); simpl; by rewrite IH.
Qed.

Lemma solid_trimStart (s : string) : solid (trimStart s) = solid s.
Proof.
  induction s as [|c t IH]; simpl; [done|].
  destruct (Ascii.is_space c) eqn:E; simpl; by rewrite ?E.
Qed.

Lemma append_empty (s : string) : s +:+ "" = s.
Proof. induction s as [|c t IH]; simpl; [done|]. by rewrite IH. Qed.

Lemma length_zero (s : string) : (String.length s =? 0)%nat = true → s = "".
Proof. by destruct s. Qed.

Lemma splitLoop_returns (maxLen : nat) :
  (1 ≤ maxLen)%nat →
  ∀ fuel remaining,
    (String.length remaining ≤ fuel)%nat →
    ∃ chunks, splitLoop fuel maxLen remaining = Some chunks.
Proof.
  intros Hmax. induction fuel as [|fuel IH]; intros remaining Hlen.
  - exists []. destruct remaining; [done|simpl in Hlen; lia].
  - simpl. destruct (String.length remaining =? 0)%nat; [by eexists|].
    destruct (String.length remaining <=? maxLen)%nat eqn:El; [by eexists|].
    apply Nat.leb_gt in El.
    pose proof (cut_bounds maxLen remaining) as [Hlo Hhi].
    destruct (IH (trimStart (sliceFrom (cut maxLen remaining) remaining)))
      as (chunks & ->); [|by eexists].
    pose proof (length_trimStart (sliceFrom (cut maxLen remaining) remaining)).
    rewrite length_sliceFrom in *. lia.
Qed.

Lemma splitLoop_more_fuel (maxLen : nat) :
  ∀ fuel fuel' remaining chunks,
    splitLoop fuel maxLen remaining = Some chunks → (fuel ≤ fuel')%nat →
    splitLoop fuel' maxLen remaining = Some chunks.
Proof.
  induction fuel as [|fuel IH]; intros fuel' remaining chunks; simpl.
  - destruct (String.length remaining =? 0)%nat eqn:E0;
      [intros <- _; destruct fuel'; simpl; by rewrite E0|].
    destruct (String.length remaining <=? maxLen)%nat eqn:El; [|done].
    intros <- _. destruct fuel'; simpl; by rewrite E0, El.
  - destruct (String.length remaining =? 0)%nat eqn:E0;
      [intros <- _; destruct fuel'; simpl; by rewrite E0|].
    destruct (String.length remaining <=? maxLen)%nat eqn:El;
      [intros <- _; destruct fuel'; simpl; by rewrite E0, El|].
    destruct (splitLoop fuel maxLen _) as [rest|] eqn:E; [|done].
    intros [= <-] Hle. destruct fuel' as [|fuel']; [lia|]. simpl.
    rewrite E0, El. by rewrite (IH fuel' _ rest E) by lia.
Qed.

Lemma splitLoop_fits (maxLen : nat) :
  (1 ≤ maxLen)%nat →
  ∀ fuel remaining chunks,
    splitLoop fuel maxLen remaining = Some chunks → Forall (fits maxLen) chunks.
Proof.
  intros Hmax. induction fuel as [|fuel IH]; intros remaining chunks; simpl.
  - destruct (String.length remaining =? 0)%nat eqn:E0; [by intros [= <-]|].
    destruct (String.length remaining <=? maxLen)%nat eqn:El; [|done].
    intros [= <-]. repeat constructor.
    + apply Nat.eqb_neq in E0. lia.
    + by apply Nat.leb_le.
  - destruct (String.length remaining =? 0)%nat eqn:E0; [by intros [= <-]|].
    destruct (String.length remaining <=? maxLen)%nat eqn:El.
    + intros [= <-]. repeat constructor.
      * apply Nat.eqb_neq in E0. lia.
      * by apply Nat.leb_le.
    + destruct (splitLoop fuel maxLen _) as [rest|] eqn:E; [|done].
      intros [= <-]. apply Nat.leb_gt in El.
      pose proof (cut_bounds maxLen remaining) as [Hlo Hhi].
      constructor; [|by eapply IH].
      unfold fits. rewrite length_sliceTo by lia. lia.
Qed.

Lemma joined_cons (chunk : string) (rest : list string) :
  joined (chunk :: rest) = chunk +:+ joined rest.
Proof. reflexivity. Qed.

Lemma splitLoop_solid (maxLen : nat) :
  ∀ fuel remaining chunks,
    splitLoop fuel maxLen remaining = Some chunks →
    solid (joined chunks) = solid remaining.
Proof.
  induction fuel as [|fuel IH]; intros remaining chunks; simpl.
  - destruct (String.length remaining =? 0)%nat eqn:E0;
      [intros [= <-]; by rewrite (length_zero _ E0)|].
    destruct (String.length remaining <=? maxLen)%nat eqn:El; [|done].
    intros [= <-]. unfold joined; simpl. by rewrite append_empty.
  - destruct (String.length remaining =? 0)%nat eqn:E0;
      [intros [= <-]; by rewrite (length_zero _ E0)|].
    destruct (String.length remaining <=? maxLen)%nat eqn:El.
    + intros [= <-]. unfold joined; simpl. by rewrite append_empty.
    + destruct (splitLoop fuel maxLen _) as [rest|] eqn:E; [|done].
      intros [= <-]. rewrite joined_cons, solid_app, (IH _ _ E), solid_trimStart.
      by rewrite <- solid_app, slice_app.
Qed.

End TelegramFacts.

Module TelegramExtras.
Import JsString Json Effect Telegram TelegramFacts EffectFacts.
#[local] Arguments String.append : simpl nomatch.

(** X23. With a limit of at least one code unit the loop of [splitMessage] ends
    within as many rounds as the text has code units, and more rounds do not
    change the chunks.  With a limit of zero it does not end, however many
    rounds it is given, on a text that is not empty and does not begin with
    white space. *)
Theorem splitMessage_returns_for_a_positive_limit (text : string) (maxLen fuel : nat) :
  ((1 ≤ maxLen)%nat → (String.length text ≤ fuel)%nat →
   ∃ chunks,
     splitMessage fuel text maxLen = Some chunks
     ∧ ∀ fuel', (fuel ≤ fuel')%nat → splitMessage fuel' text maxLen = Some chunks)
  ∧ (maxLen = 0%nat → text ≠ "" → trimStart text = text →
     splitMessage fuel text maxLen = None).
Proof.
  split.
  - intros Hmax Hfuel. unfold splitMessage.
    destruct (String.length text <=? maxLen)%nat; [by eexists|].
    destruct (splitLoop_returns maxLen Hmax fuel text Hfuel) as (chunks & E).
    exists chunks. split; [done|]. intros fuel' Hle.
    by apply (splitLoop_more_fuel maxLen fuel).
  - intros -> Hne Htrim. unfold splitMessage.
    assert (Hlen : (String.length text =? 0)%nat = false) by (by destruct text).
    assert (Hle : (String.length text <=? 0)%nat = false) by (by destruct text).
    rewrite Hle. induction fuel as [|fuel IH]; simpl; rewrite Hlen, Hle; [done|].
    assert (Hcut : cut 0 text = 0%nat).
    { pose proof (cut_bounds 0 text). lia. }
    rewrite Hcut. simpl. destruct text; [done|]. cbn [sliceFrom].
    rewrite Htrim. by rewrite IH.
Qed.

(** X24. The chunks of a text that is not empty are never empty and never longer
    than the limit, there is at least one, and put together they have the
    code units of the text in their order, white space apart; a text within
    the limit is its own single chunk. *)
Theorem chunks_fit_and_keep_the_text (text : string) (maxLen fuel : nat)
    (chunks : list string) :
  (1 ≤ maxLen)%nat →
  text ≠ "" →
  splitMessage fuel text maxLen = Some chunks →
  chunks ≠ []
  ∧ Forall (fits maxLen) chunks
  ∧ solid (joined chunks) = solid text
  ∧ ((String.length text ≤ maxLen)%nat → chunks = [text]).
Proof.
  intros Hmax Hne. unfold splitMessage.
  destruct (String.length text <=? maxLen)%nat eqn:El.
  - intros [= <-]. apply Nat.leb_le in El. split; [done|]. split.
    + constructor; [split; [|done]|constructor].
      destruct text; [done|simpl; lia].
    + split; [|done]. unfold joined; simpl. by rewrite append_empty.
  - intros E. apply Nat.leb_gt in El. split; [|split; [|split]].
    + destruct fuel; simpl in E;
        destruct (String.length text =? 0)%nat eqn:E0;
        try (apply Nat.eqb_eq in E0; lia);
        destruct (String.length text <=? maxLen)%nat eqn:El';
        try (apply Nat.leb_le in El'; lia); [done|].
      destruct (splitLoop fuel maxLen _); [|done]. by injection E as <-.
    + by apply (splitLoop_fits maxLen Hmax fuel text).
    + by apply (splitLoop_solid maxLen fuel).
    + lia.
Qed.


Lemma splitMessage_returns_for_a_positive_limit_witness :
  (∃ chunks,
     splitMessage 13 sampleText 5 = Some chunks
     ∧ ∀ fuel', (13 ≤ fuel')%nat → splitMessage fuel' sampleText 5 = Some chunks)
  ∧ splitMessage 13 sampleText 0 = None.
Proof.
  split.
  - apply (proj1 (splitMessage_returns_for_a_positive_limit sampleText 5 13)).
    + lia.
    + vm_compute. lia.
  - apply (proj2 (splitMessage_returns_for_a_positive_limit sampleText 0 13)).
    + reflexivity.
    + discriminate.
    + reflexivity.
Defined.

Lemma chunks_fit_and_keep_the_text_witness :
  [ "one"; "two t"; "hree" ] ≠ []
  ∧ Forall (fits 5) [ "one"; "two t"; "hree" ]
  ∧ solid (joined [ "one"; "two t"; "hree" ]) = solid sampleText
  ∧ ((String.length sampleText ≤ 5)%nat → [ "one"; "two t"; "hree" ] = [sampleText]).
Proof.
  apply (chunks_fit_and_keep_the_text sampleText 5 13 [ "one"; "two t"; "hree" ]).
  - lia.
  - discriminate.
  - reflexivity.
Defined.

End TelegramExtras.

(** ** The webhook, the message handler and the commands *)

Module WorkerExtras.
Import JsString JsArray Json Effect Linear Store Telegram Worker Schedule.
Import AgentClaims AgentExtras BriefingClaims BriefingExtras.
#[local] Arguments String.append : simpl nomatch.

(** X26. The webhook hands an update over for processing only when it came by
    POST to /webhook, under the configured secret if one is configured,
    with a text that is not empty and from the configured chat; the answer
    is then the plain OK.  Where a secret is configured, a request under
    another token or none is refused with 401 whatever its body, also one
    that does not parse. *)
Theorem webhook_gate (request : HttpRequest) (env : Env) :
  (∀ response update,
     fetch request env = inr (response, Some update) →
     response = okResponse
     ∧ pathname request = "/webhook" ∧ http_method request = "POST"
     ∧ (truthy (WEBHOOK_SECRET env) = true → secretToken request = WEBHOOK_SECRET env)
     ∧ TELEGRAM_CHAT_ID env = Some (chatId update)
     ∧ text update ≠ "")
  ∧ (pathname request = "/webhook" → http_method request = "POST" →
     truthy (WEBHOOK_SECRET env) = true →
     secretToken request ≠ WEBHOOK_SECRET env →
     fetch request env = inr ({| status := 401; content := "Unauthorized" |}, None)).
Proof.
  split.
  - intros response update. unfold fetch.
    destruct (String.eqb_spec (pathname request) "/webhook") as [Hp|Hp]; simpl.
    2:{ destruct (_ && _); intros [=]. }
    destruct (String.eqb_spec (http_method request) "POST") as [Hm|Hm]; simpl.
    2:{ destruct (_ && _); intros [=]. }
    destruct (truthy (WEBHOOK_SECRET env)) eqn:Hs; simpl.
    + destruct (bool_decide (secretToken request = WEBHOOK_SECRET env)) eqn:Ht;
        simpl; [|intros [=]].
      apply bool_decide_eq_true in Ht.
      destruct (json request) as [e|body]; [intros [=]|].
      unfold parseUpdate.
      destruct (match message body with Some m => Some m | None => edited_message body end)
        as [m|]; [|intros [=]].
      destruct (msg_text m) as [t|]; [|intros [=]].
      destruct (String.eqb_spec t "") as [Ht0|Ht0]; [intros [=]|].
      destruct (msg_chat m) as [chat|]; [|intros [=]].
      destruct (bool_decide (Some _ = TELEGRAM_CHAT_ID env)) eqn:Hc; simpl;
        [|intros [=]].
      apply bool_decide_eq_true in Hc. intros [= <- <-]. by repeat split.
    + destruct (json request) as [e|body]; [intros [=]|].
      unfold parseUpdate.
      destruct (match message body with Some m => Some m | None => edited_message body end)
        as [m|]; [|intros [=]].
      destruct (msg_text m) as [t|]; [|intros [=]].
      destruct (String.eqb_spec t "") as [Ht0|Ht0]; [intros [=]|].
      destruct (msg_chat m) as [chat|]; [|intros [=]].
      destruct (bool_decide (Some _ = TELEGRAM_CHAT_ID env)) eqn:Hc; simpl;
        [|intros [=]].
      apply bool_decide_eq_true in Hc. intros [= <- <-]. by repeat split.
  - intros Hp Hm Hs Ht. unfold fetch. rewrite Hp, Hm. simpl. rewrite Hs.
    by rewrite bool_decide_eq_false_2.
Qed.

Lemma webhook_gate_witness :
  fetch (webhook (Some "s3cret") (textMessage 4242 "YAK-1 is done")) sampleEnv
  = inr (okResponse, Some (incoming "YAK-1 is done"))
  ∧ fetch (webhook (Some "guess") (textMessage 4242 "YAK-1 is done")) sampleEnv
    = inr ({| status := 401; content := "Unauthorized" |}, None).
Proof.
  split; [reflexivity|].
  apply (proj2 (webhook_gate (webhook (Some "guess") (textMessage 4242 "YAK-1 is done"))
                  sampleEnv)).
  - reflexivity.
  - reflexivity.
  - reflexivity.
  - discriminate.
Defined.

Section Messages.
Context {W : Type} (api : Tools.Api W).
Context (callClaude : string → list Agent.Message → Exc Agent.Response).
Context (buildSystemPrompt : Tools.Ctx → string).
Context (localeCompare : string → string → Z) (sha256Hex : string → string).
Context (generateBriefing : list Issue → Exc string).
Context (fetchContext : W → Exc Tools.Ctx).
Context (fetchActiveIssues : W → Exc (list Issue)).
Context (today : string).

#[local] Abbreviation process :=
  (processMessage api callClaude buildSystemPrompt localeCompare sha256Hex
     generateBriefing fetchContext fetchActiveIssues today).
#[local] Abbreviation agent :=
  (Agent.runAgent api callClaude buildSystemPrompt).

(** What the /briefing command does after its notice. *)
Lemma briefing_outcome (w : World W) :
  match handleDailyBriefing localeCompare sha256Hex generateBriefing
          fetchActiveIssues today w with
  | (inr _, w') =>
      (∃ text, sent w' = sent w ++ [text])
      ∧ (∀ key, key ≠ Briefing.CACHE_KEY → kv w' !! key = kv w !! key)
      ∧ tracker w' = tracker w ∧ typing w' = typing w
  | (inl e, w') => w' = w
  end.
Proof.
  unfold handleDailyBriefing, onBriefing.
  pose proof (run_outcome localeCompare sha256Hex generateBriefing
                (fetchActiveIssues (tracker w)) today
                {| Briefing.kv := kv w; Briefing.sent := sent w |}) as H.
  destruct (Briefing.handleDailyBriefing _ _ _ _ _ _) as [[e|[]] b].
  - destruct H as [-> _]. by destruct w.
  - destruct H as [Hsent Hkv]. by repeat split.
Qed.


(** X28. A turn that fails is reported to the chat as "Something broke"
    with the error's message, and is forgotten: the store is as it was.
    When the queries for the context fail, the tracker is as it was too.
    When the agent throws, the tracker is the one the agent left: what the
    tools had changed before the failure stays changed. *)
Theorem failed_turn_is_reported_and_forgotten (fuel : nat) (update : Update)
    (w : World W) (e : string) :
  String.prefix "/" (text update) = false →
  (fetchContext (tracker w) = inl e →
   process fuel update w
   = (inr (Some tt),
      {| tracker := tracker w; kv := kv w;
         sent := sent w ++ [somethingBroke e]; typing := S (typing w) |}))
  ∧ (∀ ctx a,
       fetchContext (tracker w) = inr ctx →
       agent fuel (text update) ctx (agentView w) = (inl e, a) →
       process fuel update w
       = (inr (Some tt),
          {| tracker := Agent.tracker a; kv := kv w;
             sent := sent w ++ [somethingBroke e]; typing := S (typing w) |})).
Proof.
  intros Hcmd. split.
  - intros Hctx. unfold processMessage, tryCatch. rewrite Hcmd.
    unfold bind at 1, sendTyping at 1. unfold bind at 1, lift at 1. cbn [tracker].
    by rewrite Hctx.
  - intros ctx a Hctx Hrun. unfold processMessage, tryCatch. rewrite Hcmd.
    unfold bind at 1, sendTyping at 1. unfold bind at 1, lift at 1. cbn [tracker].
    rewrite Hctx.
    unfold bind at 1, onAgent at 1. cbn [tracker kv sent typing].
    unfold agentView in Hrun. rewrite Hrun.
    pose proof (runAgent_store api callClaude buildSystemPrompt fuel (text update)
                  ctx (agentView w)) as Hkv.
    unfold agentView in Hkv. rewrite Hrun in Hkv. cbn [Agent.kv] in Hkv.
    unfold bind, sendMessage, ret. cbn [tracker kv sent typing]. by rewrite Hkv.
Qed.

(** X29. Every message gets its reply: with fuel for the agent's ceiling,
    [processMessage] never throws and never sends nothing.  It sends one
    text, or two when the command is /briefing: the notice and then the
    briefing or the report of its failure. *)
Theorem every_message_gets_a_reply (fuel : nat) (update : Update) (w : World W) :
  (Agent.MAX_ITERATIONS ≤ fuel)%nat →
  ∃ w' texts,
    process fuel update w = (inr (Some tt), w')
    ∧ sent w' = sent w ++ texts
    ∧ (length texts = 1%nat
       ∨ length texts = 2%nat ∧ isCommand update
         ∧ commandOf (text update) = "/briefing").
Proof.
  intros Hfuel. unfold processMessage, tryCatch.
  destruct (String.prefix "/" (text update)) eqn:Hcmd.
  - unfold handleCommand, bind at 1.
    destruct (String.eqb_spec (commandOf (text update)) "/start") as [E1|N1].
    { eexists _, [_]. split; [reflexivity|]. split; [done|]. by left. }
    destruct (String.eqb_spec (commandOf (text update)) "/briefing") as [E2|N2].
    { unfold bind at 1, sendMessage at 1.
      match goal with
      | |- context [handleDailyBriefing _ _ _ _ _ ?w0] =>
          pose proof (briefing_outcome w0) as H;
          destruct (handleDailyBriefing localeCompare sha256Hex generateBriefing
                      fetchActiveIssues today w0) as [[e|[]] w1]
      end.
      - subst w1. eexists _, [_; _]. split; [reflexivity|]. cbn [sent].
        split; [by rewrite <- (assoc_L (++))|]. by right.
      - destruct H as ((reply & Hsent) & _). cbn [sent] in Hsent.
        eexists _, [_; _]. split; [reflexivity|]. cbn [sent]. rewrite Hsent.
        split; [by rewrite <- (assoc_L (++))|]. by right. }
    destruct (String.eqb_spec (commandOf (text update)) "/clear") as [E3|N3].
    { eexists _, [_]. split; [reflexivity|]. split; [done|]. by left. }
    destruct (String.eqb_spec (commandOf (text update)) "/help") as [E4|N4].
    { eexists _, [_]. split; [reflexivity|]. split; [done|]. by left. }
    eexists _, [_]. split; [reflexivity|]. split; [done|]. by left.
  - unfold bind at 1, sendTyping at 1. unfold bind at 1, lift at 1. cbn [tracker].
    destruct (fetchContext (tracker w)) as [e|ctx].
    { eexists _, [_]. split; [reflexivity|]. split; [done|]. by left. }
    unfold bind at 1, onAgent at 1. cbn [tracker kv sent typing].
    destruct (Agent.runAgent _ _ _ _ _ _ _) as [[e|[reply|]] a] eqn:Hrun.
    + eexists _, [_]. split; [reflexivity|]. split; [done|]. by left.
    + eexists _, [_]. split; [reflexivity|]. split; [done|]. by left.
    + by apply runAgent_fuel_suffices in Hrun.
Qed.

(** X30. The /briefing command is a run like the scheduled one: asked over an
    unchanged snapshot it raises the count of unchanged runs by one, on
    whatever day, and is answered after the notice with the stored briefing
    or, once the count reaches the threshold, with the escalation. *)
Theorem briefing_command_counts_as_a_run (fuel : nat) (update : Update)
    (w : World W) (issues : list Issue) (c : CacheRecord) :
  isCommand update →
  commandOf (text update) = "/briefing" →
  fetchActiveIssues (tracker w) = inr issues →
  issues ≠ [] →
  kv w !! Briefing.CACHE_KEY = Some (KCache c) →
  hash c = Some (Briefing.hashIssues localeCompare sha256Hex issues) →
  process fuel update w
  = (inr (Some tt),
     {| tracker := tracker w;
        kv := <[Briefing.CACHE_KEY :=
                  KCache {| hash := hash c; briefing := briefing c;
                            unchangedDays := Some (default 0%nat (unchangedDays c) + 1)%nat;
                            lastRun := today |}]> (kv w);
        sent := sent w ++ [ briefingNotice; reminder c (default 0%nat (unchangedDays c)) ];
        typing := typing w |}).
Proof.
  intros Hcmd Hb Hfetch Hne Hkv Hhash. unfold isCommand in Hcmd.
  unfold processMessage, tryCatch. rewrite Hcmd. unfold handleCommand. rewrite Hb.
  cbn [String.eqb Ascii.eqb Bool.eqb].
  unfold bind at 1. unfold bind at 1, sendMessage at 1.
  unfold handleDailyBriefing, onBriefing. cbn [tracker kv sent typing].
  rewrite Hfetch.
  rewrite (run_unchanged localeCompare sha256Hex generateBriefing issues today c
             {| Briefing.kv := kv w; Briefing.sent := sent w ++ [briefingNotice] |}
             Hne Hkv Hhash).
  cbn [Briefing.kv Briefing.sent]. unfold ret, reminder.
  by rewrite <- (assoc_L (++)).
Qed.

End Messages.


Lemma failed_turn_is_reported_and_forgotten_witness :
  ∃ a,
    Agent.runAgent Tracker.refApi Transcript.failingModel Scenarios.samplePrompt 10
      "YAK-1 is in progress" (Tracker.snapshot "lin_api_key" "YAK" Scenarios.tracker0)
      (agentView world0) = (inl "Anthropic API 529: overloaded", a)
    ∧ processMessage Tracker.refApi Transcript.failingModel Scenarios.samplePrompt
        Fixtures.sampleCollation Fixtures.sampleDigest Scenarios.sampleBriefing
        snapshotOf activeIssues "2026-01-12" 10 (incoming "YAK-1 is in progress") world0
      = (inr (Some tt),
         {| tracker := Agent.tracker a; kv := kv world0;
            sent := sent world0 ++ [somethingBroke "Anthropic API 529: overloaded"];
            typing := S (typing world0) |})
    ∧ Tracker.t_issues (Agent.tracker a)
      = [Fixtures.yak1Started; Fixtures.yak2].
Proof.
  eexists. split; [vm_compute; reflexivity|]. split; [|reflexivity].
  apply (proj2 (failed_turn_is_reported_and_forgotten Tracker.refApi
                  Transcript.failingModel Scenarios.samplePrompt Fixtures.sampleCollation
                  Fixtures.sampleDigest Scenarios.sampleBriefing snapshotOf activeIssues
                  "2026-01-12" 10 (incoming "YAK-1 is in progress") world0
                  "Anthropic API 529: overloaded" eq_refl)
           (Tracker.snapshot "lin_api_key" "YAK" Scenarios.tracker0)).
  - reflexivity.
  - vm_compute. reflexivity.
Defined.

Lemma every_message_gets_a_reply_witness :
  ∃ w' texts,
    processMessage Tracker.refApi Transcript.plainModel Scenarios.samplePrompt
      Fixtures.sampleCollation Fixtures.sampleDigest Scenarios.sampleBriefing
      snapshotOf activeIssues "2026-01-12" 10 (incoming "What is due today?") world0
    = (inr (Some tt), w')
    ∧ sent w' = sent world0 ++ texts
    ∧ (length texts = 1%nat
       ∨ length texts = 2%nat ∧ isCommand (incoming "What is due today?")
         ∧ commandOf "What is due today?" = "/briefing").
Proof.
  apply (every_message_gets_a_reply Tracker.refApi Transcript.plainModel
           Scenarios.samplePrompt Fixtures.sampleCollation Fixtures.sampleDigest
           Scenarios.sampleBriefing snapshotOf activeIssues "2026-01-12" 10
           (incoming "What is due today?") world0).
  unfold Agent.MAX_ITERATIONS. lia.
Defined.

Lemma briefing_command_counts_as_a_run_witness :
  processMessage Tracker.refApi Transcript.plainModel Scenarios.samplePrompt
    Fixtures.sampleCollation Fixtures.sampleDigest Scenarios.sampleBriefing
    snapshotOf activeIssues "2026-01-12" 0 (incoming "/briefing") cachedWorld0
  = (inr (Some tt),
     {| tracker := Scenarios.tracker0;
        kv := <[Briefing.CACHE_KEY :=
                  KCache {| hash := hash Scenarios.cachedRecord;
                            briefing := briefing Scenarios.cachedRecord;
                            unchangedDays := Some 1%nat;
                            lastRun := "2026-01-12" |}]> (kv cachedWorld0);
        sent := [ briefingNotice; briefing Scenarios.cachedRecord ];
        typing := 0 |}).
Proof.
  rewrite (briefing_command_counts_as_a_run Tracker.refApi Transcript.plainModel
             Scenarios.samplePrompt Fixtures.sampleCollation Fixtures.sampleDigest
             Scenarios.sampleBriefing snapshotOf activeIssues "2026-01-12" 0
             (incoming "/briefing") cachedWorld0 [Fixtures.yak1; Fixtures.yak2]
             Scenarios.cachedRecord eq_refl eq_refl eq_refl ltac:(discriminate)
             eq_refl eq_refl).
  reflexivity.
Defined.

End WorkerExtras.
